(** * Particle and graviton simulation: a shallow embedding of [src/main.py]

    The Python program keeps its whole state in objects that refer to each
    other: every [Particle] and every [Graviton] owns two list objects
    ([position] and [forces]) that are mutated in place, gravitons point back
    to the particle that created them, and the loop in [main] owns the two
    collections [particles] and [gravitons].  The embedding keeps that shape:

    - list objects, particle objects and graviton objects live in three typed
      heaps ([gmap loc _]); a reference is a location, [is] is equality of
      locations, [list.copy()] allocates a fresh location;
    - methods are computations in a state-and-error monad over the [World];
      [None] stands for a Python exception ([IndexError], [ValueError]) or a
      dangling reference, which a well-formed world never produces;
    - Python numbers ([int] and [float]) are modelled by exact rationals [Q]:
      rounding, infinities and NaN of IEEE doubles are outside the model,
      except in the module [Binary64], which evaluates the loop body of
      [Particle.apply_force] on binary64 numbers to show where rounding
      decides the branch;
    - [random.random()] and [random.randint] read an oracle stored in the
      world, [pygame.draw.circle] appends to the list of circles drawn since
      the last [screen.fill]; clock, window and event queue are not modelled,
      so the [while running] loop becomes [run n], the first [n] frames. *)

From Stdlib Require Import QArith Qabs Lqa Lia.
From Stdlib Require Import Floats.PrimFloat.
From stdpp Require Import gmap list.

Local Open Scope Q_scope.

(** ** Configuration constants (class [Configuration]) *)

Module Configuration.
Definition SCREEN_RESOLUTION : list Q := [700; 700].
Definition PARTICLE_COUNT : nat := 3.
Definition PARTICLE_SIZE : Q := 10.
Definition PARTICLE_SPAWN_OFFSET : Q := 10.
Definition PARTICLE_COLOR_MIN : Z := 100.
Definition PARTICLE_COLOR_RANGE : Z := 155.
Definition FORCE_LIMIT : Q := 2.
Definition GRAVITON_SIZE : Q := 1.
Definition GRAVITON_LIFE : Z := 100.
Definition GRAVITON_CREATION_COUNT : nat := 30.
Definition GRAVITON_FORCE_ADDITION_RANGE : Q := 10.
Definition GRAVITON_FORCE_APPLY_MULTIPLIER : Q := - (1 # 100).
Definition GRAVITON_COLOR_MULTIPLIER : Q := 1 # 2.
End Configuration.

(** ** Python built-ins on numbers *)

(** [a < b] on numbers, as a boolean. *)
Definition Qltb (a b : Q) : bool := if Qlt_le_dec a b then true else false.

(** [min(a, b)]: the first argument unless the second is strictly smaller. *)
Definition py_min (a b : Q) : Q := if Qltb b a then b else a.

(** [max(a, b)]: the first argument unless the second is strictly larger. *)
Definition py_max (a b : Q) : Q := if Qltb a b then b else a.

(** [int(x)]: truncation towards zero. *)
Definition py_int (x : Q) : Z := Z.quot (Qnum x) (Z.pos (Qden x)).

(** [math.hypot(dx, dy) < r], without the square root: the Euclidean norm is
    below [r] exactly when [r] is positive and the squares compare. *)
Definition hypot_lt (dx dy r : Q) : bool :=
  Qltb 0 r && Qltb (dx * dx + dy * dy) (r * r).

(** [l.remove(x)]: drops the first occurrence, [ValueError] when absent. *)
Fixpoint py_remove (x : positive) (l : list positive) : option (list positive) :=
  match l with
  | [] => None
  | y :: l' =>
      if decide (x = y) then Some l'
      else match py_remove x l' with
           | Some r => Some (y :: r)
           | None => None
           end
  end.

(** ** Objects and the world *)

(** References are locations in a heap. *)
Abbreviation loc := positive (only parsing).

(** Attributes of a [Particle] object. *)
Record particle := mkParticle {
  particle_position : loc;
  particle_forces : loc;
  particle_color : list Q;
  particle_size : Q;
}.

(** Attributes of a [Graviton] object. *)
Record graviton := mkGraviton {
  graviton_creator : loc;
  graviton_position : loc;
  graviton_forces : loc;
  graviton_color : list Q;
  graviton_size : Q;
  graviton_life : Z;
}.

(** One call of [pygame.draw.circle(surface, color, (x, y), radius)]. *)
Record circle := mkCircle {
  circle_color : list Q;
  circle_x : Z;
  circle_y : Z;
  circle_radius : Q;
}.

Record World := mkWorld {
  lists : gmap positive (list Q);          (* list objects *)
  particle_objs : gmap positive particle;  (* Particle objects *)
  graviton_objs : gmap positive graviton;  (* Graviton objects *)
  particles : list loc;                    (* the list [particles] of main *)
  gravitons : list loc;                    (* the list [gravitons] of main *)
  screen : list circle;                    (* circles drawn since the last fill *)
  rng_random : nat -> Q;                   (* k-th result of random.random() *)
  rng_randint : nat -> Z;                  (* raw k-th integer draw *)
  rng_pos : nat;                           (* number of draws so far *)
}.

Definition set_lists (f : gmap positive (list Q) -> gmap positive (list Q)) (w : World) : World :=
  mkWorld (f (lists w)) (particle_objs w) (graviton_objs w) (particles w)
          (gravitons w) (screen w) (rng_random w) (rng_randint w) (rng_pos w).

Definition set_particle_objs (f : gmap positive particle -> gmap positive particle) (w : World) : World :=
  mkWorld (lists w) (f (particle_objs w)) (graviton_objs w) (particles w)
          (gravitons w) (screen w) (rng_random w) (rng_randint w) (rng_pos w).

Definition set_graviton_objs (f : gmap positive graviton -> gmap positive graviton) (w : World) : World :=
  mkWorld (lists w) (particle_objs w) (f (graviton_objs w)) (particles w)
          (gravitons w) (screen w) (rng_random w) (rng_randint w) (rng_pos w).

Definition set_particles (f : list loc -> list loc) (w : World) : World :=
  mkWorld (lists w) (particle_objs w) (graviton_objs w) (f (particles w))
          (gravitons w) (screen w) (rng_random w) (rng_randint w) (rng_pos w).

Definition set_gravitons (f : list loc -> list loc) (w : World) : World :=
  mkWorld (lists w) (particle_objs w) (graviton_objs w) (particles w)
          (f (gravitons w)) (screen w) (rng_random w) (rng_randint w) (rng_pos w).

Definition set_screen (f : list circle -> list circle) (w : World) : World :=
  mkWorld (lists w) (particle_objs w) (graviton_objs w) (particles w)
          (gravitons w) (f (screen w)) (rng_random w) (rng_randint w) (rng_pos w).

Definition set_rng_pos (f : nat -> nat) (w : World) : World :=
  mkWorld (lists w) (particle_objs w) (graviton_objs w) (particles w)
          (gravitons w) (screen w) (rng_random w) (rng_randint w) (f (rng_pos w)).

(** ** The state-and-error monad *)

Definition M (A : Type) : Type := World -> option (A * World).

Definition ret {A} (a : A) : M A := fun w => Some (a, w).

Definition bind {A B} (m : M A) (k : A -> M B) : M B :=
  fun w => match m w with
           | Some (a, w') => k a w'
           | None => None
           end.

Definition raise {A} : M A := fun _ => None.

Definition lift {A} (o : option A) : M A :=
  fun w => match o with
           | Some a => Some (a, w)
           | None => None
           end.

Definition gets {A} (f : World -> A) : M A := fun w => Some (f w, w).

Definition modify (f : World -> World) : M unit := fun w => Some (tt, f w).

Notation "'let*' x ':=' c 'in' k" := (bind c (fun x => k))
  (at level 10, x name, c at level 100, k at level 200).
Notation "c '>>' k" := (bind c (fun _ => k))
  (at level 90, right associativity).

(** [for x in xs: body x] *)
Fixpoint foreach {A} (xs : list A) (body : A -> M unit) : M unit :=
  match xs with
  | [] => ret tt
  | x :: xs' => body x >> foreach xs' body
  end.

(** [for x in xs: body x], where the body answers [true] when it ran [break];
    the loop answers whether it was left by [break]. *)
Fixpoint foreach_break {A} (xs : list A) (body : A -> M bool) : M bool :=
  match xs with
  | [] => ret false
  | x :: xs' =>
      let* stop := body x in
      if stop then ret true else foreach_break xs' body
  end.

(** [a or b] on booleans: [b] is evaluated only when [a] is false. *)
Definition py_or (a b : M bool) : M bool :=
  let* x := a in
  if x then ret true else b.

(** [[e for _ in range(n)]] *)
Fixpoint collect {A} (n : nat) (e : M A) : M (list A) :=
  match n with
  | O => ret []
  | S n' =>
      let* x := e in
      let* xs := collect n' e in
      ret (x :: xs)
  end.

(** [range(n)] *)
Definition range (n : nat) : list nat := seq 0 n.

(** *** List objects *)

(** A list display or [l.copy()]: a new list object. *)
Definition list_alloc (v : list Q) : M loc :=
  fun w => let l := fresh (dom (lists w)) in
           Some (l, set_lists (insert l v) w).

Definition list_read (l : loc) : M (list Q) :=
  let* v := gets (fun w => lists w !! l) in lift v.

(** [l[i]] *)
Definition list_get (l : loc) (i : nat) : M Q :=
  let* v := list_read l in lift (v !! i).

(** [l[i] = x]; [IndexError] out of range. *)
Definition list_set (l : loc) (i : nat) (x : Q) : M unit :=
  let* v := list_read l in
  if decide (i < length v)%nat
  then modify (set_lists (insert l (<[i:=x]> v)))
  else raise.

(** [l.copy()] *)
Definition list_copy (l : loc) : M loc :=
  let* v := list_read l in list_alloc v.

(** *** Particle and graviton objects *)

Definition particle_read (self : loc) : M particle :=
  let* p := gets (fun w => particle_objs w !! self) in lift p.

Definition particle_alloc (p : particle) : M loc :=
  fun w => let l := fresh (dom (particle_objs w)) in
           Some (l, set_particle_objs (insert l p) w).

Definition graviton_read (self : loc) : M graviton :=
  let* g := gets (fun w => graviton_objs w !! self) in lift g.

Definition graviton_write (self : loc) (g : graviton) : M unit :=
  let* _ := graviton_read self in
  modify (set_graviton_objs (insert self g)).

Definition graviton_alloc (g : graviton) : M loc :=
  fun w => let l := fresh (dom (graviton_objs w)) in
           Some (l, set_graviton_objs (insert l g) w).

(** *** The random module *)

(** [random.random()] *)
Definition random_random : M Q :=
  let* k := gets rng_pos in
  let* r := gets (fun w => rng_random w k) in
  modify (set_rng_pos S) >> ret r.

(** [random.randint(a, b)]: an integer of [a..b]. *)
Definition random_randint (a b : Z) : M Z :=
  let* k := gets rng_pos in
  let* r := gets (fun w => rng_randint w k) in
  modify (set_rng_pos S) >> ret (a + r mod (b - a + 1))%Z.

(** *** The drawing surface *)

(** [pygame.draw.circle(surface, color, (x, y), radius)] *)
Definition draw_circle (c : circle) : M unit :=
  modify (set_screen (fun s => s ++ [c])).

(** [screen.fill(color)] *)
Definition screen_fill : M unit := modify (set_screen (fun _ => [])).

(** ** class Particle *)

Module Particle.

(** [Particle.__init__(self, forces, spawn_zone, size)].  [forces] is a
    reference: the new particle keeps the caller's list object. *)
Definition init (forces : loc) (spawn_zone : list Q) (size : Q) : M loc :=
  let* z0 := lift (spawn_zone !! 0%nat) in
  let* z1 := lift (spawn_zone !! 1%nat) in
  let* z2 := lift (spawn_zone !! 2%nat) in
  let* z3 := lift (spawn_zone !! 3%nat) in
  let* r0 := random_random in
  let* r1 := random_random in
  let* position := list_alloc [z0 + r0 * (z2 - z0); z1 + r1 * (z3 - z1)] in
  let* c0 := random_randint 0 Configuration.PARTICLE_COLOR_RANGE in
  let* c1 := random_randint 0 Configuration.PARTICLE_COLOR_RANGE in
  let* c2 := random_randint 0 Configuration.PARTICLE_COLOR_RANGE in
  let color := [inject_Z (Configuration.PARTICLE_COLOR_MIN + c0);
                inject_Z (Configuration.PARTICLE_COLOR_MIN + c1);
                inject_Z (Configuration.PARTICLE_COLOR_MIN + c2)] in
  particle_alloc (mkParticle position forces color size).

(** The test [(projected_position - self.size < 0) or
    (projected_position + self.size > limits[i])]; [limits[i]] is read only
    when the first comparison is false. *)
Definition leaves_bounds (projected_position size : Q) (limits : list Q) (i : nat) : M bool :=
  py_or (ret (Qltb (projected_position - size) 0))
        (let* limit := lift (limits !! i) in
         ret (Qltb limit (projected_position + size))).

(** [self.forces[i] *= -1] *)
Definition negate_force (p : particle) (i : nat) : M unit :=
  let* f := list_get (particle_forces p) i in
  list_set (particle_forces p) i (f * -1).

(** One iteration of the loop of [apply_force]. *)
Definition apply_force_axis (self : loc) (force limits : list Q) (i : nat) : M unit :=
  let* p := particle_read self in
  let* x := list_get (particle_position p) i in
  let* f := list_get (particle_forces p) i in
  let* fi := lift (force !! i) in
  let projected_position := x + f + fi in
  let* out := leaves_bounds projected_position (particle_size p) limits i in
  (if out then negate_force p i else ret tt) >>
  let* f' := list_get (particle_forces p) i in
  list_set (particle_forces p) i (f' + fi).

(** [Particle.apply_force(self, force, limits)] *)
Definition apply_force (self : loc) (force limits : list Q) : M unit :=
  foreach (range 2) (apply_force_axis self force limits).

(** One iteration of the loop of [update]. *)
Definition update_axis (self : loc) (limits : list Q) (i : nat) : M unit :=
  let* p := particle_read self in
  let* f := list_get (particle_forces p) i in
  list_set (particle_forces p) i
    (py_max (py_min f Configuration.FORCE_LIMIT) (- Configuration.FORCE_LIMIT)) >>
  let* x := list_get (particle_position p) i in
  let* f1 := list_get (particle_forces p) i in
  let projected_position := x + f1 in
  let* out := leaves_bounds projected_position (particle_size p) limits i in
  (if out then negate_force p i else ret tt) >>
  let* x' := list_get (particle_position p) i in
  let* f2 := list_get (particle_forces p) i in
  list_set (particle_position p) i (x' + f2).

(** [Particle.update(self, limits)] *)
Definition update (self : loc) (limits : list Q) : M unit :=
  foreach (range 2) (update_axis self limits).

(** [Particle.draw(self, surface)] *)
Definition draw (self : loc) : M unit :=
  let* p := particle_read self in
  let* x := list_get (particle_position p) 0 in
  let* y := list_get (particle_position p) 1 in
  draw_circle (mkCircle (particle_color p) (py_int x) (py_int y) (particle_size p)).

End Particle.

(** ** class Graviton *)

Module Graviton.

(** [Graviton.__init__(self, creator, position, forces, size, life)]:
    [position] and [forces] are references to the caller's lists, of which
    the graviton stores copies. *)
Definition init (creator position forces : loc) (size : Q) (life : Z) : M loc :=
  let* own_position := list_copy position in
  let* own_forces := list_copy forces in
  let* c := particle_read creator in
  let* c0 := lift (particle_color c !! 0%nat) in
  let* c1 := lift (particle_color c !! 1%nat) in
  let* c2 := lift (particle_color c !! 2%nat) in
  let color := [c0 * Configuration.GRAVITON_COLOR_MULTIPLIER;
                c1 * Configuration.GRAVITON_COLOR_MULTIPLIER;
                c2 * Configuration.GRAVITON_COLOR_MULTIPLIER] in
  graviton_alloc (mkGraviton creator own_position own_forces color size life).

(** [Graviton.apply_force(self, force)]: [self.forces] is rebound to a new
    list. *)
Definition apply_force (self : loc) (force : list Q) : M unit :=
  let* g := graviton_read self in
  let* f0 := list_get (graviton_forces g) 0 in
  let* a0 := lift (force !! 0%nat) in
  let* f1 := list_get (graviton_forces g) 1 in
  let* a1 := lift (force !! 1%nat) in
  let* new_forces := list_alloc [f0 + a0; f1 + a1] in
  graviton_write self
    (mkGraviton (graviton_creator g) (graviton_position g) new_forces
                (graviton_color g) (graviton_size g) (graviton_life g)).

(** One iteration of the loop of [update]. *)
Definition update_axis (self : loc) (i : nat) : M unit :=
  let* g := graviton_read self in
  let* x := list_get (graviton_position g) i in
  let* f := list_get (graviton_forces g) i in
  list_set (graviton_position g) i (x + f).

(** [Graviton.update(self, limits)]; [limits] is not used. *)
Definition update (self : loc) (limits : list Q) : M unit :=
  foreach (range 2) (update_axis self).

(** [Graviton.draw(self, surface)] *)
Definition draw (self : loc) : M unit :=
  let* g := graviton_read self in
  let* x := list_get (graviton_position g) 0 in
  let* y := list_get (graviton_position g) 1 in
  draw_circle (mkCircle (graviton_color g) (py_int x) (py_int y) (graviton_size g)).

End Graviton.

(** ** The function [main] *)

(** [resolution = Configuration.SCREEN_RESOLUTION]; the list is never
    mutated, so it is used as a value. *)
Definition resolution : list Q := Configuration.SCREEN_RESOLUTION.

(** One element of the list comprehension that builds [particles]. *)
Definition new_particle : M loc :=
  let* forces := list_alloc [0; 0] in
  let* r0 := lift (resolution !! 0%nat) in
  let* r1 := lift (resolution !! 1%nat) in
  Particle.init forces
    [Configuration.PARTICLE_SPAWN_OFFSET;
     Configuration.PARTICLE_SPAWN_OFFSET;
     r0 - Configuration.PARTICLE_SPAWN_OFFSET;
     r1 - Configuration.PARTICLE_SPAWN_OFFSET]
    Configuration.PARTICLE_SIZE.

(** The statements of [main] before the loop. *)
Definition setup : M unit :=
  let* ps := collect Configuration.PARTICLE_COUNT new_particle in
  modify (set_particles (fun _ => ps)) >>
  modify (set_gravitons (fun _ => [])).

(** [gravitons.append(g)] *)
Definition gravitons_append (g : loc) : M unit :=
  modify (set_gravitons (fun gs => gs ++ [g])).

(** [gravitons.remove(graviton)] *)
Definition gravitons_remove (graviton : loc) : M unit :=
  let* gs := gets gravitons in
  let* gs' := lift (py_remove graviton gs) in
  modify (set_gravitons (fun _ => gs')).

(** Body of [for _ in range(Configuration.GRAVITON_CREATION_COUNT)]. *)
Definition spawn_graviton (particle : loc) : M unit :=
  let* p := particle_read particle in
  let* graviton_position := list_copy (particle_position p) in
  let* f0 := list_get (particle_forces p) 0 in
  let* r0 := random_random in
  let* f1 := list_get (particle_forces p) 1 in
  let* r1 := random_random in
  let* graviton_forces :=
    list_alloc [f0 + (r0 - (1 # 2)) * Configuration.GRAVITON_FORCE_ADDITION_RANGE;
                f1 + (r1 - (1 # 2)) * Configuration.GRAVITON_FORCE_ADDITION_RANGE] in
  let* g := Graviton.init particle graviton_position graviton_forces
              Configuration.GRAVITON_SIZE Configuration.GRAVITON_LIFE in
  gravitons_append g.

(** Body of the first [for particle in particles]. *)
Definition particle_step (particle : loc) : M unit :=
  Particle.draw particle >>
  Particle.update particle resolution >>
  foreach (range Configuration.GRAVITON_CREATION_COUNT)
          (fun _ => spawn_graviton particle).

(** The first loop of a frame; [particles] is not mutated while it runs. *)
Definition particle_phase : M unit :=
  let* ps := gets particles in
  foreach ps particle_step.

(** [graviton.life -= 1] *)
Definition graviton_age (graviton : loc) : M unit :=
  let* g := graviton_read graviton in
  graviton_write graviton
    (mkGraviton (graviton_creator g) (graviton_position g) (graviton_forces g)
                (graviton_color g) (graviton_size g) (graviton_life g - 1)%Z).

(** The condition of the [if] that removes a graviton:
    [life <= 0 or position[0] < 0 or position[0] > resolution[0]
     or position[1] < 0 or position[1] > resolution[1]]. *)
Definition graviton_expired (graviton : loc) : M bool :=
  let* g := graviton_read graviton in
  py_or (ret (graviton_life g <=? 0)%Z)
 (py_or (let* x := list_get (graviton_position g) 0 in ret (Qltb x 0))
 (py_or (let* x := list_get (graviton_position g) 0 in
         let* r := lift (resolution !! 0%nat) in ret (Qltb r x))
 (py_or (let* y := list_get (graviton_position g) 1 in ret (Qltb y 0))
        (let* y := list_get (graviton_position g) 1 in
         let* r := lift (resolution !! 1%nat) in ret (Qltb r y))))).

(** Body of the inner [for particle in particles]; the answer is [true] when
    the body ends in [break]. *)
Definition collide (graviton particle : loc) : M bool :=
  let* g := graviton_read graviton in
  if decide (particle = graviton_creator g) then ret false
  else
    let* p := particle_read particle in
    let* gx := list_get (graviton_position g) 0 in
    let* px := list_get (particle_position p) 0 in
    let dx := gx - px in
    let* gy := list_get (graviton_position g) 1 in
    let* py := list_get (particle_position p) 1 in
    let dy := gy - py in
    if hypot_lt dx dy (particle_size p + graviton_size g) then
      let* f0 := list_get (graviton_forces g) 0 in
      let* f1 := list_get (graviton_forces g) 1 in
      Particle.apply_force particle
        [f0 * Configuration.GRAVITON_FORCE_APPLY_MULTIPLIER;
         f1 * Configuration.GRAVITON_FORCE_APPLY_MULTIPLIER]
        resolution >>
      gravitons_remove graviton >>
      ret true
    else ret false.

(** Body of [for graviton in gravitons[:]]. *)
Definition graviton_step (graviton : loc) : M unit :=
  Graviton.draw graviton >>
  Graviton.update graviton resolution >>
  graviton_age graviton >>
  let* dead := graviton_expired graviton in
  if dead then gravitons_remove graviton
  else
    let* ps := gets particles in
    foreach_break ps (collide graviton) >> ret tt.

(** The second loop of a frame, over the copy [gravitons[:]]. *)
Definition graviton_phase : M unit :=
  let* snapshot := gets gravitons in
  foreach snapshot graviton_step.

(** One iteration of [while running]. *)
Definition frame : M unit :=
  screen_fill >> particle_phase >> graviton_phase.

(** The first [n] iterations of [while running]. *)
Fixpoint run (n : nat) : M unit :=
  match n with
  | O => ret tt
  | S n' => frame >> run n'
  end.

(** [main], stopped by a quit event during its [n]-th frame. *)
Definition main (n : nat) : M unit := setup >> run n.

(** The world before [main] runs: nothing allocated. *)
Definition empty_world (rnd : nat -> Q) (rint : nat -> Z) : World :=
  mkWorld ∅ ∅ ∅ [] [] [] rnd rint 0.

(** ** The loop body of [Particle.apply_force] on binary64 numbers

    The same two statements as [Particle.apply_force_axis], on the values
    they read and with the arithmetic of Python's [float]: every sum,
    difference and product is rounded to the nearest binary64 number. *)

Module Binary64.

(** [(projected_position - self.size < 0) or
    (projected_position + self.size > limits[i])] *)
Definition leaves_bounds (projected_position size limit : PrimFloat.float) : bool :=
  PrimFloat.ltb (PrimFloat.sub projected_position size) 0%float
  || PrimFloat.ltb limit (PrimFloat.add projected_position size).

(** [projected_position = self.position[i] + self.forces[i] + force[i]] *)
Definition projected_position (position forces force : PrimFloat.float) : PrimFloat.float :=
  PrimFloat.add (PrimFloat.add position forces) force.

(** [self.forces[i]] after one iteration of the loop of [apply_force]. *)
Definition apply_force_axis (position forces force size limit : PrimFloat.float)
    : PrimFloat.float :=
  let forces' :=
    if leaves_bounds (projected_position position forces force) size limit
    then PrimFloat.mul forces (-1)%float
    else forces in
  PrimFloat.add forces' force.

End Binary64.

(** * Vocabulary of the specification *)

(** ** One axis of the particle methods, in closed form

    What the loop bodies of [Particle.update] and [Particle.apply_force]
    compute from the values they read; [Particle_update_run] and
    [Particle_apply_force_run] below prove that running the methods stores
    exactly these values. *)

(** [max(min(f, FORCE_LIMIT), -FORCE_LIMIT)] *)
Definition clamp (f : Q) : Q :=
  py_max (py_min f Configuration.FORCE_LIMIT) (- Configuration.FORCE_LIMIT).

(** [projected - size < 0 or projected + size > limit] *)
Definition outside (projected size limit : Q) : bool :=
  Qltb (projected - size) 0 || Qltb limit (projected + size).

(** [f] after the conditional [f *= -1]. *)
Definition reflected (out : bool) (f : Q) : Q := if out then f * -1 else f.

(** [forces[i]] after [update]. *)
Definition updated_force (size limit x f : Q) : Q :=
  reflected (outside (x + clamp f) size limit) (clamp f).

(** [position[i]] after [update]. *)
Definition updated_position (size limit x f : Q) : Q :=
  x + updated_force size limit x f.

(** [forces[i]] after [apply_force] with [force[i] = a]. *)
Definition impulsed_force (size limit x f a : Q) : Q :=
  reflected (outside (x + f + a) size limit) f + a.

(** ** Well-formed objects *)

(** [self] is a particle whose position and forces are the distinct list
    objects [pos] and [frc], as [Particle.__init__] builds them. *)
Definition particle_at (w : World) (self : loc) (p : particle) (pos frc : list Q) : Prop :=
  particle_objs w !! self = Some p /\
  lists w !! particle_position p = Some pos /\
  lists w !! particle_forces p = Some frc /\
  particle_position p <> particle_forces p.

(** [self] is a graviton whose position and forces are the distinct list
    objects [pos] and [frc], as [Graviton.__init__] builds them. *)
Definition graviton_at (w : World) (self : loc) (g : graviton) (pos frc : list Q) : Prop :=
  graviton_objs w !! self = Some g /\
  lists w !! graviton_position g = Some pos /\
  lists w !! graviton_forces g = Some frc /\
  graviton_position g <> graviton_forces g.

(** ** Sequences of method calls on one particle *)

Inductive call :=
  | CallUpdate
  | CallApplyForce (force : list Q).

Definition do_call (self : loc) (limits : list Q) (c : call) : M unit :=
  match c with
  | CallUpdate => Particle.update self limits
  | CallApplyForce force => Particle.apply_force self force limits
  end.

Definition do_calls (self : loc) (limits : list Q) (cs : list call) : M unit :=
  foreach cs (do_call self limits).

(** The force handed to [apply_force] is a vector of two numbers. *)
Definition call_ok (c : call) : Prop :=
  match c with
  | CallUpdate => True
  | CallApplyForce force => length force = 2%nat
  end.

Definition sample_calls : list call :=
  [CallUpdate; CallApplyForce [9; -9]; CallUpdate; CallUpdate;
   CallApplyForce [-30; 1]; CallUpdate].

(** [lo <= x <= hi] *)
Definition within (lo hi x : Q) : Prop := lo <= x /\ x <= hi.

(** ** The graviton loop body, in closed form *)

(** The graviton object after [graviton.life -= 1]. *)
Definition aged (g : graviton) : graviton :=
  mkGraviton (graviton_creator g) (graviton_position g) (graviton_forces g)
             (graviton_color g) (graviton_size g) (graviton_life g - 1)%Z.

(** The world after [graviton.draw(screen)], [graviton.update(resolution)]
    and [graviton.life -= 1], for a graviton at [[x, y]] with forces
    [[fx, fy]]: one more circle, the position moved, the life decremented. *)
Definition advanced (w : World) (self : loc) (g : graviton) (x y fx fy : Q) : World :=
  set_graviton_objs (insert self (aged g))
    (set_lists (insert (graviton_position g) [x + fx; y + fy])
       (set_screen
          (fun s => s ++ [mkCircle (graviton_color g) (py_int x) (py_int y)
                                   (graviton_size g)]) w)).

(** The condition that removes a graviton, on the values it reads. *)
Definition expired (life : Z) (x y : Q) : bool :=
  (life <=? 0)%Z || Qltb x 0 || Qltb 700 x || Qltb y 0 || Qltb 700 y.

(** The contact test between a graviton at [[gx, gy]] and a particle at
    [[px, py]]. *)
Definition touches (gx gy gsize px py psize : Q) : bool :=
  hypot_lt (gx - px) (gy - py) (psize + gsize).

(** The impulse a graviton with forces [[fx, fy]] hands to [apply_force]. *)
Definition impulse (fx fy : Q) : list Q :=
  [fx * Configuration.GRAVITON_FORCE_APPLY_MULTIPLIER;
   fy * Configuration.GRAVITON_FORCE_APPLY_MULTIPLIER].

(** Whether the collision loop of [graviton] stops at [particle]: the
    particle is not the creator and the two circles overlap. *)
Definition collides (w : World) (graviton particle : loc) : bool :=
  match graviton_objs w !! graviton, particle_objs w !! particle with
  | Some g, Some p =>
      match lists w !! graviton_position g, lists w !! particle_position p with
      | Some [gx; gy], Some [px; py] =>
          negb (bool_decide (particle = graviton_creator g))
          && touches gx gy (graviton_size g) px py (particle_size p)
      | _, _ => false
      end
  | _, _ => false
  end.

(** The first particle, in the order of the list, that the graviton hits. *)
Definition first_hit (w : World) (graviton : loc) (ps : list loc) : option loc :=
  List.find (collides w graviton) ps.

(** Whether a graviton, as it stands in [w], passes both tests of the loop
    body: it is not expired and hits no particle. *)
Definition still_active (w : World) (graviton : loc) : bool :=
  match graviton_objs w !! graviton with
  | Some g =>
      match lists w !! graviton_position g with
      | Some [x; y] =>
          negb (expired (graviton_life g) x y)
          && match first_hit w graviton (particles w) with
             | Some _ => false
             | None => true
             end
      | _ => false
      end
  | None => false
  end.

(** The position of a particle can be read: it is a list of two numbers. *)
Definition position_readable (w : World) (particle : loc) : Prop :=
  exists p px py,
    particle_objs w !! particle = Some p /\
    lists w !! particle_position p = Some [px; py].

(** What the loop body does to a graviton that hits [particle]. *)
Definition hit (particle graviton : loc) (fx fy : Q) : M unit :=
  Particle.apply_force particle (impulse fx fy) resolution >>
  gravitons_remove graviton.

(** ** Well-formed worlds

    What holds of the objects of [main] between any two statements of the
    loop: every particle and every active graviton has two vectors of two
    numbers, the active gravitons are distinct objects, and no list object is
    shared, neither between two objects nor between the position and the
    forces of one. *)

Definition vector_at (w : World) (l : loc) : Prop :=
  exists a b, lists w !! l = Some [a; b].

Definition particle_ok (w : World) (particle : loc) : Prop :=
  exists p,
    particle_objs w !! particle = Some p /\
    vector_at w (particle_position p) /\
    vector_at w (particle_forces p) /\
    length (particle_color p) = 3%nat.

Definition graviton_ok (w : World) (graviton : loc) : Prop :=
  exists g,
    graviton_objs w !! graviton = Some g /\
    vector_at w (graviton_position g) /\
    vector_at w (graviton_forces g).

Inductive owner :=
  | OfParticle (particle : loc)
  | OfGraviton (graviton : loc).

Inductive slot := Position | Forces.

(** The objects the loop still works with. *)
Definition active (w : World) (o : owner) : Prop :=
  match o with
  | OfParticle p => p ∈ particles w
  | OfGraviton g => g ∈ gravitons w
  end.

(** The list object an attribute refers to. *)
Definition owned (w : World) (o : owner) (s : slot) : option loc :=
  match o, s with
  | OfParticle p, Position => particle_position <$> particle_objs w !! p
  | OfParticle p, Forces => particle_forces <$> particle_objs w !! p
  | OfGraviton g, Position => graviton_position <$> graviton_objs w !! g
  | OfGraviton g, Forces => graviton_forces <$> graviton_objs w !! g
  end.

Record well_formed (w : World) : Prop := {
  wf_particles : forall p, p ∈ particles w -> particle_ok w p;
  wf_gravitons : forall g, g ∈ gravitons w -> graviton_ok w g;
  wf_nodup : NoDup (gravitons w);
  wf_separate : forall o1 s1 o2 s2 l,
    active w o1 -> active w o2 ->
    owned w o1 s1 = Some l -> owned w o2 s2 = Some l ->
    o1 = o2 /\ s1 = s2;
}.

(** The world after [particle.draw(screen)] and [particle.update(resolution)]
    for a particle at [[x0, x1]] with forces [[f0, f1]]. *)
Definition moved (w : World) (p : particle) (x0 x1 f0 f1 : Q) : World :=
  set_lists (insert (particle_position p)
               [updated_position (particle_size p) 700 x0 f0;
                updated_position (particle_size p) 700 x1 f1])
    (set_lists (insert (particle_forces p)
                  [updated_force (particle_size p) 700 x0 f0;
                   updated_force (particle_size p) 700 x1 f1])
       (set_screen
          (fun s => s ++ [mkCircle (particle_color p) (py_int x0) (py_int x1)
                                   (particle_size p)]) w)).

(** ** What a loop leaves alone *)

(** Existing list objects keep their contents and existing graviton objects
    their attributes; the particles are the same. *)
Record preserves (w w' : World) : Prop := {
  pre_particles : particles w' = particles w;
  pre_particle_objs : particle_objs w' = particle_objs w;
  pre_rng : rng_random w' = rng_random w;
  pre_lists : forall l v, lists w !! l = Some v -> lists w' !! l = Some v;
  pre_graviton_objs : forall g go,
    graviton_objs w !! g = Some go -> graviton_objs w' !! g = Some go;
}.

(** [graviton] was built by [spawn_graviton particle] since the world [w0],
    when the particle was at [[x0, x1]] with forces [[f0, f1]], and is in
    [w'] as it was built. *)
Definition spawned_by (w0 w' : World) (particle : loc) (x0 x1 f0 f1 : Q)
    (graviton : loc) : Prop :=
  graviton_objs w0 !! graviton = None /\
  exists g fx fy k,
    graviton_at w' graviton g [x0; x1] [fx; fy] /\
    graviton_creator g = particle /\
    graviton_size g = Configuration.GRAVITON_SIZE /\
    graviton_life g = Configuration.GRAVITON_LIFE /\
    lists w0 !! graviton_position g = None /\
    lists w0 !! graviton_forces g = None /\
    fx = f0 + (rng_random w0 k - (1 # 2)) * Configuration.GRAVITON_FORCE_ADDITION_RANGE /\
    fy = f1 + (rng_random w0 (S k) - (1 # 2)) * Configuration.GRAVITON_FORCE_ADDITION_RANGE.

(** What one round of the graviton loop does to a well-formed world, for a
    graviton at [[x, y]] with forces [[fx, fy]]: it is drawn, moved and aged;
    no other list changes, except the forces of a particle; it leaves the
    active list exactly when it fails a test. *)
Record stepped (w : World) (g : loc) (go : graviton) (x y fx fy : Q)
    (w1 : World) : Prop := {
  st_particles : particles w1 = particles w;
  st_particle_objs : particle_objs w1 = particle_objs w;
  st_rng : rng_random w1 = rng_random w;
  st_graviton_objs : graviton_objs w1 = <[g := aged go]> (graviton_objs w);
  st_position : lists w1 !! graviton_position go = Some [x + fx; y + fy];
  st_lists : forall l,
    l <> graviton_position go ->
    (forall p po, p ∈ particles w -> particle_objs w !! p = Some po ->
                  l <> particle_forces po) ->
    lists w1 !! l = lists w !! l;
  st_screen :
    screen w1 = screen w ++ [mkCircle (graviton_color go) (py_int x) (py_int y)
                                      (graviton_size go)];
  st_gravitons :
    (gravitons w1 = gravitons w /\ still_active w1 g = true) \/
    (py_remove g (gravitons w) = Some (gravitons w1) /\ still_active w1 g = false);
}.

(** What the graviton loop over [rest] does to a well-formed world: every
    graviton of [rest] is drawn, moved by its forces and aged, and stays
    active exactly when it passes both tests; the other gravitons and the
    particles' positions are not touched. *)
Record phased (rest : list loc) (w w' : World) : Prop := {
  ph_particles : particles w' = particles w;
  ph_particle_objs : particle_objs w' = particle_objs w;
  ph_rng : rng_random w' = rng_random w;
  ph_lists : forall l,
    (forall g go, g ∈ rest -> graviton_objs w !! g = Some go ->
                  l <> graviton_position go) ->
    (forall p po, p ∈ particles w -> particle_objs w !! p = Some po ->
                  l <> particle_forces po) ->
    lists w' !! l = lists w !! l;
  ph_other : forall g, g ∉ rest -> graviton_objs w' !! g = graviton_objs w !! g;
  ph_each : forall g go x y fx fy,
    g ∈ rest ->
    graviton_at w g go [x; y] [fx; fy] ->
    graviton_objs w' !! g = Some (aged go) /\
    lists w' !! graviton_position go = Some [x + fx; y + fy] /\
    mkCircle (graviton_color go) (py_int x) (py_int y) (graviton_size go)
      ∈ screen w';
  ph_gravitons : forall g,
    g ∈ gravitons w' <->
    g ∈ gravitons w /\ (g ∈ rest -> still_active w' g = true);
  ph_screen : forall c, c ∈ screen w -> c ∈ screen w';
}.

(** Every particle has the configured size and lies inside the arena, at
    least its radius away from each wall. *)
Definition in_arena (w : World) : Prop :=
  forall p, p ∈ particles w ->
    exists po x0 x1,
      particle_objs w !! p = Some po /\
      lists w !! particle_position po = Some [x0; x1] /\
      particle_size po = Configuration.PARTICLE_SIZE /\
      within Configuration.PARTICLE_SIZE (700 - Configuration.PARTICLE_SIZE) x0 /\
      within Configuration.PARTICLE_SIZE (700 - Configuration.PARTICLE_SIZE) x1.

(** The generator behaves as [random.random] does: results in [[0, 1)]. *)
Definition rng_ok (w : World) : Prop :=
  forall n, 0 <= rng_random w n /\ rng_random w n < 1.

(** ** Sample worlds *)

(** One particle of radius 10: object 1, position in list 1, forces in list
    2; no gravitons. *)
Definition one_particle_world (pos frc : list Q) : World :=
  mkWorld (<[1%positive := pos]> (<[2%positive := frc]> ∅))
          (<[1%positive := mkParticle 1 2 [200; 150; 100] 10]> ∅)
          ∅ [1%positive] [] [] (fun _ => 1 # 2) (fun _ => 0%Z) 0.

(** Two particles and one graviton.  Particle 1 sits at (100, 100) and moves
    right at full speed; particle 2 rests at (300, 300); graviton 1 was
    emitted by particle 2 and flies left, 10 to the right of particle 1. *)
Definition impulse_world : World :=
  mkWorld (<[1%positive := [100; 100]]> (<[2%positive := [2; 0]]>
          (<[3%positive := [300; 300]]> (<[4%positive := [0; 0]]>
          (<[5%positive := [110; 100]]> (<[6%positive := [-5; 0]]> ∅))))))
          (<[1%positive := mkParticle 1 2 [200; 150; 100] 10]>
          (<[2%positive := mkParticle 3 4 [100; 150; 200] 10]> ∅))
          (<[1%positive := mkGraviton 2 5 6 [50; 75; 100] 1 50]> ∅)
          [1%positive; 2%positive] [1%positive] []
          (fun _ => 1 # 2) (fun _ => 0%Z) 0.

(** A graviton in the corner (0, 0) that flies out of the arena, emitted by
    particle 1; particle 2 lies right under it. *)
Definition corner_world : World :=
  mkWorld (<[1%positive := [20; 20]]> (<[2%positive := [0; 0]]>
          (<[3%positive := [0; 0]]> (<[4%positive := [0; 0]]>
          (<[5%positive := [0; 0]]> (<[6%positive := [-1; -1]]> ∅))))))
          (<[1%positive := mkParticle 1 2 [200; 150; 100] 10]>
          (<[2%positive := mkParticle 3 4 [100; 150; 200] 10]> ∅))
          (<[1%positive := mkGraviton 1 5 6 [100; 75; 50] 1 50]> ∅)
          [1%positive; 2%positive] [1%positive] []
          (fun _ => 1 # 2) (fun _ => 0%Z) 0.

(** A graviton exactly on top of its creator, particle 1, and of particle 2,
    a second object with the same attribute values. *)
Definition overlap_world : World :=
  mkWorld (<[1%positive := [20; 20]]> (<[2%positive := [0; 0]]>
          (<[3%positive := [20; 20]]> (<[4%positive := [0; 0]]>
          (<[5%positive := [20; 20]]> (<[6%positive := [3; 4]]> ∅))))))
          (<[1%positive := mkParticle 1 2 [200; 150; 100] 10]>
          (<[2%positive := mkParticle 3 4 [200; 150; 100] 10]> ∅))
          (<[1%positive := mkGraviton 1 5 6 [100; 75; 50] 1 50]> ∅)
          [1%positive; 2%positive] [1%positive] []
          (fun _ => 1 # 2) (fun _ => 0%Z) 0.

(** ** Vocabulary of the further properties *)

(** A particle as the list comprehension of [main] builds it: at rest, of
    the configured size, inside the spawn zone. *)
Definition spawned_at_rest (w : World) (p : loc) : Prop :=
  exists po x0 x1,
    particle_objs w !! p = Some po /\
    lists w !! particle_position po = Some [x0; x1] /\
    lists w !! particle_forces po = Some [0; 0] /\
    particle_size po = Configuration.PARTICLE_SIZE /\
    (10 <= x0 /\ x0 < 690) /\ (10 <= x1 /\ x1 < 690).

(** One particle at rest in the middle of the screen and one graviton of
    its own, far away from it, that flies down and to the right. *)
Definition flight_world : World :=
  mkWorld (<[1%positive := [350; 350]]> (<[2%positive := [0; 0]]>
          (<[3%positive := [100; 100]]> (<[4%positive := [3; 4]]> ∅))))
          (<[1%positive := mkParticle 1 2 [200; 150; 100] 10]> ∅)
          (<[1%positive := mkGraviton 1 3 4 [100; 75; 50] 1 50]> ∅)
          [1%positive] [1%positive] []
          (fun _ => 1 # 2) (fun _ => 0%Z) 0.

(** A graviton as [spawn_graviton] leaves it during a frame that starts
    with the particles inside the arena: full life, on its creator, with
    forces at most [FORCE_LIMIT + GRAVITON_FORCE_ADDITION_RANGE / 2 = 7] on
    each axis. *)
Definition newborn (w : World) (g : loc) : Prop :=
  exists go x y fx fy,
    graviton_at w g go [x; y] [fx; fy] /\
    graviton_size go = Configuration.GRAVITON_SIZE /\
    graviton_creator go ∈ particles w /\
    graviton_life go = Configuration.GRAVITON_LIFE /\
    within Configuration.PARTICLE_SIZE (700 - Configuration.PARTICLE_SIZE) x /\
    within Configuration.PARTICLE_SIZE (700 - Configuration.PARTICLE_SIZE) y /\
    Qabs fx <= 7 /\ Qabs fy <= 7.

(** An active graviton between two frames: on the screen, with some life
    left but less than [GRAVITON_LIFE], forces at most 7 on each axis, and
    touching no particle but, possibly, its creator. *)
Definition in_flight (w : World) (g : loc) : Prop :=
  exists go x y fx fy,
    graviton_at w g go [x; y] [fx; fy] /\
    graviton_size go = Configuration.GRAVITON_SIZE /\
    graviton_creator go ∈ particles w /\
    (0 < graviton_life go < Configuration.GRAVITON_LIFE)%Z /\
    within 0 700 x /\ within 0 700 y /\
    Qabs fx <= 7 /\ Qabs fy <= 7 /\
    first_hit w g (particles w) = None.

(** The life an object table records for a graviton. *)
Definition life_of (w : World) (g : loc) : option Z :=
  graviton_life <$> graviton_objs w !! g.

(** The active gravitons with a given life left: those of one frame of
    creation. *)
Definition cohort (w : World) (life : Z) : list loc :=
  filter (fun g => life_of w g = Some life) (gravitons w).


(** A generator for sample runs: [random.random()] returns 0, 1/8, ..., 7/8
    in turn. *)
Definition sample_random (k : nat) : Q := Z.of_nat (k mod 8) # 8.
(** * Reasoning about computations *)

(** ** Running a computation step by step *)

Lemma bind_run {A B} (m : M A) (k : A -> M B) w a w1 :
  m w = Some (a, w1) -> bind m k w = k a w1.
Proof. intros H. unfold bind. now rewrite H. Qed.


Lemma bind_bind {A B C} (m : M A) (k : A -> M B) (k' : B -> M C) w :
  bind (bind m k) k' w = bind m (fun a => bind (k a) k') w.
Proof. unfold bind. now destruct (m w) as [[a w1]|]. Qed.


Lemma ret_run {A} (a : A) w : ret a w = Some (a, w).
Proof. reflexivity. Qed.

Lemma gets_run {A} (f : World -> A) w : gets f w = Some (f w, w).
Proof. reflexivity. Qed.

Lemma modify_run f w : modify f w = Some (tt, f w).
Proof. reflexivity. Qed.

Lemma lift_run {A} (o : option A) (a : A) w : o = Some a -> lift o w = Some (a, w).
Proof. now intros ->. Qed.

Lemma list_read_run w l v :
  lists w !! l = Some v -> list_read l w = Some (v, w).
Proof. intros H. unfold list_read, bind, gets, lift. now rewrite H. Qed.

Lemma list_get_run w l i v x :
  lists w !! l = Some v -> v !! i = Some x -> list_get l i w = Some (x, w).
Proof.
  intros H1 H2. unfold list_get. rewrite (bind_run _ _ _ _ _ (list_read_run _ _ _ H1)).
  now apply lift_run.
Qed.

Lemma list_set_run w l i v x :
  lists w !! l = Some v -> (i < length v)%nat ->
  list_set l i x w = Some (tt, set_lists (insert l (<[i:=x]> v)) w).
Proof.
  intros H1 H2. unfold list_set. rewrite (bind_run _ _ _ _ _ (list_read_run _ _ _ H1)).
  destruct (decide (i < length v)%nat); [reflexivity | contradiction].
Qed.

Lemma list_alloc_run w v :
  list_alloc v w = Some (fresh (dom (lists w)), set_lists (insert (fresh (dom (lists w))) v) w).
Proof. reflexivity. Qed.

Lemma list_copy_run w l v :
  lists w !! l = Some v ->
  list_copy l w = Some (fresh (dom (lists w)), set_lists (insert (fresh (dom (lists w))) v) w).
Proof.
  intros H. unfold list_copy. now rewrite (bind_run _ _ _ _ _ (list_read_run _ _ _ H)).
Qed.

Lemma particle_read_run w self p :
  particle_objs w !! self = Some p -> particle_read self w = Some (p, w).
Proof. intros H. unfold particle_read, bind, gets, lift. now rewrite H. Qed.

Lemma graviton_read_run w self g :
  graviton_objs w !! self = Some g -> graviton_read self w = Some (g, w).
Proof. intros H. unfold graviton_read, bind, gets, lift. now rewrite H. Qed.

Lemma graviton_write_run w self g g' :
  graviton_objs w !! self = Some g ->
  graviton_write self g' w = Some (tt, set_graviton_objs (insert self g') w).
Proof.
  intros H. unfold graviton_write.
  now rewrite (bind_run _ _ _ _ _ (graviton_read_run _ _ _ H)).
Qed.

Lemma random_random_run w :
  random_random w = Some (rng_random w (rng_pos w), set_rng_pos S w).
Proof. reflexivity. Qed.

Lemma draw_circle_run c w :
  draw_circle c w = Some (tt, set_screen (fun s => s ++ [c]) w).
Proof. reflexivity. Qed.

(** A fresh location is not one that is in use. *)
Lemma fresh_lists_None w : lists w !! fresh (dom (lists w)) = None.
Proof. apply not_elem_of_dom, is_fresh. Qed.

Lemma fresh_lists_ne w l v : lists w !! l = Some v -> l <> fresh (dom (lists w)).
Proof. intros H ->. rewrite fresh_lists_None in H. discriminate. Qed.

(** Projections of an updated world. *)
Ltac wsimpl :=
  cbn [lists particle_objs graviton_objs particles gravitons screen rng_random
       rng_randint rng_pos set_lists set_particle_objs set_graviton_objs
       set_particles set_gravitons set_screen set_rng_pos] in *.

(** Looking a location up after a series of stores. *)
Ltac lookup_tac :=
  wsimpl;
  repeat first [ rewrite lookup_insert_eq
               | rewrite lookup_insert_ne
                   by first [ assumption | apply not_eq_sym; assumption
                            | congruence ] ];
  first [ eassumption | reflexivity ].

Ltac leaf :=
  first
    [ apply ret_run
    | apply gets_run
    | apply modify_run
    | apply random_random_run
    | apply draw_circle_run
    | apply list_alloc_run
    | eapply lift_run; first [ eassumption | reflexivity ]
    | eapply particle_read_run; lookup_tac
    | eapply graviton_read_run; lookup_tac
    | eapply graviton_write_run; lookup_tac
    | eapply list_get_run; [ lookup_tac | first [ eassumption | reflexivity ] ]
    | eapply list_set_run; [ lookup_tac | first [ eassumption | simpl; lia ] ]
    | eapply list_copy_run; lookup_tac ].

(** Runs the first computation of a sequence. *)
Ltac massoc :=
  repeat match goal with
         | |- context [bind (bind ?m ?k) ?k' ?w] => rewrite (bind_bind m k k' w)
         end.

Ltac mstep :=
  cbv beta iota; massoc;
  match goal with
  | |- bind ?m ?k ?w = _ => erewrite (bind_run m k w); [ | leaf ]
  end.

(** The same, with the tactic [t] to run the first computation. *)
Tactic Notation "mrun" tactic3(t) :=
  cbv beta iota; massoc;
  match goal with
  | |- bind ?m ?k ?w = _ => erewrite (bind_run m k w); [ | t ]
  end.

(** ** Stores that cancel or commute *)


Lemma set_lists_swap l1 l2 a b w :
  l1 <> l2 ->
  set_lists (insert l1 a) (set_lists (insert l2 b) w)
  = set_lists (insert l2 b) (set_lists (insert l1 a) w).
Proof. intros H. unfold set_lists. wsimpl. now rewrite insert_insert_ne. Qed.

Lemma set_lists_same l v w :
  lists w !! l = Some v -> set_lists (insert l v) w = w.
Proof.
  intros H. destruct w. unfold set_lists. wsimpl. now rewrite insert_id.
Qed.

Lemma set_lists_compose f g w :
  set_lists f (set_lists g w) = set_lists (fun m => f (g m)) w.
Proof. reflexivity. Qed.

Lemma set_lists_ext f g w :
  f (lists w) = g (lists w) -> set_lists f w = set_lists g w.
Proof. unfold set_lists. now intros ->. Qed.

(** Two series of stores into the same world that leave the same lists. *)
Ltac world_eq :=
  rewrite ?set_lists_compose; apply set_lists_ext; cbn beta;
  apply map_eq; intros ?l;
  repeat match goal with
         | |- context [<[?k := _]> _ !! ?j] =>
             destruct (decide (k = j)) as [<-|?];
             repeat first [ rewrite lookup_insert_eq
                          | rewrite lookup_insert_ne by congruence ]
         end;
  unfold updated_position, updated_force, impulsed_force, clamp;
  cbn [insert list_insert];
  reflexivity.

(** ** Order on rationals, as computed *)

Lemma Qltb_true a b : Qltb a b = true <-> a < b.
Proof.
  unfold Qltb. destruct (Qlt_le_dec a b) as [H|H]; split; try easy.
  intros H'. lra.
Qed.

Lemma Qltb_false a b : Qltb a b = false <-> b <= a.
Proof.
  unfold Qltb. destruct (Qlt_le_dec a b) as [H|H]; split; try easy.
  intros H'. lra.
Qed.

(** * The particle methods *)

Lemma leaves_bounds_run projected size limits i limit w :
  limits !! i = Some limit ->
  Particle.leaves_bounds projected size limits i w
  = Some (outside projected size limit, w).
Proof.
  intros H. unfold Particle.leaves_bounds, py_or, outside.
  mstep. destruct (Qltb (projected - size) 0); [reflexivity|].
  mstep. reflexivity.
Qed.

Lemma negate_if_run (out : bool) p i frc f w :
  lists w !! particle_forces p = Some frc ->
  frc !! i = Some f ->
  (if out then Particle.negate_force p i else ret tt) w
  = Some (tt, set_lists (insert (particle_forces p) (<[i:=reflected out f]> frc)) w).
Proof.
  intros Hf Hi. assert (i < length frc)%nat by (eapply lookup_lt_Some; eauto).
  destruct out; unfold reflected.
  - unfold Particle.negate_force. mstep. now apply list_set_run.
  - rewrite list_insert_id by assumption. now rewrite set_lists_same.
Qed.

(** Running [Particle.update]: both vectors are overwritten with the closed
    forms, nothing else changes. *)
Lemma Particle_update_run w self p x0 x1 f0 f1 l0 l1 :
  particle_at w self p [x0; x1] [f0; f1] ->
  Particle.update self [l0; l1] w
  = Some (tt,
      set_lists (insert (particle_position p)
                   [updated_position (particle_size p) l0 x0 f0;
                    updated_position (particle_size p) l1 x1 f1])
        (set_lists (insert (particle_forces p)
                      [updated_force (particle_size p) l0 x0 f0;
                       updated_force (particle_size p) l1 x1 f1]) w)).
Proof.
  intros (Hp & Hx & Hf & Hne).
  unfold Particle.update, range. cbn [seq foreach].
  unfold Particle.update_axis.
  do 5 mstep.
  mrun ltac:(eapply leaves_bounds_run; reflexivity).
  mrun ltac:(eapply negate_if_run; [lookup_tac | reflexivity]).
  do 3 mstep.
  do 5 mstep.
  mrun ltac:(eapply leaves_bounds_run; reflexivity).
  mrun ltac:(eapply negate_if_run; [lookup_tac | reflexivity]).
  do 3 mstep.
  rewrite ret_run. f_equal. f_equal. world_eq.
Qed.

(** Running [Particle.apply_force]: the forces are overwritten with the
    closed form, nothing else changes. *)
Lemma Particle_apply_force_run w self p x0 x1 f0 f1 a0 a1 l0 l1 :
  particle_at w self p [x0; x1] [f0; f1] ->
  Particle.apply_force self [a0; a1] [l0; l1] w
  = Some (tt,
      set_lists (insert (particle_forces p)
                   [impulsed_force (particle_size p) l0 x0 f0 a0;
                    impulsed_force (particle_size p) l1 x1 f1 a1]) w).
Proof.
  intros (Hp & Hx & Hf & Hne).
  unfold Particle.apply_force, range. cbn [seq foreach].
  unfold Particle.apply_force_axis.
  do 4 mstep.
  mrun ltac:(eapply leaves_bounds_run; reflexivity).
  mrun ltac:(eapply negate_if_run; [lookup_tac | reflexivity]).
  do 2 mstep.
  do 4 mstep.
  mrun ltac:(eapply leaves_bounds_run; reflexivity).
  mrun ltac:(eapply negate_if_run; [lookup_tac | reflexivity]).
  do 2 mstep.
  rewrite ret_run. f_equal. f_equal. world_eq.
Qed.

(** A particle stays a well-formed particle under both methods. *)
Lemma particle_at_update w self p x0 x1 f0 f1 l0 l1 w' :
  particle_at w self p [x0; x1] [f0; f1] ->
  Particle.update self [l0; l1] w = Some (tt, w') ->
  particle_at w' self p
    [updated_position (particle_size p) l0 x0 f0;
     updated_position (particle_size p) l1 x1 f1]
    [updated_force (particle_size p) l0 x0 f0;
     updated_force (particle_size p) l1 x1 f1].
Proof.
  intros H Hrun. rewrite (Particle_update_run _ _ _ _ _ _ _ _ _ H) in Hrun.
  injection Hrun as <-. destruct H as (Hp & Hx & Hf & Hne).
  repeat split; try assumption; lookup_tac.
Qed.

Lemma particle_at_apply_force w self p x0 x1 f0 f1 a0 a1 l0 l1 w' :
  particle_at w self p [x0; x1] [f0; f1] ->
  Particle.apply_force self [a0; a1] [l0; l1] w = Some (tt, w') ->
  particle_at w' self p [x0; x1]
    [impulsed_force (particle_size p) l0 x0 f0 a0;
     impulsed_force (particle_size p) l1 x1 f1 a1].
Proof.
  intros H Hrun. rewrite (Particle_apply_force_run _ _ _ _ _ _ _ _ _ _ _ H) in Hrun.
  injection Hrun as <-. destruct H as (Hp & Hx & Hf & Hne).
  repeat split; try assumption; lookup_tac.
Qed.

(** ** Arithmetic of one axis *)

Lemma clamp_bounds f :
  - Configuration.FORCE_LIMIT <= clamp f /\ clamp f <= Configuration.FORCE_LIMIT.
Proof.
  unfold clamp, py_max, py_min, Configuration.FORCE_LIMIT.
  destruct (Qltb 2 f) eqn:E1.
  - destruct (Qltb 2 (- (2))) eqn:E2.
    + apply Qltb_true in E2. lra.
    + lra.
  - apply Qltb_false in E1.
    destruct (Qltb f (- (2))) eqn:E2.
    + lra.
    + apply Qltb_false in E2. lra.
Qed.

Lemma reflected_abs out f : Qabs (reflected out f) == Qabs f.
Proof.
  destruct out; unfold reflected; [|reflexivity].
  assert (E : f * -1 == - f) by ring. rewrite E. apply Qabs_opp.
Qed.

Lemma updated_force_abs size limit x f :
  Qabs (updated_force size limit x f) <= Configuration.FORCE_LIMIT.
Proof.
  unfold updated_force. rewrite reflected_abs.
  apply Qabs_Qle_condition. apply clamp_bounds.
Qed.

Lemma outside_false projected size limit :
  outside projected size limit = false <->
  size <= projected /\ projected <= limit - size.
Proof.
  unfold outside. rewrite orb_false_iff, !Qltb_false. split; intros [H1 H2]; split; lra.
Qed.

Lemma outside_true projected size limit :
  outside projected size limit = true <->
  projected < size \/ limit - size < projected.
Proof.
  unfold outside. rewrite orb_true_iff, !Qltb_true. split; intros [H|H]; (left; lra) || (right; lra).
Qed.

Lemma impulsed_force_abs size limit x f a :
  Qabs (impulsed_force size limit x f a) <= Qabs f + Qabs a.
Proof.
  unfold impulsed_force.
  eapply Qle_trans; [apply Qabs_triangle|].
  rewrite reflected_abs. apply Qle_refl.
Qed.

(** Reflection keeps a position inside, when the arena has room for a
    reflected step of full length. *)
Lemma updated_position_within size limit x f :
  2 * Configuration.FORCE_LIMIT <= limit - 2 * size ->
  within size (limit - size) x ->
  within size (limit - size) (updated_position size limit x f).
Proof.
  unfold within, updated_position, updated_force. intros Hroom [Hlo Hhi].
  pose proof (clamp_bounds f) as [Hc1 Hc2].
  unfold Configuration.FORCE_LIMIT in *.
  destruct (outside (x + clamp f) size limit) eqn:E; unfold reflected.
  - apply outside_true in E. destruct E as [E|E]; split; lra.
  - apply outside_false in E. lra.
Qed.

(** ** Properties of the particle methods *)

(** C2.  For every particle and every prior value of its forces, when
    [Particle.update] returns the magnitude of [forces[axis]] is at most
    [FORCE_LIMIT] on both axes: each stored force is the clamped value,
    negated or not by the reflection. *)
Theorem update_bounds_forces w self p x0 x1 f0 f1 l0 l1 :
  particle_at w self p [x0; x1] [f0; f1] ->
  exists w' g0 g1,
    Particle.update self [l0; l1] w = Some (tt, w') /\
    lists w' !! particle_forces p = Some [g0; g1] /\
    g0 = reflected (outside (x0 + clamp f0) (particle_size p) l0) (clamp f0) /\
    g1 = reflected (outside (x1 + clamp f1) (particle_size p) l1) (clamp f1) /\
    Qabs g0 <= Configuration.FORCE_LIMIT /\
    Qabs g1 <= Configuration.FORCE_LIMIT.
Proof.
  intros H.
  pose proof (Particle_update_run _ _ _ _ _ _ _ l0 l1 H) as Hrun.
  pose proof (particle_at_update _ _ _ _ _ _ _ _ _ _ H Hrun) as (_ & _ & Hf & _).
  eexists _, _, _. split; [exact Hrun|]. split; [exact Hf|].
  split; [reflexivity|]. split; [reflexivity|].
  split; apply updated_force_abs.
Qed.

Lemma update_bounds_forces_witness :
  particle_at (one_particle_world [5; 350] [3; -7]) 1%positive
    (mkParticle 1 2 [200; 150; 100] 10) [5; 350] [3; -7] /\
  exists w' g0 g1,
    Particle.update 1%positive [700; 700] (one_particle_world [5; 350] [3; -7])
      = Some (tt, w') /\
    lists w' !! 2%positive = Some [g0; g1] /\
    g0 = reflected (outside (5 + clamp 3) 10 700) (clamp 3) /\
    g1 = reflected (outside (350 + clamp (-7)) 10 700) (clamp (-7)) /\
    Qabs g0 <= Configuration.FORCE_LIMIT /\
    Qabs g1 <= Configuration.FORCE_LIMIT.
Proof.
  assert (H : particle_at (one_particle_world [5; 350] [3; -7]) 1%positive
                (mkParticle 1 2 [200; 150; 100] 10) [5; 350] [3; -7]).
  { repeat split; try reflexivity. simpl. lia. }
  split; [exact H|].
  exact (update_bounds_forces _ _ _ _ _ _ _ 700 700 H).
Defined.




(** C1.  A particle that starts within [[size, limit - size]] on each axis
    is within these bounds after every call of every finite sequence of
    [Particle.update] and [Particle.apply_force] calls, whatever the applied
    forces, in an arena that has room for a reflected step of [FORCE_LIMIT]
    (as the 700 by 700 arena has for particles of size 10). *)
Theorem position_stays_in_bounds cs :
  forall w self p x0 x1 f0 f1 l0 l1,
    particle_at w self p [x0; x1] [f0; f1] ->
    Forall call_ok cs ->
    2 * Configuration.FORCE_LIMIT <= l0 - 2 * particle_size p ->
    2 * Configuration.FORCE_LIMIT <= l1 - 2 * particle_size p ->
    within (particle_size p) (l0 - particle_size p) x0 ->
    within (particle_size p) (l1 - particle_size p) x1 ->
    exists w' y0 y1,
      do_calls self [l0; l1] cs w = Some (tt, w') /\
      lists w' !! particle_position p = Some [y0; y1] /\
      within (particle_size p) (l0 - particle_size p) y0 /\
      within (particle_size p) (l1 - particle_size p) y1.
Proof.
  induction cs as [|c cs IH]; intros w self p x0 x1 f0 f1 l0 l1 H Hok R0 R1 B0 B1.
  - exists w, x0, x1. destruct H as (_ & Hx & _).
    split; [reflexivity|]. split; [exact Hx|]. split; assumption.
  - apply Forall_cons in Hok as [Hc Hok].
    unfold do_calls. cbn [foreach]. destruct c as [|force]; cbn [do_call].
    + pose proof (Particle_update_run _ _ _ _ _ _ _ l0 l1 H) as Hrun.
      rewrite (bind_run _ _ _ _ _ Hrun).
      eapply IH; eauto using particle_at_update, updated_position_within.
    + destruct force as [|a0 [|a1 [|]]]; try discriminate Hc.
      pose proof (Particle_apply_force_run _ _ _ _ _ _ _ a0 a1 l0 l1 H) as Hrun.
      rewrite (bind_run _ _ _ _ _ Hrun).
      eapply IH; eauto using particle_at_apply_force.
Qed.

Lemma position_stays_in_bounds_witness :
  particle_at (one_particle_world [11; 689] [3; -7]) 1%positive
    (mkParticle 1 2 [200; 150; 100] 10) [11; 689] [3; -7] /\
  Forall call_ok sample_calls /\
  2 * Configuration.FORCE_LIMIT <= 700 - 2 * 10 /\
  within 10 (700 - 10) 11 /\
  within 10 (700 - 10) 689 /\
  exists w' y0 y1,
    do_calls 1%positive [700; 700] sample_calls
      (one_particle_world [11; 689] [3; -7]) = Some (tt, w') /\
    lists w' !! 1%positive = Some [y0; y1] /\
    within 10 (700 - 10) y0 /\
    within 10 (700 - 10) y1.
Proof.
  assert (H : particle_at (one_particle_world [11; 689] [3; -7]) 1%positive
                (mkParticle 1 2 [200; 150; 100] 10) [11; 689] [3; -7]).
  { repeat split; try reflexivity. simpl. lia. }
  assert (Hok : Forall call_ok sample_calls) by (repeat constructor).
  assert (R : 2 * Configuration.FORCE_LIMIT <= 700 - 2 * 10) by (vm_compute; discriminate).
  assert (B0 : within 10 (700 - 10) 11) by (split; vm_compute; discriminate).
  assert (B1 : within 10 (700 - 10) 689) by (split; vm_compute; discriminate).
  repeat (split; [assumption|]).
  exact (position_stays_in_bounds sample_calls _ 1%positive _ _ _ _ _ 700 700
           H Hok R R B0 B1).
Defined.

(** C8, as the code has it.  [Particle.apply_force] adds the impulse to the
    stored force without clamping: afterwards the magnitude on each axis is
    at most the magnitude before plus that of the impulse, which may exceed
    [FORCE_LIMIT]; the next [Particle.update] brings it back to at most
    [FORCE_LIMIT]. *)
Theorem force_limit_restored_by_update w self p x0 x1 f0 f1 a0 a1 l0 l1 :
  particle_at w self p [x0; x1] [f0; f1] ->
  exists w1 g0 g1 w2 h0 h1,
    Particle.apply_force self [a0; a1] [l0; l1] w = Some (tt, w1) /\
    lists w1 !! particle_forces p = Some [g0; g1] /\
    Qabs g0 <= Qabs f0 + Qabs a0 /\
    Qabs g1 <= Qabs f1 + Qabs a1 /\
    Particle.update self [l0; l1] w1 = Some (tt, w2) /\
    lists w2 !! particle_forces p = Some [h0; h1] /\
    Qabs h0 <= Configuration.FORCE_LIMIT /\
    Qabs h1 <= Configuration.FORCE_LIMIT.
Proof.
  intros H.
  pose proof (Particle_apply_force_run _ _ _ _ _ _ _ a0 a1 l0 l1 H) as Hrun1.
  pose proof (particle_at_apply_force _ _ _ _ _ _ _ _ _ _ _ _ H Hrun1) as H1.
  pose proof (Particle_update_run _ _ _ _ _ _ _ l0 l1 H1) as Hrun2.
  pose proof (particle_at_update _ _ _ _ _ _ _ _ _ _ H1 Hrun2) as H2.
  eexists _, _, _, _, _, _.
  split; [exact Hrun1|]. split; [apply H1|].
  split; [apply impulsed_force_abs|]. split; [apply impulsed_force_abs|].
  split; [exact Hrun2|]. split; [apply H2|].
  split; apply updated_force_abs.
Qed.

Lemma force_limit_restored_by_update_witness :
  particle_at (one_particle_world [100; 100] [2; 0]) 1%positive
    (mkParticle 1 2 [200; 150; 100] 10) [100; 100] [2; 0] /\
  exists w1 g0 g1 w2 h0 h1,
    Particle.apply_force 1%positive [1 # 20; 0] [700; 700]
      (one_particle_world [100; 100] [2; 0]) = Some (tt, w1) /\
    lists w1 !! 2%positive = Some [g0; g1] /\
    Qabs g0 <= Qabs 2 + Qabs (1 # 20) /\
    Qabs g1 <= Qabs 0 + Qabs 0 /\
    Particle.update 1%positive [700; 700] w1 = Some (tt, w2) /\
    lists w2 !! 2%positive = Some [h0; h1] /\
    Qabs h0 <= Configuration.FORCE_LIMIT /\
    Qabs h1 <= Configuration.FORCE_LIMIT.
Proof.
  assert (H : particle_at (one_particle_world [100; 100] [2; 0]) 1%positive
                (mkParticle 1 2 [200; 150; 100] 10) [100; 100] [2; 0]).
  { repeat split; try reflexivity. simpl. lia. }
  split; [exact H|].
  exact (force_limit_restored_by_update _ _ _ _ _ _ _ (1 # 20) 0 700 700 H).
Defined.

(** * The graviton methods and the loop body *)

Lemma Graviton_draw_run w self g x y fx fy :
  graviton_at w self g [x; y] [fx; fy] ->
  Graviton.draw self w
  = Some (tt, set_screen
                (fun s => s ++ [mkCircle (graviton_color g) (py_int x) (py_int y)
                                         (graviton_size g)]) w).
Proof.
  intros (Hg & Hx & Hf & Hne). unfold Graviton.draw.
  do 3 mstep. reflexivity.
Qed.

Lemma Graviton_update_run w self g x y fx fy limits :
  graviton_at w self g [x; y] [fx; fy] ->
  Graviton.update self limits w
  = Some (tt, set_lists (insert (graviton_position g) [x + fx; y + fy]) w).
Proof.
  intros (Hg & Hx & Hf & Hne).
  unfold Graviton.update, range. cbn [seq foreach]. unfold Graviton.update_axis.
  do 4 mstep. do 4 mstep.
  rewrite ret_run. f_equal. f_equal. world_eq.
Qed.

Lemma graviton_age_run w self g :
  graviton_objs w !! self = Some g ->
  graviton_age self w = Some (tt, set_graviton_objs (insert self (aged g)) w).
Proof.
  intros Hg. unfold graviton_age. mstep.
  eapply graviton_write_run; eassumption.
Qed.

(** The first three statements of the loop body. *)
Lemma advance_run {A} (k : M A) w self g x y fx fy :
  graviton_at w self g [x; y] [fx; fy] ->
  (Graviton.draw self >> Graviton.update self resolution >> graviton_age self >> k) w
  = k (advanced w self g x y fx fy).
Proof.
  intros H. pose proof H as (Hg & Hx & Hf & Hne).
  rewrite (bind_run _ _ _ _ _ (Graviton_draw_run _ _ _ _ _ _ _ H)).
  erewrite bind_run; [|eapply Graviton_update_run; repeat split; eauto].
  erewrite bind_run; [|eapply graviton_age_run; lookup_tac].
  reflexivity.
Qed.

Lemma graviton_expired_run w self g x y :
  graviton_objs w !! self = Some g ->
  lists w !! graviton_position g = Some [x; y] ->
  graviton_expired self w = Some (expired (graviton_life g) x y, w).
Proof.
  intros Hg Hx. unfold graviton_expired, py_or, expired, resolution,
    Configuration.SCREEN_RESOLUTION.
  mstep. mstep. destruct (graviton_life g <=? 0)%Z; [reflexivity|].
  do 2 mstep. destruct (Qltb x 0); [reflexivity|].
  do 3 mstep. destruct (Qltb 700 x); [reflexivity|].
  do 2 mstep. destruct (Qltb y 0); [reflexivity|].
  do 2 mstep. reflexivity.
Qed.

Lemma expired_true life x y :
  expired life x y = true <->
  (life <= 0)%Z \/ x < 0 \/ 700 < x \/ y < 0 \/ 700 < y.
Proof.
  unfold expired. rewrite !orb_true_iff, !Qltb_true, Z.leb_le. tauto.
Qed.

Lemma expired_false life x y :
  expired life x y = false <->
  (0 < life)%Z /\ 0 <= x /\ x <= 700 /\ 0 <= y /\ y <= 700.
Proof.
  unfold expired. rewrite !orb_false_iff, !Qltb_false, Z.leb_gt. tauto.
Qed.

Lemma gravitons_remove_run w graviton gs :
  py_remove graviton (gravitons w) = Some gs ->
  gravitons_remove graviton w = Some (tt, set_gravitons (fun _ => gs) w).
Proof. intros H. unfold gravitons_remove. do 2 mstep. reflexivity. Qed.

(** ** Removing from a list *)

Lemma py_remove_elem g gs : g ∈ gs -> exists gs', py_remove g gs = Some gs'.
Proof.
  induction gs as [|y gs IH]; intros H.
  - inversion H.
  - cbn. destruct (decide (g = y)); [eauto|].
    apply elem_of_cons in H as [H|H]; [contradiction|].
    destruct (IH H) as [gs' ->]. eauto.
Qed.

Lemma py_remove_sub g gs gs' x :
  py_remove g gs = Some gs' -> x ∈ gs' -> x ∈ gs.
Proof.
  revert gs'. induction gs as [|y gs IH]; intros gs' H Hx; [discriminate|].
  cbn in H. destruct (decide (g = y)).
  - injection H as <-. now right.
  - destruct (py_remove g gs) as [r|]; [|discriminate].
    injection H as <-. apply elem_of_cons in Hx as [->|Hx]; [left|right; eauto].
Qed.

Lemma py_remove_keeps g gs gs' x :
  py_remove g gs = Some gs' -> x ∈ gs -> x <> g -> x ∈ gs'.
Proof.
  revert gs'. induction gs as [|y gs IH]; intros gs' H Hx Hne; [discriminate|].
  cbn in H. destruct (decide (g = y)).
  - injection H as <-. apply elem_of_cons in Hx as [->|Hx]; [congruence|exact Hx].
  - destruct (py_remove g gs) as [r|]; [|discriminate].
    injection H as <-. apply elem_of_cons in Hx as [->|Hx]; [left|right; eauto].
Qed.

Lemma py_remove_NoDup g gs gs' :
  py_remove g gs = Some gs' -> NoDup gs -> NoDup gs' /\ g ∉ gs'.
Proof.
  revert gs'. induction gs as [|y gs IH]; intros gs' H Hnd; [discriminate|].
  apply NoDup_cons in Hnd as [Hy Hnd].
  cbn in H. destruct (decide (g = y)).
  - injection H as <-. subst. auto.
  - destruct (py_remove g gs) as [r|] eqn:E; [|discriminate].
    injection H as <-. destruct (IH r eq_refl Hnd) as [Hr Hg].
    split.
    + apply NoDup_cons. split; [|assumption].
      intros Hin. apply Hy. eapply py_remove_sub; eauto.
    + intros Hin. apply elem_of_cons in Hin as [Hin|Hin]; [contradiction|auto].
Qed.

(** ** The collision loop *)

(** The creator is skipped without a look at any position. *)
Lemma collide_creator w graviton g :
  graviton_objs w !! graviton = Some g ->
  collide graviton (graviton_creator g) w = Some (false, w).
Proof.
  intros Hg. unfold collide. mstep.
  destruct (decide (graviton_creator g = graviton_creator g)); [reflexivity|congruence].
Qed.

Lemma collides_creator w graviton g :
  graviton_objs w !! graviton = Some g ->
  collides w graviton (graviton_creator g) = false.
Proof.
  intros Hg. unfold collides. rewrite Hg.
  destruct (particle_objs w !! graviton_creator g) as [p|]; [|reflexivity].
  destruct (lists w !! graviton_position g) as [[|gx [|gy [|]]]|]; try reflexivity.
  destruct (lists w !! particle_position p) as [[|px [|py [|]]]|]; try reflexivity.
  rewrite bool_decide_eq_true_2; reflexivity.
Qed.

Lemma collide_run w graviton g gx gy fx fy particle :
  graviton_at w graviton g [gx; gy] [fx; fy] ->
  position_readable w particle ->
  collide graviton particle w
  = if collides w graviton particle
    then (hit particle graviton fx fy >> ret true) w
    else Some (false, w).
Proof.
  intros (Hg & Hx & Hf & Hne) (p & px & py & Hp & Hpx).
  destruct (decide (particle = graviton_creator g)) as [->|Hc].
  - rewrite (collides_creator _ _ _ Hg). now apply collide_creator.
  - unfold collide, collides. rewrite Hg, Hp, Hx, Hpx.
    rewrite bool_decide_eq_false_2 by assumption. cbn [negb andb].
    mstep. destruct (decide (particle = graviton_creator g)); [contradiction|].
    do 5 mstep. unfold touches.
    destruct (hypot_lt (gx - px) (gy - py) (particle_size p + graviton_size g));
      [|reflexivity].
    do 2 mstep. unfold hit, impulse. massoc. reflexivity.
Qed.

(** The loop stops at the first particle that is hit, and does nothing
    before it. *)
Lemma collision_loop_run w graviton g gx gy fx fy ps :
  graviton_at w graviton g [gx; gy] [fx; fy] ->
  Forall (position_readable w) ps ->
  foreach_break ps (collide graviton) w
  = match first_hit w graviton ps with
    | Some particle => (hit particle graviton fx fy >> ret true) w
    | None => Some (false, w)
    end.
Proof.
  intros Hg Hps. induction Hps as [|p ps Hp Hps IH]; [reflexivity|].
  cbn [foreach_break first_hit List.find].
  unfold bind at 1. rewrite (collide_run _ _ _ _ _ _ _ _ Hg Hp).
  destruct (collides w graviton p).
  - unfold bind at 1. unfold bind at 1.
    destruct (hit p graviton fx fy w) as [[[] w1]|]; reflexivity.
  - exact IH.
Qed.

Lemma position_readable_advanced w self g x y fx fy particle :
  position_readable w particle ->
  position_readable (advanced w self g x y fx fy) particle.
Proof.
  intros (p & px & py & Hp & Hpx). unfold advanced.
  destruct (decide (particle_position p = graviton_position g)) as [E|E].
  - exists p, (x + fx), (y + fy). split; [lookup_tac|].
    wsimpl. rewrite E. apply lookup_insert_eq.
  - exists p, px, py. split; lookup_tac.
Qed.

Lemma graviton_at_advanced w self g x y fx fy :
  graviton_at w self g [x; y] [fx; fy] ->
  graviton_at (advanced w self g x y fx fy) self (aged g) [x + fx; y + fy] [fx; fy].
Proof.
  intros (Hg & Hx & Hf & Hne). unfold advanced, graviton_at.
  cbn [aged graviton_position graviton_forces].
  repeat split; try assumption; lookup_tac.
Qed.

(** The loop body up to the collision loop. *)
Lemma graviton_step_split w self g x y fx fy :
  graviton_at w self g [x; y] [fx; fy] ->
  graviton_step self w
  = if expired (graviton_life g - 1) (x + fx) (y + fy)
    then gravitons_remove self (advanced w self g x y fx fy)
    else (foreach_break (particles w) (collide self) >> ret tt)
           (advanced w self g x y fx fy).
Proof.
  intros H. unfold graviton_step.
  rewrite (advance_run _ _ _ _ _ _ _ _ H).
  pose proof (graviton_at_advanced _ _ _ _ _ _ _ H) as H1.
  erewrite bind_run; [|eapply graviton_expired_run; apply H1].
  cbn [aged graviton_life].
  destruct (expired (graviton_life g - 1) (x + fx) (y + fy)); [reflexivity|].
  mstep. reflexivity.
Qed.

(** The whole loop body, as a function of the world it starts in. *)
Lemma graviton_step_run w self g x y fx fy :
  graviton_at w self g [x; y] [fx; fy] ->
  Forall (position_readable w) (particles w) ->
  graviton_step self w
  = if expired (graviton_life g - 1) (x + fx) (y + fy)
    then gravitons_remove self (advanced w self g x y fx fy)
    else match first_hit (advanced w self g x y fx fy) self (particles w) with
         | Some particle => hit particle self fx fy (advanced w self g x y fx fy)
         | None => Some (tt, advanced w self g x y fx fy)
         end.
Proof.
  intros H Hps. rewrite (graviton_step_split _ _ _ _ _ _ _ H).
  destruct (expired (graviton_life g - 1) (x + fx) (y + fy)); [reflexivity|].
  pose proof (graviton_at_advanced _ _ _ _ _ _ _ H) as H1.
  set (w1 := advanced w self g x y fx fy) in *.
  unfold bind at 1.
  rewrite (collision_loop_run w1 self (aged g) (x + fx) (y + fy) fx fy).
  - destruct (first_hit w1 self (particles w)) as [p|]; [|reflexivity].
    unfold bind at 1. destruct (hit p self fx fy w1) as [[[] w2]|]; reflexivity.
  - exact H1.
  - eapply Forall_impl; [exact Hps|].
    intros p Hp. now apply position_readable_advanced.
Qed.

(** ** Expiry *)

Lemma py_remove_length g gs gs' :
  py_remove g gs = Some gs' -> S (length gs') = length gs.
Proof.
  revert gs'. induction gs as [|y gs IH]; intros gs' H; [discriminate|].
  cbn [py_remove] in H. destruct (decide (g = y)).
  - now injection H as <-.
  - destruct (py_remove g gs) as [r|]; [|discriminate].
    injection H as <-. cbn [length]. now rewrite (IH r eq_refl).
Qed.

(** C5.  In the graviton phase a graviton is removed with its collision
    check skipped exactly when, after its update and life decrement, its life
    is at most 0 or its position is strictly outside [[0, 700]] on an axis:
    then the loop body only draws, moves, ages and removes it, so that it is
    no longer in [gravitons] while every other graviton still is; otherwise
    the collision loop is run on the moved graviton.  A graviton on the
    border with life left is kept, and one at [[0, 0]] with forces
    [[-1, -1]] ends at [[-1, -1]] and is removed. *)
Theorem expiry_skips_collision_check w self g x y fx fy :
  graviton_at w self g [x; y] [fx; fy] ->
  self ∈ gravitons w ->
  NoDup (gravitons w) ->
  (((graviton_life g - 1 <= 0)%Z \/ x + fx < 0 \/ 700 < x + fx
     \/ y + fy < 0 \/ 700 < y + fy) ->
   exists gs,
     py_remove self (gravitons w) = Some gs /\
     graviton_step self w
     = Some (tt, set_gravitons (fun _ => gs) (advanced w self g x y fx fy)) /\
     (self ∉ gs) /\
     (forall h, h <> self -> (h ∈ gs <-> h ∈ gravitons w)) /\
     S (length gs) = length (gravitons w)) /\
  (~ ((graviton_life g - 1 <= 0)%Z \/ x + fx < 0 \/ 700 < x + fx
      \/ y + fy < 0 \/ 700 < y + fy) ->
   graviton_step self w
   = (foreach_break (particles w) (collide self) >> ret tt)
       (advanced w self g x y fx fy)) /\
  expired 1 0 700 = false /\
  (x = 0 -> y = 0 -> fx = -1 -> fy = -1 ->
   exists gs w',
     graviton_step self w = Some (tt, w') /\
     lists w' !! graviton_position g = Some [0 + -1; 0 + -1] /\
     gravitons w' = gs /\ py_remove self (gravitons w) = Some gs /\
     (self ∉ gravitons w') /\
     (forall h, h <> self -> (h ∈ gravitons w' <-> h ∈ gravitons w)) /\
     forall l, l <> graviton_position g -> lists w' !! l = lists w !! l).
Proof.
  intros H Hin Hnd.
  pose proof (graviton_step_split _ _ _ _ _ _ _ H) as Hstep.
  destruct (py_remove_elem _ _ Hin) as [gs Hgs].
  assert (Hrem : gravitons_remove self (advanced w self g x y fx fy)
                 = Some (tt, set_gravitons (fun _ => gs) (advanced w self g x y fx fy)))
    by now apply gravitons_remove_run.
  destruct (py_remove_NoDup _ _ _ Hgs Hnd) as [_ Hout].
  assert (Hothers : forall h, h <> self -> (h ∈ gs <-> h ∈ gravitons w)).
  { intros h Hh. split.
    - exact (py_remove_sub _ _ _ _ Hgs).
    - intros Hh'. exact (py_remove_keeps _ _ _ _ Hgs Hh' Hh). }
  split; [|split; [|split]].
  - intros Hc. apply expired_true in Hc. rewrite Hc in Hstep.
    exists gs. split; [assumption|]. split; [now rewrite Hstep|].
    split; [exact Hout|]. split; [exact Hothers|].
    exact (py_remove_length _ _ _ Hgs).
  - intros Hc. destruct (expired (graviton_life g - 1) (x + fx) (y + fy)) eqn:E.
    + apply expired_true in E. contradiction.
    + exact Hstep.
  - reflexivity.
  - intros -> -> -> ->.
    assert (E : expired (graviton_life g - 1) (0 + -1) (0 + -1) = true).
    { apply expired_true. right. left. reflexivity. }
    rewrite E, Hrem in Hstep.
    eexists _, _. split; [exact Hstep|].
    split; [unfold advanced; lookup_tac|].
    split; [reflexivity|]. split; [assumption|].
    split; [exact Hout|]. split; [exact Hothers|].
    intros l Hl. unfold advanced. wsimpl. now rewrite lookup_insert_ne.
Qed.

Lemma expiry_skips_collision_check_witness :
  graviton_at corner_world 1%positive (mkGraviton 1 5 6 [100; 75; 50] 1 50)
    [0; 0] [-1; -1] /\
  1%positive ∈ gravitons corner_world /\
  NoDup (gravitons corner_world) /\
  exists gs w',
    graviton_step 1%positive corner_world = Some (tt, w') /\
    lists w' !! 5%positive = Some [0 + -1; 0 + -1] /\
    gravitons w' = gs /\ py_remove 1%positive (gravitons corner_world) = Some gs /\
    (1%positive ∉ gravitons w') /\
    (forall h, h <> 1%positive -> (h ∈ gravitons w' <-> h ∈ gravitons corner_world)) /\
    forall l, l <> 5%positive -> lists w' !! l = lists corner_world !! l.
Proof.
  assert (H : graviton_at corner_world 1%positive
                (mkGraviton 1 5 6 [100; 75; 50] 1 50) [0; 0] [-1; -1]).
  { repeat split; try reflexivity. simpl. lia. }
  assert (Hin : 1%positive ∈ gravitons corner_world) by (simpl; left).
  assert (Hnd : NoDup (gravitons corner_world)) by apply NoDup_singleton.
  split; [exact H|]. split; [exact Hin|]. split; [exact Hnd|].
  exact (proj2 (proj2 (proj2 (expiry_skips_collision_check _ _ _ _ _ _ _ H Hin Hnd)))
           eq_refl eq_refl eq_refl eq_refl).
Defined.

(** ** The creator *)







(** The creator is recognised by identity: in [overlap_world] particle 2 has
    the attribute values of the creator and lies at the same place, and it is
    the one that is hit. *)
Example twin_of_creator_is_hit :
  first_hit overlap_world 1%positive (particles overlap_world) = Some 2%positive /\
  exists w',
    foreach_break (particles overlap_world) (collide 1%positive) overlap_world
    = Some (true, w') /\
    lists w' !! 2%positive = Some [0; 0] /\
    lists w' !! 4%positive = Some [- (3 # 100); - (4 # 100)] /\
    gravitons w' = [].
Proof.
  split; [reflexivity|].
  eexists. split; [vm_compute; reflexivity|].
  split; [reflexivity|]. split; reflexivity.
Qed.

(** ** Construction *)

(** Running [Graviton.__init__]: two fresh lists and a fresh object. *)
Lemma Graviton_init_run w creator c c0 c1 c2 position forces pv fv size life :
  particle_objs w !! creator = Some c ->
  particle_color c = [c0; c1; c2] ->
  lists w !! position = Some pv ->
  lists w !! forces = Some fv ->
  exists self lp lf,
    Graviton.init creator position forces size life w
    = Some (self,
        set_graviton_objs
          (insert self
             (mkGraviton creator lp lf
                [c0 * Configuration.GRAVITON_COLOR_MULTIPLIER;
                 c1 * Configuration.GRAVITON_COLOR_MULTIPLIER;
                 c2 * Configuration.GRAVITON_COLOR_MULTIPLIER] size life))
          (set_lists (insert lf fv) (set_lists (insert lp pv) w))) /\
    graviton_objs w !! self = None /\
    lists w !! lp = None /\
    lists w !! lf = None /\
    lp <> lf.
Proof.
  intros Hc Hcol Hp Hf.
  pose proof (fresh_lists_None w) as Hlp.
  pose proof (fresh_lists_None (set_lists (insert (fresh (dom (lists w))) pv) w)) as Hlf.
  exists (fresh (dom (graviton_objs w))), (fresh (dom (lists w))),
    (fresh (dom (lists (set_lists (insert (fresh (dom (lists w))) pv) w)))).
  split; [|split; [|split; [|split]]].
  - unfold Graviton.init.
    mstep.
    mrun ltac:(eapply list_copy_run; wsimpl;
               rewrite lookup_insert_ne by (symmetry; eapply fresh_lists_ne; eauto);
               exact Hf).
    mstep. rewrite Hcol. do 3 mstep. reflexivity.
  - apply not_elem_of_dom, is_fresh.
  - exact Hlp.
  - wsimpl. apply lookup_insert_None in Hlf. apply Hlf.
  - wsimpl. apply lookup_insert_None in Hlf. apply Hlf.
Qed.

(** Any series of calls on a particle only overwrites its two vectors. *)
Lemma do_calls_run cs :
  forall w self p x0 x1 f0 f1 l0 l1,
    particle_at w self p [x0; x1] [f0; f1] ->
    Forall call_ok cs ->
    exists y0 y1 g0 g1,
      do_calls self [l0; l1] cs w
      = Some (tt, set_lists (insert (particle_position p) [y0; y1])
                    (set_lists (insert (particle_forces p) [g0; g1]) w)).
Proof.
  induction cs as [|c cs IH]; intros w self p x0 x1 f0 f1 l0 l1 H Hok.
  - exists x0, x1, f0, f1. destruct H as (_ & Hx & Hf & Hne).
    rewrite (set_lists_same (particle_forces p)) by assumption.
    rewrite (set_lists_same (particle_position p)) by assumption.
    reflexivity.
  - apply Forall_cons in Hok as [Hc Hok].
    unfold do_calls. cbn [foreach]. destruct c as [|force]; cbn [do_call].
    + pose proof (Particle_update_run _ _ _ _ _ _ _ l0 l1 H) as Hrun.
      rewrite (bind_run _ _ _ _ _ Hrun).
      destruct (IH _ _ _ _ _ _ _ l0 l1 (particle_at_update _ _ _ _ _ _ _ _ _ _ H Hrun) Hok)
        as (y0 & y1 & g0 & g1 & E).
      exists y0, y1, g0, g1. unfold do_calls in E. rewrite E.
      f_equal. f_equal. world_eq.
    + destruct force as [|a0 [|a1 [|]]]; try discriminate Hc.
      pose proof (Particle_apply_force_run _ _ _ _ _ _ _ a0 a1 l0 l1 H) as Hrun.
      rewrite (bind_run _ _ _ _ _ Hrun).
      destruct (IH _ _ _ _ _ _ _ l0 l1
                  (particle_at_apply_force _ _ _ _ _ _ _ _ _ _ _ _ H Hrun) Hok)
        as (y0 & y1 & g0 & g1 & E).
      exists y0, y1, g0, g1. unfold do_calls in E. rewrite E.
      f_equal. f_equal. world_eq.
Qed.

(** C9.  The position and forces of a graviton are independent copies of the
    vectors handed to [Graviton.__init__]: they are new list objects with the
    values of the arguments, and whatever [Particle.update] and
    [Particle.apply_force] later do to the creator, whose own lists may have
    been the arguments, the graviton's position and forces keep the values
    they were built with. *)
Theorem graviton_vectors_are_copies w creator c x0 x1 f0 f1 c0 c1 c2
    position forces pv fv size life cs l0 l1 :
  particle_at w creator c [x0; x1] [f0; f1] ->
  particle_color c = [c0; c1; c2] ->
  lists w !! position = Some pv ->
  lists w !! forces = Some fv ->
  Forall call_ok cs ->
  exists self g w1 w2,
    Graviton.init creator position forces size life w = Some (self, w1) /\
    graviton_objs w1 !! self = Some g /\
    (graviton_position g ∉ dom (lists w)) /\
    (graviton_forces g ∉ dom (lists w)) /\
    graviton_position g <> graviton_forces g /\
    lists w1 !! graviton_position g = Some pv /\
    lists w1 !! graviton_forces g = Some fv /\
    do_calls creator [l0; l1] cs w1 = Some (tt, w2) /\
    graviton_objs w2 !! self = Some g /\
    lists w2 !! graviton_position g = Some pv /\
    lists w2 !! graviton_forces g = Some fv.
Proof.
  intros H Hcol Hp Hf Hok. pose proof H as (Hc & Hx & Hfr & Hne).
  destruct (Graviton_init_run _ _ _ _ _ _ _ _ _ _ size life Hc Hcol Hp Hf)
    as (self & lp & lf & Hinit & Hself & Hlp & Hlf & Hlfp).
  assert (Hxp : particle_position c <> lp) by congruence.
  assert (Hxf : particle_position c <> lf) by congruence.
  assert (Hfp : particle_forces c <> lp) by congruence.
  assert (Hff : particle_forces c <> lf) by congruence.
  match type of Hinit with _ = Some (_, ?W) => set (w1 := W) in * end.
  assert (H1 : particle_at w1 creator c [x0; x1] [f0; f1]).
  { subst w1. repeat split; try assumption; lookup_tac. }
  destruct (do_calls_run cs _ _ _ _ _ _ _ l0 l1 H1 Hok) as (y0 & y1 & g0 & g1 & Hcalls).
  eexists self, _, w1, _.
  split; [exact Hinit|].
  split; [subst w1; lookup_tac|]. cbn [graviton_position graviton_forces].
  split; [now apply not_elem_of_dom|]. split; [now apply not_elem_of_dom|].
  split; [congruence|].
  split; [subst w1; lookup_tac|]. split; [subst w1; lookup_tac|].
  split; [exact Hcalls|].
  split; [subst w1; lookup_tac|].
  split; subst w1; lookup_tac.
Qed.

Lemma graviton_vectors_are_copies_witness :
  particle_at (one_particle_world [11; 689] [3; -7]) 1%positive
    (mkParticle 1 2 [200; 150; 100] 10) [11; 689] [3; -7] /\
  Forall call_ok sample_calls /\
  exists self g w1 w2,
    Graviton.init 1%positive 1%positive 2%positive 1 100
      (one_particle_world [11; 689] [3; -7]) = Some (self, w1) /\
    graviton_objs w1 !! self = Some g /\
    (graviton_position g ∉ dom (lists (one_particle_world [11; 689] [3; -7]))) /\
    (graviton_forces g ∉ dom (lists (one_particle_world [11; 689] [3; -7]))) /\
    graviton_position g <> graviton_forces g /\
    lists w1 !! graviton_position g = Some [11; 689] /\
    lists w1 !! graviton_forces g = Some [3; -7] /\
    do_calls 1%positive [700; 700] sample_calls w1 = Some (tt, w2) /\
    graviton_objs w2 !! self = Some g /\
    lists w2 !! graviton_position g = Some [11; 689] /\
    lists w2 !! graviton_forces g = Some [3; -7].
Proof.
  assert (H : particle_at (one_particle_world [11; 689] [3; -7]) 1%positive
                (mkParticle 1 2 [200; 150; 100] 10) [11; 689] [3; -7]).
  { repeat split; try reflexivity. simpl. lia. }
  assert (Hok : Forall call_ok sample_calls) by (repeat constructor).
  split; [exact H|]. split; [exact Hok|].
  exact (graviton_vectors_are_copies _ _ _ _ _ _ _ _ _ _ 1%positive 2%positive
           _ _ 1 100%Z sample_calls 700 700 H eq_refl eq_refl eq_refl Hok).
Defined.

(** * Well-formed worlds *)

Lemma owned_allocated w o s l :
  well_formed w -> active w o -> owned w o s = Some l -> vector_at w l.
Proof.
  intros Hwf Ha Ho. destruct o as [p|g].
  - destruct (wf_particles w Hwf p Ha) as (po & Hp & Hx & Hf & _).
    destruct s; cbn in Ho; rewrite Hp in Ho; injection Ho as <-; assumption.
  - destruct (wf_gravitons w Hwf g Ha) as (go & Hg & Hx & Hf).
    destruct s; cbn in Ho; rewrite Hg in Ho; injection Ho as <-; assumption.
Qed.

Lemma owned_ne w o1 s1 o2 s2 l1 l2 :
  well_formed w -> active w o1 -> active w o2 ->
  owned w o1 s1 = Some l1 -> owned w o2 s2 = Some l2 ->
  (o1 = o2 -> s1 = s2 -> False) -> l1 <> l2.
Proof.
  intros Hwf A1 A2 O1 O2 Hne E. subst l2.
  destruct (wf_separate w Hwf o1 s1 o2 s2 l1 A1 A2 O1 O2). auto.
Qed.

Lemma wf_particle_at w p :
  well_formed w -> p ∈ particles w ->
  exists po x0 x1 f0 f1 c0 c1 c2,
    particle_at w p po [x0; x1] [f0; f1] /\ particle_color po = [c0; c1; c2].
Proof.
  intros Hwf Hin.
  destruct (wf_particles w Hwf p Hin) as (po & Hp & (x0 & x1 & Hx) & (f0 & f1 & Hf) & Hc).
  destruct (particle_color po) as [|c0 [|c1 [|c2 [|]]]] eqn:E; try discriminate Hc.
  exists po, x0, x1, f0, f1, c0, c1, c2. split; [|exact E].
  repeat split; try assumption.
  apply (owned_ne w (OfParticle p) Position (OfParticle p) Forces); try assumption.
  - cbn. now rewrite Hp.
  - cbn. now rewrite Hp.
  - discriminate.
Qed.

Lemma wf_graviton_at w g :
  well_formed w -> g ∈ gravitons w ->
  exists go x y fx fy, graviton_at w g go [x; y] [fx; fy].
Proof.
  intros Hwf Hin.
  destruct (wf_gravitons w Hwf g Hin) as (go & Hg & (x & y & Hx) & (fx & fy & Hf)).
  exists go, x, y, fx, fy.
  repeat split; try assumption.
  apply (owned_ne w (OfGraviton g) Position (OfGraviton g) Forces); try assumption.
  - cbn. now rewrite Hg.
  - cbn. now rewrite Hg.
  - discriminate.
Qed.

Lemma wf_position_readable w :
  well_formed w -> Forall (position_readable w) (particles w).
Proof.
  intros Hwf. apply Forall_forall. intros p Hin.
  destruct (wf_particles w Hwf p Hin) as (po & Hp & (x0 & x1 & Hx) & _).
  now exists po, x0, x1.
Qed.

(** The lists of a graviton are not those of a particle. *)
Lemma wf_graviton_particle w g go p po :
  well_formed w -> g ∈ gravitons w -> p ∈ particles w ->
  graviton_objs w !! g = Some go -> particle_objs w !! p = Some po ->
  graviton_position go <> particle_position po /\
  graviton_position go <> particle_forces po /\
  graviton_forces go <> particle_position po /\
  graviton_forces go <> particle_forces po.
Proof.
  intros Hwf Hg Hp Ego Epo.
  repeat split.
  - apply (owned_ne w (OfGraviton g) Position (OfParticle p) Position);
      try assumption; cbn; rewrite ?Ego, ?Epo; try reflexivity; discriminate.
  - apply (owned_ne w (OfGraviton g) Position (OfParticle p) Forces);
      try assumption; cbn; rewrite ?Ego, ?Epo; try reflexivity; discriminate.
  - apply (owned_ne w (OfGraviton g) Forces (OfParticle p) Position);
      try assumption; cbn; rewrite ?Ego, ?Epo; try reflexivity; discriminate.
  - apply (owned_ne w (OfGraviton g) Forces (OfParticle p) Forces);
      try assumption; cbn; rewrite ?Ego, ?Epo; try reflexivity; discriminate.
Qed.

(** The lists of two gravitons are distinct. *)
Lemma wf_graviton_graviton w g go g' go' :
  well_formed w -> g ∈ gravitons w -> g' ∈ gravitons w -> g <> g' ->
  graviton_objs w !! g = Some go -> graviton_objs w !! g' = Some go' ->
  graviton_position go <> graviton_position go' /\
  graviton_position go <> graviton_forces go' /\
  graviton_forces go <> graviton_position go' /\
  graviton_forces go <> graviton_forces go'.
Proof.
  intros Hwf Hg Hg' Hne Ego Ego'.
  repeat split.
  - apply (owned_ne w (OfGraviton g) Position (OfGraviton g') Position);
      try assumption; cbn; rewrite ?Ego, ?Ego'; try reflexivity; congruence.
  - apply (owned_ne w (OfGraviton g) Position (OfGraviton g') Forces);
      try assumption; cbn; rewrite ?Ego, ?Ego'; try reflexivity; congruence.
  - apply (owned_ne w (OfGraviton g) Forces (OfGraviton g') Position);
      try assumption; cbn; rewrite ?Ego, ?Ego'; try reflexivity; congruence.
  - apply (owned_ne w (OfGraviton g) Forces (OfGraviton g') Forces);
      try assumption; cbn; rewrite ?Ego, ?Ego'; try reflexivity; congruence.
Qed.

(** The lists of two particles are distinct. *)
Lemma wf_particle_particle w p po p' po' :
  well_formed w -> p ∈ particles w -> p' ∈ particles w -> p <> p' ->
  particle_objs w !! p = Some po -> particle_objs w !! p' = Some po' ->
  particle_position po <> particle_position po' /\
  particle_position po <> particle_forces po' /\
  particle_forces po <> particle_position po' /\
  particle_forces po <> particle_forces po'.
Proof.
  intros Hwf Hp Hp' Hne Epo Epo'.
  repeat split.
  - apply (owned_ne w (OfParticle p) Position (OfParticle p') Position);
      try assumption; cbn; rewrite ?Epo, ?Epo'; try reflexivity; congruence.
  - apply (owned_ne w (OfParticle p) Position (OfParticle p') Forces);
      try assumption; cbn; rewrite ?Epo, ?Epo'; try reflexivity; congruence.
  - apply (owned_ne w (OfParticle p) Forces (OfParticle p') Position);
      try assumption; cbn; rewrite ?Epo, ?Epo'; try reflexivity; congruence.
  - apply (owned_ne w (OfParticle p) Forces (OfParticle p') Forces);
      try assumption; cbn; rewrite ?Epo, ?Epo'; try reflexivity; congruence.
Qed.

(** ** Steps that keep a world well formed *)

(** Nothing is added: objects keep their lists, vectors stay vectors, and
    gravitons may leave the active list. *)
Lemma wf_transfer w w' :
  well_formed w ->
  particles w' = particles w ->
  particle_objs w' = particle_objs w ->
  (forall g, g ∈ gravitons w' -> g ∈ gravitons w) ->
  NoDup (gravitons w') ->
  (forall g go, g ∈ gravitons w -> graviton_objs w !! g = Some go ->
     exists go', graviton_objs w' !! g = Some go' /\
                 graviton_position go' = graviton_position go /\
                 graviton_forces go' = graviton_forces go) ->
  (forall l, vector_at w l -> vector_at w' l) ->
  well_formed w'.
Proof.
  intros Hwf Hps Hpo Hgs Hnd Hgo Hvec.
  assert (Hown : forall o s l, active w' o -> owned w' o s = Some l ->
                               active w o /\ owned w o s = Some l).
  { intros [p|g] s l Ha Ho; cbn in Ha.
    - rewrite Hps in Ha. split; [exact Ha|].
      destruct s; cbn in *; now rewrite Hpo in Ho.
    - apply Hgs in Ha. split; [exact Ha|].
      destruct (wf_gravitons w Hwf g Ha) as (go & Ego & _).
      destruct (Hgo g go Ha Ego) as (go' & Ego' & Ex & Ef).
      destruct s; cbn in *; rewrite Ego' in Ho; rewrite Ego; cbn in *; congruence. }
  split.
  - intros p Hin. rewrite Hps in Hin.
    destruct (wf_particles w Hwf p Hin) as (po & Hp & Hx & Hf & Hc).
    exists po. rewrite Hpo. auto.
  - intros g Hin. apply Hgs in Hin.
    destruct (wf_gravitons w Hwf g Hin) as (go & Ego & Hx & Hf).
    destruct (Hgo g go Hin Ego) as (go' & Ego' & Ex & Ef).
    exists go'. rewrite Ex, Ef. auto.
  - exact Hnd.
  - intros o1 s1 o2 s2 l A1 A2 O1 O2.
    destruct (Hown _ _ _ A1 O1), (Hown _ _ _ A2 O2).
    eapply (wf_separate w Hwf); eauto.
Qed.

(** A graviton with two fresh vectors joins the active list. *)
Lemma wf_append w w' g go :
  well_formed w ->
  particles w' = particles w ->
  particle_objs w' = particle_objs w ->
  gravitons w' = gravitons w ++ [g] ->
  graviton_objs w !! g = None ->
  graviton_objs w' !! g = Some go ->
  (forall g0 go0, graviton_objs w !! g0 = Some go0 -> graviton_objs w' !! g0 = Some go0) ->
  (forall l, vector_at w l -> vector_at w' l) ->
  lists w !! graviton_position go = None ->
  lists w !! graviton_forces go = None ->
  graviton_position go <> graviton_forces go ->
  vector_at w' (graviton_position go) ->
  vector_at w' (graviton_forces go) ->
  well_formed w'.
Proof.
  intros Hwf Hps Hpo Hgs Hnew Hgo Hold Hvec Hxn Hfn Hne Hx Hf.
  assert (Hnotin : g ∉ gravitons w).
  { intros Hin. destruct (wf_gravitons w Hwf g Hin) as (go0 & E & _). congruence. }
  assert (Hown : forall o s l, active w' o -> owned w' o s = Some l ->
            (active w o /\ owned w o s = Some l) \/
            (o = OfGraviton g /\
             l = match s with Position => graviton_position go
                            | Forces => graviton_forces go end)).
  { intros [p|g0] s l Ha Ho; cbn in Ha.
    - left. rewrite Hps in Ha. split; [exact Ha|].
      destruct s; cbn in *; now rewrite Hpo in Ho.
    - rewrite Hgs in Ha. apply elem_of_app in Ha as [Ha|Ha].
      + left. split; [exact Ha|].
        destruct (wf_gravitons w Hwf g0 Ha) as (go0 & Ego & _).
        pose proof (Hold _ _ Ego) as Ego'.
        destruct s; cbn in *; rewrite Ego' in Ho; rewrite Ego; exact Ho.
      + apply list_elem_of_singleton in Ha. subst g0. right. split; [reflexivity|].
        destruct s; cbn in Ho; rewrite Hgo in Ho; cbn in Ho; congruence. }
  assert (Hfresh : forall o s l, active w o -> owned w o s = Some l ->
            l <> graviton_position go /\ l <> graviton_forces go).
  { intros o s l Ha Ho.
    destruct (owned_allocated w o s l Hwf Ha Ho) as (a & b & E).
    split; congruence. }
  split.
  - intros p Hin. rewrite Hps in Hin.
    destruct (wf_particles w Hwf p Hin) as (po & Hp & Hx' & Hf' & Hc).
    exists po. rewrite Hpo. auto.
  - intros g0 Hin. rewrite Hgs in Hin. apply elem_of_app in Hin as [Hin|Hin].
    + destruct (wf_gravitons w Hwf g0 Hin) as (go0 & Ego & Hx' & Hf').
      exists go0. auto.
    + apply list_elem_of_singleton in Hin. subst g0. exists go. auto.
  - rewrite Hgs. apply NoDup_app. split; [apply (wf_nodup w Hwf)|].
    split; [|apply NoDup_singleton].
    intros x Hx' Hin. apply list_elem_of_singleton in Hin. congruence.
  - intros o1 s1 o2 s2 l A1 A2 O1 O2.
    destruct (Hown _ _ _ A1 O1) as [[A1' O1']|[-> E1]],
             (Hown _ _ _ A2 O2) as [[A2' O2']|[-> E2]].
    + eapply (wf_separate w Hwf); eauto.
    + destruct (Hfresh _ _ _ A1' O1'). destruct s2; congruence.
    + destruct (Hfresh _ _ _ A2' O2'). destruct s1; congruence.
    + split; [reflexivity|]. destruct s1, s2; congruence.
Qed.

(** * The particle phase of a frame *)

Lemma preserves_refl w : preserves w w.
Proof. split; auto. Qed.

Lemma preserves_trans w1 w2 w3 : preserves w1 w2 -> preserves w2 w3 -> preserves w1 w3.
Proof.
  intros [A1 A2 A3 A4 A5] [B1 B2 B3 B4 B5]. split; try congruence; auto.
Qed.

Lemma preserves_vector w w' l : preserves w w' -> vector_at w l -> vector_at w' l.
Proof. intros H (a & b & E). exists a, b. now apply (pre_lists _ _ H). Qed.

Lemma preserves_particle_at w w' p po pos frc :
  preserves w w' -> particle_at w p po pos frc -> particle_at w' p po pos frc.
Proof.
  intros H (Hp & Hx & Hf & Hne). repeat split; try assumption.
  - now rewrite (pre_particle_objs _ _ H).
  - now apply (pre_lists _ _ H).
  - now apply (pre_lists _ _ H).
Qed.

Lemma preserves_graviton_at w w' g go pos frc :
  preserves w w' -> graviton_at w g go pos frc -> graviton_at w' g go pos frc.
Proof.
  intros H (Hg & Hx & Hf & Hne). repeat split; try assumption.
  - now apply (pre_graviton_objs _ _ H).
  - now apply (pre_lists _ _ H).
  - now apply (pre_lists _ _ H).
Qed.

Lemma preserves_None_lists w w' l : preserves w w' -> lists w' !! l = None -> lists w !! l = None.
Proof.
  intros H E. destruct (lists w !! l) as [v|] eqn:E'; [|reflexivity].
  apply (pre_lists _ _ H) in E'. congruence.
Qed.

Lemma preserves_None_gravitons w w' g :
  preserves w w' -> graviton_objs w' !! g = None -> graviton_objs w !! g = None.
Proof.
  intros H E. destruct (graviton_objs w !! g) as [v|] eqn:E'; [|reflexivity].
  apply (pre_graviton_objs _ _ H) in E'. congruence.
Qed.

(** One graviton is spawned: four lists and one object are allocated, two
    random numbers are drawn, the graviton joins the active list. *)
Lemma spawn_graviton_spec w p po x0 x1 f0 f1 :
  well_formed w ->
  p ∈ particles w ->
  particle_at w p po [x0; x1] [f0; f1] ->
  exists g w',
    spawn_graviton p w = Some (tt, w') /\
    well_formed w' /\
    preserves w w' /\
    gravitons w' = gravitons w ++ [g] /\
    screen w' = screen w /\
    spawned_by w w' p x0 x1 f0 f1 g.
Proof.
  intros Hwf Hin H. pose proof H as (Hp & Hx & Hf & Hne).
  destruct (wf_particles w Hwf p Hin) as (po' & Hp' & _ & _ & Hc).
  assert (po' = po) by congruence. subst po'.
  destruct (particle_color po) as [|c0 [|c1 [|c2 [|]]]] eqn:Ecol; try discriminate Hc.
  set (fv := [f0 + (rng_random w (rng_pos w) - (1 # 2))
                   * Configuration.GRAVITON_FORCE_ADDITION_RANGE;
              f1 + (rng_random w (S (rng_pos w)) - (1 # 2))
                   * Configuration.GRAVITON_FORCE_ADDITION_RANGE]).
  pose proof (fresh_lists_None w) as Ht1.
  set (t1 := fresh (dom (lists w))) in *.
  set (w3 := set_rng_pos S (set_rng_pos S (set_lists (insert t1 [x0; x1]) w))).
  pose proof (fresh_lists_None w3) as Ht2.
  set (t2 := fresh (dom (lists w3))) in *.
  set (w4 := set_lists (insert t2 fv) w3).
  subst w3. wsimpl. apply lookup_insert_None in Ht2 as [Ht2 Ht12].
  assert (Hx1 : t1 <> particle_position po) by congruence.
  assert (Hf1 : t1 <> particle_forces po) by congruence.
  assert (Hx2 : t2 <> particle_position po) by congruence.
  assert (Hf2 : t2 <> particle_forces po) by congruence.
  assert (Hp4 : particle_objs w4 !! p = Some po) by (subst w4; lookup_tac).
  assert (Ha4 : lists w4 !! t1 = Some [x0; x1]) by (subst w4; lookup_tac).
  assert (Hb4 : lists w4 !! t2 = Some fv) by (subst w4; lookup_tac).
  destruct (Graviton_init_run w4 p po c0 c1 c2 t1 t2 _ _
              Configuration.GRAVITON_SIZE Configuration.GRAVITON_LIFE Hp4 Ecol Ha4 Hb4)
    as (g & lp & lf & Hinit & Hg & Hlp & Hlf & Hlpf).
  subst w4. wsimpl.
  apply lookup_insert_None in Hlp as [Hlp Hlp2].
  apply lookup_insert_None in Hlp as [Hlp Hlp1].
  apply lookup_insert_None in Hlf as [Hlf Hlf2].
  apply lookup_insert_None in Hlf as [Hlf Hlf1].
  match type of Hinit with _ = Some (_, ?W) => set (w5 := W) in * end.
  set (w6 := set_gravitons (fun gs => gs ++ [g]) w5).
  assert (Hrun : spawn_graviton p w = Some (tt, w6)).
  { unfold spawn_graviton. do 6 mstep.
    mrun ltac:(apply list_alloc_run).
    mrun ltac:(exact Hinit).
    reflexivity. }
  assert (Hpre : preserves w w6).
  { split; try reflexivity.
    - intros l v E. subst w6 w5. wsimpl.
      rewrite !lookup_insert_ne by congruence. exact E.
    - intros g0 go0 E. subst w6 w5. wsimpl.
      rewrite lookup_insert_ne by congruence. exact E. }
  set (go := mkGraviton p lp lf
               [c0 * Configuration.GRAVITON_COLOR_MULTIPLIER;
                c1 * Configuration.GRAVITON_COLOR_MULTIPLIER;
                c2 * Configuration.GRAVITON_COLOR_MULTIPLIER]
               Configuration.GRAVITON_SIZE Configuration.GRAVITON_LIFE) in *.
  assert (Hat : graviton_at w6 g go [x0; x1] fv).
  { subst w6 w5. unfold graviton_at. cbn [go graviton_position graviton_forces].
    repeat split; try assumption; lookup_tac. }
  exists g, w6. split; [exact Hrun|].
  split.
  { destruct Hat as (Eg & Ex & Ef & Ene).
    apply (wf_append w w6 g go Hwf eq_refl eq_refl eq_refl Hg Eg
             (pre_graviton_objs _ _ Hpre)
             (fun l => preserves_vector _ _ l Hpre) Hlp Hlf Ene).
    - exists x0, x1. exact Ex.
    - unfold vector_at. eexists _, _. exact Ef. }
  split; [exact Hpre|]. split; [reflexivity|]. split; [reflexivity|].
  split; [exact Hg|].
  eexists _, _, _, (rng_pos w). split; [exact Hat|].
  cbn [graviton_creator graviton_size graviton_life graviton_position graviton_forces].
  repeat split; assumption || reflexivity.
Qed.

Lemma spawned_by_later w0 w1 w2 p x0 x1 f0 f1 g :
  spawned_by w0 w1 p x0 x1 f0 f1 g -> preserves w1 w2 ->
  spawned_by w0 w2 p x0 x1 f0 f1 g.
Proof.
  intros (Hnew & go & fx & fy & k & Hat & Rest) Hpre.
  split; [exact Hnew|]. exists go, fx, fy, k.
  split; [|exact Rest]. eapply preserves_graviton_at; eauto.
Qed.

Lemma spawned_by_earlier w0 w1 w2 p x0 x1 f0 f1 g :
  preserves w0 w1 -> spawned_by w1 w2 p x0 x1 f0 f1 g ->
  spawned_by w0 w2 p x0 x1 f0 f1 g.
Proof.
  intros Hpre (Hnew & go & fx & fy & k & Hat & Hc & Hs & Hl & Hx & Hf & Efx & Efy).
  split; [eapply preserves_None_gravitons; eauto|].
  exists go, fx, fy, k. rewrite <- (pre_rng _ _ Hpre).
  repeat split; try assumption; try apply Hat;
    eapply preserves_None_lists; eauto.
Qed.

(** The loop [for _ in range(GRAVITON_CREATION_COUNT)], for any number of
    rounds. *)
Lemma spawn_loop_spec {A} (xs : list A) :
  forall w p po x0 x1 f0 f1,
    well_formed w ->
    p ∈ particles w ->
    particle_at w p po [x0; x1] [f0; f1] ->
    exists news w',
      foreach xs (fun _ => spawn_graviton p) w = Some (tt, w') /\
      well_formed w' /\
      preserves w w' /\
      gravitons w' = gravitons w ++ news /\
      length news = length xs /\
      screen w' = screen w /\
      Forall (spawned_by w w' p x0 x1 f0 f1) news.
Proof.
  induction xs as [|x xs IH]; intros w p po x0 x1 f0 f1 Hwf Hin H.
  - exists [], w. rewrite app_nil_r.
    split; [reflexivity|]. split; [exact Hwf|]. split; [apply preserves_refl|].
    split; [reflexivity|]. split; [reflexivity|]. split; [reflexivity|].
    constructor.
  - destruct (spawn_graviton_spec w p po x0 x1 f0 f1 Hwf Hin H)
      as (g & w1 & Hrun & Hwf1 & Hpre1 & Hgs1 & Hsc1 & Hsp1).
    assert (Hin1 : p ∈ particles w1) by now rewrite (pre_particles _ _ Hpre1).
    destruct (IH w1 p po x0 x1 f0 f1 Hwf1 Hin1 (preserves_particle_at _ _ _ _ _ _ Hpre1 H))
      as (news & w' & Hrun' & Hwf' & Hpre' & Hgs' & Hlen & Hsc' & Hsp').
    exists (g :: news), w'. cbn [foreach length].
    rewrite (bind_run _ _ _ _ _ Hrun).
    split; [exact Hrun'|]. split; [exact Hwf'|].
    split; [eapply preserves_trans; eauto|].
    split; [rewrite Hgs', Hgs1, <- app_assoc; reflexivity|].
    split; [now rewrite Hlen|]. split; [congruence|].
    constructor.
    + eapply spawned_by_later; eauto.
    + eapply Forall_impl; [exact Hsp'|]. intros g0 Hg0.
      eapply spawned_by_earlier; eauto.
Qed.

(** The circle a particle is drawn as. *)
Lemma Particle_draw_run w p po x0 x1 f0 f1 :
  particle_at w p po [x0; x1] [f0; f1] ->
  Particle.draw p w
  = Some (tt, set_screen
                (fun s => s ++ [mkCircle (particle_color po) (py_int x0) (py_int x1)
                                         (particle_size po)]) w).
Proof.
  intros (Hp & Hx & Hf & Hne). unfold Particle.draw. do 3 mstep. reflexivity.
Qed.

Lemma particle_move_run {A} (k : M A) w p po x0 x1 f0 f1 :
  particle_at w p po [x0; x1] [f0; f1] ->
  (Particle.draw p >> Particle.update p resolution >> k) w
  = k (moved w po x0 x1 f0 f1).
Proof.
  intros H. pose proof H as (Hp & Hx & Hf & Hne).
  rewrite (bind_run _ _ _ _ _ (Particle_draw_run _ _ _ _ _ _ _ H)).
  unfold resolution, Configuration.SCREEN_RESOLUTION.
  erewrite bind_run; [|eapply Particle_update_run; repeat split; eauto].
  reflexivity.
Qed.

Lemma particle_at_moved w p po x0 x1 f0 f1 :
  particle_at w p po [x0; x1] [f0; f1] ->
  particle_at (moved w po x0 x1 f0 f1) p po
    [updated_position (particle_size po) 700 x0 f0;
     updated_position (particle_size po) 700 x1 f1]
    [updated_force (particle_size po) 700 x0 f0;
     updated_force (particle_size po) 700 x1 f1].
Proof.
  intros (Hp & Hx & Hf & Hne). unfold moved.
  repeat split; try assumption; lookup_tac.
Qed.

Lemma vector_at_insert w l a b l' :
  vector_at w l' -> vector_at (set_lists (insert l [a; b]) w) l'.
Proof.
  intros (a' & b' & E). unfold vector_at. wsimpl.
  destruct (decide (l = l')) as [->|Hne].
  - exists a, b. apply lookup_insert_eq.
  - exists a', b'. now rewrite lookup_insert_ne.
Qed.

Lemma wf_moved w po x0 x1 f0 f1 :
  well_formed w -> well_formed (moved w po x0 x1 f0 f1).
Proof.
  intros Hwf. apply (wf_transfer w); try reflexivity; auto.
  - apply (wf_nodup w Hwf).
  - intros g go _ Hg. exists go. auto.
  - intros l Hl. unfold moved. do 2 apply vector_at_insert. exact Hl.
Qed.

(** The body of the first loop of a frame. *)
Lemma particle_step_spec w p po x0 x1 f0 f1 :
  well_formed w ->
  p ∈ particles w ->
  particle_at w p po [x0; x1] [f0; f1] ->
  exists news w',
    particle_step p w = Some (tt, w') /\
    well_formed w' /\
    preserves (moved w po x0 x1 f0 f1) w' /\
    gravitons w' = gravitons w ++ news /\
    length news = Configuration.GRAVITON_CREATION_COUNT /\
    screen w' = screen w ++ [mkCircle (particle_color po) (py_int x0) (py_int x1)
                                      (particle_size po)] /\
    Forall (spawned_by (moved w po x0 x1 f0 f1) w' p
              (updated_position (particle_size po) 700 x0 f0)
              (updated_position (particle_size po) 700 x1 f1)
              (updated_force (particle_size po) 700 x0 f0)
              (updated_force (particle_size po) 700 x1 f1)) news.
Proof.
  intros Hwf Hin H. unfold particle_step.
  rewrite (particle_move_run _ _ _ _ _ _ _ _ H).
  destruct (spawn_loop_spec (range Configuration.GRAVITON_CREATION_COUNT)
              (moved w po x0 x1 f0 f1) p po _ _ _ _
              (wf_moved _ _ _ _ _ _ Hwf) Hin (particle_at_moved _ _ _ _ _ _ _ H))
    as (news & w' & Hrun & Hwf' & Hpre & Hgs & Hlen & Hsc & Hsp).
  exists news, w'. split; [exact Hrun|]. split; [exact Hwf'|].
  split; [exact Hpre|]. split; [exact Hgs|].
  split; [rewrite Hlen; unfold range; apply length_seq|].
  split; [exact Hsc|]. exact Hsp.
Qed.

(** A round of the particle loop keeps the particles inside the arena. *)
Lemma particle_step_in_arena w p po x0 x1 f0 f1 w' :
  well_formed w ->
  p ∈ particles w ->
  particle_at w p po [x0; x1] [f0; f1] ->
  preserves (moved w po x0 x1 f0 f1) w' ->
  in_arena w ->
  in_arena w'.
Proof.
  intros Hwf Hin Hat Hpre Har q Hq.
  rewrite (pre_particles _ _ Hpre) in Hq. change (q ∈ particles w) in Hq.
  destruct (Har q Hq) as (qo & y0 & y1 & Eq & Ey & Esize & B0 & B1).
  pose proof Hat as (Ep & Ex & Ef & Hne).
  destruct (decide (q = p)) as [->|Hqp].
  - assert (qo = po) by congruence. subst qo.
    assert (y0 = x0 /\ y1 = x1) as [-> ->] by (rewrite Ex in Ey; now injection Ey).
    pose proof (particle_at_moved _ _ _ _ _ _ _ Hat) as Hm.
    apply (preserves_particle_at _ _ _ _ _ _ Hpre) in Hm.
    destruct Hm as (Ep' & Ex' & _).
    eexists po, _, _. split; [exact Ep'|]. split; [exact Ex'|].
    split; [exact Esize|]. rewrite Esize.
    split; apply updated_position_within; try assumption;
      unfold Configuration.FORCE_LIMIT, Configuration.PARTICLE_SIZE; lra.
  - destruct (wf_particle_particle w q qo p po Hwf Hq Hin Hqp Eq Ep)
      as (S1 & S2 & _ & _).
    exists qo, y0, y1.
    split; [rewrite (pre_particle_objs _ _ Hpre); exact Eq|].
    split; [|auto].
    apply (pre_lists _ _ Hpre). unfold moved. wsimpl.
    rewrite !lookup_insert_ne by congruence. exact Ey.
Qed.

(** The first loop of a frame, over any particles of the world: the
    particles stay, the existing graviton objects are not touched, and
    [GRAVITON_CREATION_COUNT] new gravitons per particle join the active
    list, each with the full life. *)
Lemma particle_loop_spec ps :
  forall w,
    well_formed w ->
    (forall p, p ∈ ps -> p ∈ particles w) ->
    exists news w',
      foreach ps particle_step w = Some (tt, w') /\
      well_formed w' /\
      particles w' = particles w /\
      particle_objs w' = particle_objs w /\
      rng_random w' = rng_random w /\
      (forall g go, graviton_objs w !! g = Some go -> graviton_objs w' !! g = Some go) /\
      gravitons w' = gravitons w ++ news /\
      length news = (length ps * Configuration.GRAVITON_CREATION_COUNT)%nat /\
      (forall g, g ∈ news ->
         graviton_objs w !! g = None /\
         exists go, graviton_objs w' !! g = Some go /\
                    graviton_life go = Configuration.GRAVITON_LIFE) /\
      (in_arena w -> in_arena w').
Proof.
  induction ps as [|p ps IH]; intros w Hwf Hps.
  - exists [], w. rewrite app_nil_r.
    split; [reflexivity|]. split; [exact Hwf|].
    do 3 (split; [reflexivity|]). split; [auto|].
    do 2 (split; [reflexivity|]). split; [|auto]. intros g Hg. inversion Hg.
  - assert (Hin : p ∈ particles w) by (apply Hps; left).
    destruct (wf_particle_at w p Hwf Hin)
      as (po & x0 & x1 & f0 & f1 & c0 & c1 & c2 & Hat & _).
    destruct (particle_step_spec w p po x0 x1 f0 f1 Hwf Hin Hat)
      as (news1 & w1 & Hrun1 & Hwf1 & Hpre1 & Hgs1 & Hlen1 & _ & Hsp1).
    pose proof (particle_step_in_arena w p po x0 x1 f0 f1 w1 Hwf Hin Hat Hpre1) as Har1.
    assert (Hps1 : forall q, q ∈ ps -> q ∈ particles w1).
    { intros q Hq. rewrite (pre_particles _ _ Hpre1). apply Hps. now right. }
    destruct (IH w1 Hwf1 Hps1)
      as (news2 & w' & Hrun2 & Hwf2 & Hp2 & Hpo2 & Hr2 & Hgo2 & Hgs2 & Hlen2 & Hnew2
          & Har2).
    exists (news1 ++ news2), w'. cbn [foreach].
    rewrite (bind_run _ _ _ _ _ Hrun1).
    split; [exact Hrun2|]. split; [exact Hwf2|].
    split; [rewrite Hp2; apply (pre_particles _ _ Hpre1)|].
    split; [rewrite Hpo2; apply (pre_particle_objs _ _ Hpre1)|].
    split; [rewrite Hr2; apply (pre_rng _ _ Hpre1)|].
    split; [intros g go Hg; apply Hgo2; now apply (pre_graviton_objs _ _ Hpre1)|].
    split; [rewrite Hgs2, Hgs1, <- app_assoc; reflexivity|].
    split; [rewrite length_app, Hlen1, Hlen2; cbn [length]; lia|].
    split; [|auto].
    intros g Hg. apply elem_of_app in Hg as [Hg|Hg].
    + rewrite Forall_forall in Hsp1.
      destruct (Hsp1 g Hg) as (Hnone & go & fx & fy & k & Hgat & _ & _ & Hlife & _).
      split; [exact Hnone|]. exists go. split; [|exact Hlife].
      apply Hgo2. apply Hgat.
    + destruct (Hnew2 g Hg) as (Hnone & go & Hgo & Hlife).
      split; [|now exists go].
      destruct (graviton_objs w !! g) as [go0|] eqn:E; [|reflexivity].
      apply (pre_graviton_objs _ _ Hpre1) in E. congruence.
Qed.

(** * The graviton phase of a frame *)

Lemma collides_agree w1 w2 g p :
  graviton_objs w1 !! g = graviton_objs w2 !! g ->
  particle_objs w1 !! p = particle_objs w2 !! p ->
  (forall go, graviton_objs w1 !! g = Some go ->
     lists w1 !! graviton_position go = lists w2 !! graviton_position go) ->
  (forall po, particle_objs w1 !! p = Some po ->
     lists w1 !! particle_position po = lists w2 !! particle_position po) ->
  collides w1 g p = collides w2 g p.
Proof.
  intros Hg Hp Hgx Hpx. unfold collides. rewrite <- Hg, <- Hp.
  destruct (graviton_objs w1 !! g) as [go|]; [|reflexivity].
  destruct (particle_objs w1 !! p) as [po|]; [|reflexivity].
  now rewrite <- (Hgx go eq_refl), <- (Hpx po eq_refl).
Qed.

Lemma find_agree {A} (f1 f2 : A -> bool) (l : list A) :
  (forall x, x ∈ l -> f1 x = f2 x) -> List.find f1 l = List.find f2 l.
Proof.
  induction l as [|x l IH]; intros H; [reflexivity|].
  cbn. rewrite <- (H x) by left.
  destruct (f1 x); [reflexivity|]. apply IH. intros y Hy. apply H. now right.
Qed.

(** The verdict on a graviton depends on its own object and position and on
    the particles and their positions only. *)
Lemma still_active_agree w1 w2 g :
  graviton_objs w1 !! g = graviton_objs w2 !! g ->
  particles w1 = particles w2 ->
  particle_objs w1 = particle_objs w2 ->
  (forall go, graviton_objs w1 !! g = Some go ->
     lists w1 !! graviton_position go = lists w2 !! graviton_position go) ->
  (forall p po, p ∈ particles w1 -> particle_objs w1 !! p = Some po ->
     lists w1 !! particle_position po = lists w2 !! particle_position po) ->
  still_active w1 g = still_active w2 g.
Proof.
  intros Hg Hps Hpo Hgx Hpx. unfold still_active, first_hit.
  rewrite <- Hg, <- Hps.
  destruct (graviton_objs w1 !! g) as [go|] eqn:Ego; [|reflexivity].
  rewrite <- (Hgx go eq_refl).
  rewrite (find_agree (collides w1 g) (collides w2 g)); [reflexivity|].
  intros p Hp. apply collides_agree.
  - congruence.
  - now rewrite Hpo.
  - intros go' E. apply Hgx. congruence.
  - intros po E. now apply (Hpx p).
Qed.

Lemma wf_advanced w g go x y fx fy :
  well_formed w ->
  graviton_objs w !! g = Some go ->
  well_formed (advanced w g go x y fx fy).
Proof.
  intros Hwf Hg. apply (wf_transfer w); try reflexivity; auto.
  - apply (wf_nodup w Hwf).
  - intros g0 go0 _ Hg0. unfold advanced. wsimpl.
    destruct (decide (g = g0)) as [->|Hne].
    + exists (aged go). rewrite lookup_insert_eq.
      split; [reflexivity|]. split; cbn; congruence.
    + exists go0. rewrite lookup_insert_ne by assumption. auto.
  - intros l Hl. unfold advanced.
    destruct Hl as (a & b & E). unfold vector_at. wsimpl.
    destruct (decide (graviton_position go = l)) as [->|Hne].
    + eexists _, _. apply lookup_insert_eq.
    + exists a, b. now rewrite lookup_insert_ne.
Qed.

Lemma wf_remove w g gs :
  well_formed w ->
  py_remove g (gravitons w) = Some gs ->
  well_formed (set_gravitons (fun _ => gs) w).
Proof.
  intros Hwf Hrem. apply (wf_transfer w); try reflexivity; auto.
  - intros g0 Hg0. eapply py_remove_sub; eauto.
  - eapply py_remove_NoDup; eauto. apply (wf_nodup w Hwf).
  - intros g0 go0 _ Hg0. exists go0. auto.
Qed.

Lemma wf_overwrite w l a b :
  well_formed w -> well_formed (set_lists (insert l [a; b]) w).
Proof.
  intros Hwf. apply (wf_transfer w); try reflexivity; auto.
  - apply (wf_nodup w Hwf).
  - intros g0 go0 _ Hg0. exists go0. auto.
  - intros l' Hl'. now apply vector_at_insert.
Qed.

Lemma still_active_eq w g go x y :
  graviton_objs w !! g = Some go ->
  lists w !! graviton_position go = Some [x; y] ->
  still_active w g
  = negb (expired (graviton_life go) x y)
    && match first_hit w g (particles w) with Some _ => false | None => true end.
Proof. intros Hg Hx. unfold still_active. now rewrite Hg, Hx. Qed.

(** One round of the graviton loop in a well-formed world. *)
Lemma graviton_step_spec w g go x y fx fy :
  well_formed w ->
  g ∈ gravitons w ->
  graviton_at w g go [x; y] [fx; fy] ->
  exists w1,
    graviton_step g w = Some (tt, w1) /\
    well_formed w1 /\
    stepped w g go x y fx fy w1.
Proof.
  intros Hwf Hin H. pose proof H as (Hg & Hx & Hf & Hne).
  rewrite (graviton_step_run _ _ _ _ _ _ _ H (wf_position_readable w Hwf)).
  pose proof (graviton_at_advanced _ _ _ _ _ _ _ H) as (Hg1 & Hx1 & Hf1 & _).
  pose proof (wf_advanced w g go x y fx fy Hwf Hg) as Hwf1.
  cbn [aged graviton_position graviton_forces] in Hx1, Hf1.
  destruct (py_remove_elem _ _ Hin) as [gs Hgs].
  set (adv := advanced w g go x y fx fy) in *.
  assert (Hadv_lists : forall l, l <> graviton_position go -> lists adv !! l = lists w !! l).
  { intros l Hl. subst adv. unfold advanced. wsimpl. now rewrite lookup_insert_ne. }
  destruct (expired (graviton_life go - 1) (x + fx) (y + fy)) eqn:Eexp.
  - (* expired *)
    exists (set_gravitons (fun _ => gs) adv).
    split; [now apply gravitons_remove_run|].
    split; [now apply (wf_remove adv g)|].
    split; try reflexivity; try assumption.
    + intros l Hl _. now apply Hadv_lists.
    + right. split; [exact Hgs|].
      rewrite (still_active_eq _ g (aged go) (x + fx) (y + fy)) by assumption.
      cbn [aged graviton_life]. now rewrite Eexp.
  - destruct (first_hit adv g (particles w)) as [p|] eqn:Ehit.
    + (* a particle is hit *)
      apply List.find_some in Ehit as [Hp Hcol]. apply list_elem_of_In in Hp.
      destruct (wf_particle_at w p Hwf Hp)
        as (po & px & py & pf0 & pf1 & c0 & c1 & c2 & Hpat & _).
      pose proof Hpat as (Epo & Epx & Epf & Epne).
      destruct (wf_graviton_particle w g go p po Hwf Hin Hp Hg Epo)
        as (Hs1 & Hs2 & Hs3 & Hs4).
      assert (Hpat1 : particle_at adv p po [px; py] [pf0; pf1]).
      { repeat split; try assumption.
        - rewrite Hadv_lists by congruence. exact Epx.
        - rewrite Hadv_lists by congruence. exact Epf. }
      unfold hit, impulse, resolution, Configuration.SCREEN_RESOLUTION.
      rewrite (bind_run _ _ _ _ _
                 (Particle_apply_force_run _ _ _ _ _ _ _ _ _ 700 700 Hpat1)).
      match goal with
      | |- context [set_lists (insert (particle_forces po) ?V) adv] =>
          set (w2 := set_lists (insert (particle_forces po) V) adv)
      end.
      exists (set_gravitons (fun _ => gs) w2).
      split; [now apply gravitons_remove_run|].
      split; [apply (wf_remove w2 g); [now apply wf_overwrite|exact Hgs]|].
      assert (Hx2 : lists w2 !! graviton_position go = Some [x + fx; y + fy]).
      { subst w2. wsimpl. rewrite lookup_insert_ne by congruence. exact Hx1. }
      split; try reflexivity; try assumption.
      * intros l Hl Hlp. subst w2. wsimpl.
        rewrite lookup_insert_ne by (apply not_eq_sym; eapply Hlp; eauto).
        now apply Hadv_lists.
      * right. split; [exact Hgs|].
        rewrite (still_active_eq _ g (aged go) (x + fx) (y + fy)) by assumption.
        assert (Hcol2 : collides (set_gravitons (fun _ => gs) w2) g p = true).
        { rewrite <- Hcol. apply collides_agree; try reflexivity.
          - intros go' Ego'. change (graviton_objs adv !! g = Some go') in Ego'.
            assert (go' = aged go) by congruence. subst go'.
            cbn [aged graviton_position]. subst w2. wsimpl.
            now rewrite lookup_insert_ne by congruence.
          - intros po' E. change (particle_objs w !! p = Some po') in E.
            assert (po' = po) by congruence. subst po'.
            subst w2. wsimpl. now rewrite lookup_insert_ne by congruence. }
        destruct (first_hit (set_gravitons (fun _ => gs) w2) g
                    (particles (set_gravitons (fun _ => gs) w2))) eqn:E.
        -- apply andb_false_r.
        -- unfold first_hit in E.
           pose proof (List.find_none _ _ E p) as Hnone.
           rewrite Hnone in Hcol2; [discriminate|].
           apply list_elem_of_In. exact Hp.
    + (* nothing happens *)
      exists adv. split; [reflexivity|]. split; [exact Hwf1|].
      split; try reflexivity; try assumption.
      * intros l Hl _. now apply Hadv_lists.
      * left. split; [reflexivity|].
        rewrite (still_active_eq _ g (aged go) (x + fx) (y + fy)) by assumption.
        cbn [aged graviton_life]. rewrite Eexp.
        change (particles adv) with (particles w). now rewrite Ehit.
Qed.

Lemma wf_position_not_forces w p po p' po' :
  well_formed w -> p ∈ particles w -> p' ∈ particles w ->
  particle_objs w !! p = Some po -> particle_objs w !! p' = Some po' ->
  particle_position po <> particle_forces po'.
Proof.
  intros Hwf Hp Hp' Epo Epo'.
  apply (owned_ne w (OfParticle p) Position (OfParticle p') Forces);
    try assumption; cbn; rewrite ?Epo, ?Epo'; try reflexivity; discriminate.
Qed.

Lemma graviton_at_inj w g go x y fx fy go' x' y' fx' fy' :
  graviton_at w g go [x; y] [fx; fy] ->
  graviton_at w g go' [x'; y'] [fx'; fy'] ->
  go' = go /\ x' = x /\ y' = y /\ fx' = fx /\ fy' = fy.
Proof.
  intros (Hg & Hx & Hf & _) (Hg' & Hx' & Hf' & _).
  assert (go' = go) by congruence. subst go'.
  rewrite Hx in Hx'. rewrite Hf in Hf'.
  injection Hx' as -> ->. injection Hf' as -> ->. auto.
Qed.

(** The second loop of a frame, over any distinct active gravitons. *)
Lemma graviton_loop_spec rest :
  forall w,
    well_formed w ->
    NoDup rest ->
    (forall g, g ∈ rest -> g ∈ gravitons w) ->
    exists w',
      foreach rest graviton_step w = Some (tt, w') /\
      well_formed w' /\
      phased rest w w'.
Proof.
  induction rest as [|g rest IH]; intros w Hwf Hnd Hrest.
  - exists w. split; [reflexivity|]. split; [exact Hwf|].
    split; try reflexivity.
    + intros g0 go x y fx fy Hin. inversion Hin.
    + intros g0. split; [|tauto]. intros Hin. split; [exact Hin|].
      intros Hin'. inversion Hin'.
    + auto.
  - apply NoDup_cons in Hnd as [Hg_rest Hnd].
    assert (Hin : g ∈ gravitons w) by (apply Hrest; left).
    destruct (wf_graviton_at w g Hwf Hin) as (go & x & y & fx & fy & Hat).
    pose proof Hat as (Hg & Hx & Hf & Hne).
    destruct (graviton_step_spec w g go x y fx fy Hwf Hin Hat) as (w1 & Hrun1 & Hwf1 & St).
    assert (Fobj : forall g', g' <> g -> graviton_objs w1 !! g' = graviton_objs w !! g').
    { intros g' Hg'. rewrite (st_graviton_objs _ _ _ _ _ _ _ _ St).
      now rewrite lookup_insert_ne by congruence. }
    assert (Fobj_g : graviton_objs w1 !! g = Some (aged go)).
    { rewrite (st_graviton_objs _ _ _ _ _ _ _ _ St). apply lookup_insert_eq. }
    assert (Fkeep : forall g', g' <> g -> (g' ∈ gravitons w1 <-> g' ∈ gravitons w)).
    { intros g' Hg'. destruct (st_gravitons _ _ _ _ _ _ _ _ St) as [[E _]|[E _]].
      - now rewrite E.
      - split; [eapply py_remove_sub; eauto|].
        intros Hin'. eapply py_remove_keeps; eauto. }
    assert (Fself : g ∈ gravitons w1 <-> still_active w1 g = true).
    { destruct (st_gravitons _ _ _ _ _ _ _ _ St) as [[E Ha]|[E Ha]].
      - rewrite E. tauto.
      - destruct (py_remove_NoDup _ _ _ E (wf_nodup w Hwf)) as [_ Hout].
        rewrite Ha. split; [contradiction|discriminate]. }
    assert (Hrest1 : forall g', g' ∈ rest -> g' ∈ gravitons w1).
    { intros g' Hg'. apply Fkeep; [intros ->; contradiction|]. apply Hrest. now right. }
    destruct (IH w1 Hwf1 Hnd Hrest1) as (w' & Hrun' & Hwf' & Ph).
    pose proof (st_particles _ _ _ _ _ _ _ _ St) as Eps.
    pose proof (st_particle_objs _ _ _ _ _ _ _ _ St) as Epo.
    (* the lists the remaining rounds may write, seen from [w] *)
    assert (Flater : forall l,
              (forall g' go', g' ∈ rest -> graviton_objs w !! g' = Some go' ->
                              l <> graviton_position go') ->
              (forall p po, p ∈ particles w -> particle_objs w !! p = Some po ->
                            l <> particle_forces po) ->
              lists w' !! l = lists w1 !! l).
    { intros l C1 C2. apply (ph_lists _ _ _ Ph).
      - intros g' go' Hg' E.
        rewrite Fobj in E by (intros ->; contradiction). eauto.
      - intros p po Hp E. rewrite Eps in Hp. rewrite Epo in E. eauto. }
    assert (Fpos : lists w' !! graviton_position go = Some [x + fx; y + fy]).
    { rewrite Flater; [apply (st_position _ _ _ _ _ _ _ _ St)| |].
      - intros g' go' Hg' E.
        assert (Hne' : g <> g') by (intros ->; contradiction).
        assert (Hin' : g' ∈ gravitons w) by (apply Hrest; now right).
        apply (wf_graviton_graviton w g go g' go' Hwf Hin Hin' Hne' Hg E).
      - intros p po Hp E. apply (wf_graviton_particle w g go p po Hwf Hin Hp Hg E). }
    assert (Fppos : forall p po, p ∈ particles w -> particle_objs w !! p = Some po ->
              lists w' !! particle_position po = lists w1 !! particle_position po).
    { intros p po Hp E. apply Flater.
      - intros g' go' Hg' E'. apply not_eq_sym.
        assert (Hin' : g' ∈ gravitons w) by (apply Hrest; now right).
        apply (wf_graviton_particle w g' go' p po Hwf Hin' Hp E' E).
      - intros p' po' Hp' E'. now apply (wf_position_not_forces w p po p' po'). }
    assert (Fact : still_active w' g = still_active w1 g).
    { apply still_active_agree.
      - apply (ph_other _ _ _ Ph). exact Hg_rest.
      - apply (ph_particles _ _ _ Ph).
      - apply (ph_particle_objs _ _ _ Ph).
      - intros go' E. rewrite (ph_other _ _ _ Ph) in E by exact Hg_rest.
        assert (go' = aged go) by congruence. subst go'.
        cbn [aged graviton_position]. rewrite Fpos.
        symmetry. apply (st_position _ _ _ _ _ _ _ _ St).
      - intros p po Hp E. rewrite (ph_particles _ _ _ Ph), Eps in Hp.
        rewrite (ph_particle_objs _ _ _ Ph), Epo in E. eauto. }
    exists w'. cbn [foreach]. rewrite (bind_run _ _ _ _ _ Hrun1).
    split; [exact Hrun'|]. split; [exact Hwf'|].
    split.
    + rewrite (ph_particles _ _ _ Ph). exact Eps.
    + rewrite (ph_particle_objs _ _ _ Ph). exact Epo.
    + rewrite (ph_rng _ _ _ Ph). apply (st_rng _ _ _ _ _ _ _ _ St).
    + intros l C1 C2. rewrite Flater.
      * apply (st_lists _ _ _ _ _ _ _ _ St); [|exact C2].
        apply (C1 g go); [left|exact Hg].
      * intros g' go' Hg' E. apply (C1 g' go'); [now right|exact E].
      * exact C2.
    + intros g0 Hg0. apply not_elem_of_cons in Hg0 as [Hne0 Hg0].
      rewrite (ph_other _ _ _ Ph) by exact Hg0. now apply Fobj.
    + intros g0 go0 x0 y0 fx0 fy0 Hg0 Hat0.
      apply elem_of_cons in Hg0 as [->|Hg0].
      * destruct (graviton_at_inj _ _ _ _ _ _ _ _ _ _ _ _ Hat Hat0)
          as (-> & -> & -> & -> & ->).
        split; [rewrite (ph_other _ _ _ Ph) by exact Hg_rest; exact Fobj_g|].
        split; [exact Fpos|].
        apply (ph_screen _ _ _ Ph). rewrite (st_screen _ _ _ _ _ _ _ _ St).
        apply elem_of_app. right. left.
      * assert (Hne0 : g0 <> g) by (intros ->; contradiction).
        assert (Hin0 : g0 ∈ gravitons w) by (apply Hrest; now right).
        destruct Hat0 as (Hg0' & Hx0 & Hf0 & Hne0').
        destruct (wf_graviton_graviton w g0 go0 g go Hwf Hin0 Hin Hne0 Hg0' Hg)
          as (S1 & S2 & S3 & S4).
        apply (ph_each _ _ _ Ph); [exact Hg0|].
        repeat split; try assumption.
        -- rewrite Fobj by assumption. exact Hg0'.
        -- rewrite (st_lists _ _ _ _ _ _ _ _ St); [exact Hx0|exact S1|].
           intros p po Hp E.
           apply (wf_graviton_particle w g0 go0 p po Hwf Hin0 Hp Hg0' E).
        -- rewrite (st_lists _ _ _ _ _ _ _ _ St); [exact Hf0|exact S3|].
           intros p po Hp E.
           apply (wf_graviton_particle w g0 go0 p po Hwf Hin0 Hp Hg0' E).
    + intros g0. rewrite (ph_gravitons _ _ _ Ph).
      destruct (decide (g0 = g)) as [->|Hne0].
      * rewrite Fself, <- Fact. split.
        -- intros [Ha _]. split; [exact Hin|]. auto.
        -- intros [_ Ha]. split; [apply Ha; left|]. intros Hc. contradiction.
      * rewrite (Fkeep g0 Hne0). split.
        -- intros [Ha Hb]. split; [exact Ha|]. intros Hc.
           apply elem_of_cons in Hc as [Hc|Hc]; [contradiction|auto].
        -- intros [Ha Hb]. split; [exact Ha|]. intros Hc. apply Hb. now right.
    + intros c Hc. apply (ph_screen _ _ _ Ph).
      rewrite (st_screen _ _ _ _ _ _ _ _ St). apply elem_of_app. now left.
Qed.

(** The graviton loop does not move any particle. *)
Lemma phased_in_arena rest w w' :
  well_formed w ->
  (forall g, g ∈ rest -> g ∈ gravitons w) ->
  phased rest w w' ->
  in_arena w ->
  in_arena w'.
Proof.
  intros Hwf Hrest Ph Har q Hq. rewrite (ph_particles _ _ _ Ph) in Hq.
  destruct (Har q Hq) as (qo & y0 & y1 & Eq & Ey & Rest).
  exists qo, y0, y1.
  split; [rewrite (ph_particle_objs _ _ _ Ph); exact Eq|].
  split; [|exact Rest].
  rewrite (ph_lists _ _ _ Ph); [exact Ey| |].
  - intros g go Hg E. apply not_eq_sym.
    apply (wf_graviton_particle w g go q qo Hwf (Hrest g Hg) Hq E Eq).
  - intros p po Hp E. now apply (wf_position_not_forces w q qo p po).
Qed.

(** * The particles of [main] *)

(** A particle with two fresh vectors joins the particles. *)
Lemma wf_add_particle w w' p po :
  well_formed w ->
  particles w' = particles w ++ [p] ->
  gravitons w' = gravitons w ->
  graviton_objs w' = graviton_objs w ->
  particle_objs w !! p = None ->
  particle_objs w' !! p = Some po ->
  (forall p0 po0, particle_objs w !! p0 = Some po0 -> particle_objs w' !! p0 = Some po0) ->
  (forall l, vector_at w l -> vector_at w' l) ->
  lists w !! particle_position po = None ->
  lists w !! particle_forces po = None ->
  particle_position po <> particle_forces po ->
  vector_at w' (particle_position po) ->
  vector_at w' (particle_forces po) ->
  length (particle_color po) = 3%nat ->
  well_formed w'.
Proof.
  intros Hwf Hps Hgs Hgo Hnew Hpo Hold Hvec Hxn Hfn Hne Hx Hf Hcol.
  assert (Hown : forall o s l, active w' o -> owned w' o s = Some l ->
            (active w o /\ owned w o s = Some l) \/
            (o = OfParticle p /\
             l = match s with Position => particle_position po
                            | Forces => particle_forces po end)).
  { intros [p0|g0] s l Ha Ho; cbn in Ha.
    - rewrite Hps in Ha. apply elem_of_app in Ha as [Ha|Ha].
      + left. split; [exact Ha|].
        destruct (wf_particles w Hwf p0 Ha) as (po0 & Epo & _).
        pose proof (Hold _ _ Epo) as Epo'.
        destruct s; cbn in *; rewrite Epo' in Ho; rewrite Epo; exact Ho.
      + apply list_elem_of_singleton in Ha. subst p0. right. split; [reflexivity|].
        destruct s; cbn in Ho; rewrite Hpo in Ho; cbn in Ho; congruence.
    - left. rewrite Hgs in Ha. split; [exact Ha|].
      destruct s; cbn in *; now rewrite Hgo in Ho. }
  assert (Hfresh : forall o s l, active w o -> owned w o s = Some l ->
            l <> particle_position po /\ l <> particle_forces po).
  { intros o s l Ha Ho.
    destruct (owned_allocated w o s l Hwf Ha Ho) as (a & b & E).
    split; congruence. }
  split.
  - intros p0 Hin. rewrite Hps in Hin. apply elem_of_app in Hin as [Hin|Hin].
    + destruct (wf_particles w Hwf p0 Hin) as (po0 & Epo & Hx' & Hf' & Hc).
      exists po0. auto.
    + apply list_elem_of_singleton in Hin. subst p0. exists po. auto.
  - intros g0 Hin. rewrite Hgs in Hin.
    destruct (wf_gravitons w Hwf g0 Hin) as (go0 & Ego & Hx' & Hf').
    exists go0. rewrite Hgo. auto.
  - rewrite Hgs. apply (wf_nodup w Hwf).
  - intros o1 s1 o2 s2 l A1 A2 O1 O2.
    destruct (Hown _ _ _ A1 O1) as [[A1' O1']|[-> E1]],
             (Hown _ _ _ A2 O2) as [[A2' O2']|[-> E2]].
    + eapply (wf_separate w Hwf); eauto.
    + destruct (Hfresh _ _ _ A1' O1'). destruct s2; congruence.
    + destruct (Hfresh _ _ _ A2' O2'). destruct s1; congruence.
    + split; [reflexivity|]. destruct s1, s2; congruence.
Qed.

Lemma random_randint_run a b w :
  random_randint a b w
  = Some ((a + rng_randint w (rng_pos w) mod (b - a + 1))%Z, set_rng_pos S w).
Proof. reflexivity. Qed.

Lemma particle_alloc_run p w :
  particle_alloc p w
  = Some (fresh (dom (particle_objs w)),
          set_particle_objs (insert (fresh (dom (particle_objs w))) p) w).
Proof. reflexivity. Qed.

(** One element of the list comprehension of [main]: a particle at rest,
    of the configured size, placed by two random numbers. *)
Lemma new_particle_spec w acc :
  well_formed (set_particles (fun _ => acc) w) ->
  exists p po w',
    new_particle w = Some (p, w') /\
    well_formed (set_particles (fun _ => acc ++ [p]) w') /\
    particles w' = particles w /\
    gravitons w' = gravitons w /\
    graviton_objs w' = graviton_objs w /\
    rng_random w' = rng_random w /\
    particle_objs w !! p = None /\
    (forall p0 po0, particle_objs w !! p0 = Some po0 -> particle_objs w' !! p0 = Some po0) /\
    (forall l v, lists w !! l = Some v -> lists w' !! l = Some v) /\
    particle_objs w' !! p = Some po /\
    particle_size po = Configuration.PARTICLE_SIZE /\
    lists w' !! particle_forces po = Some [0; 0] /\
    lists w' !! particle_position po
    = Some [10 + rng_random w (rng_pos w) * (700 - 10 - 10);
            10 + rng_random w (S (rng_pos w)) * (700 - 10 - 10)].
Proof.
  intros Hwf.
  pose proof (fresh_lists_None w) as Hf.
  set (lf := fresh (dom (lists w))) in *.
  set (w1 := set_rng_pos S (set_rng_pos S (set_lists (insert lf [0; 0]) w))).
  pose proof (fresh_lists_None w1) as Hx.
  set (lx := fresh (dom (lists w1))) in *.
  subst w1. wsimpl. apply lookup_insert_None in Hx as [Hx Hfx].
  set (pos := [10 + rng_random w (rng_pos w) * (700 - 10 - 10);
               10 + rng_random w (S (rng_pos w)) * (700 - 10 - 10)]).
  set (w2 := set_rng_pos S (set_rng_pos S (set_rng_pos S
               (set_lists (insert lx pos)
                  (set_rng_pos S (set_rng_pos S (set_lists (insert lf [0; 0]) w))))))).
  assert (Hp : particle_objs w2 !! fresh (dom (particle_objs w2)) = None)
    by apply not_elem_of_dom, is_fresh.
  set (p := fresh (dom (particle_objs w2))) in *.
  set (po := mkParticle lx lf
               [inject_Z (Configuration.PARTICLE_COLOR_MIN
                          + (0 + rng_randint w (S (S (rng_pos w)))
                                 mod (Configuration.PARTICLE_COLOR_RANGE - 0 + 1)));
                inject_Z (Configuration.PARTICLE_COLOR_MIN
                          + (0 + rng_randint w (S (S (S (rng_pos w))))
                                 mod (Configuration.PARTICLE_COLOR_RANGE - 0 + 1)));
                inject_Z (Configuration.PARTICLE_COLOR_MIN
                          + (0 + rng_randint w (S (S (S (S (rng_pos w)))))
                                 mod (Configuration.PARTICLE_COLOR_RANGE - 0 + 1)))]
               Configuration.PARTICLE_SIZE).
  set (w3 := set_particle_objs (insert p po) w2).
  assert (Hrun : new_particle w = Some (p, w3)).
  { unfold new_particle, resolution, Configuration.SCREEN_RESOLUTION,
      Configuration.PARTICLE_SPAWN_OFFSET.
    mrun ltac:(apply list_alloc_run). do 2 mstep.
    unfold Particle.init. do 6 mstep.
    mrun ltac:(apply list_alloc_run).
    do 3 (mrun ltac:(apply random_randint_run)).
    apply particle_alloc_run. }
  change (particle_objs w2) with (particle_objs w) in Hp.
  assert (Hlists : forall l v, lists w !! l = Some v -> lists w3 !! l = Some v).
  { intros l v E. subst w3 w2. wsimpl. rewrite !lookup_insert_ne by congruence. exact E. }
  assert (Hobjs : forall p0 po0, particle_objs w !! p0 = Some po0 ->
                                 particle_objs w3 !! p0 = Some po0).
  { intros p0 po0 E. subst w3 w2. wsimpl. rewrite lookup_insert_ne by congruence. exact E. }
  assert (Epo : particle_objs w3 !! p = Some po) by (subst w3; wsimpl; apply lookup_insert_eq).
  assert (Ef : lists w3 !! lf = Some [0; 0]).
  { subst w3 w2. wsimpl. rewrite lookup_insert_ne by congruence. apply lookup_insert_eq. }
  assert (Ex : lists w3 !! lx = Some pos) by (subst w3 w2; wsimpl; apply lookup_insert_eq).
  assert (E1 : particles w3 = particles w) by reflexivity.
  assert (E2 : gravitons w3 = gravitons w) by reflexivity.
  assert (E3 : graviton_objs w3 = graviton_objs w) by reflexivity.
  assert (E4 : rng_random w3 = rng_random w) by reflexivity.
  assert (Hxp : particle_position po = lx) by reflexivity.
  assert (Hfp : particle_forces po = lf) by reflexivity.
  assert (Hcol : length (particle_color po) = 3%nat) by reflexivity.
  assert (Hsz : particle_size po = Configuration.PARTICLE_SIZE) by reflexivity.
  clearbody w3 po p lx lf. clear w2.
  exists p, po, w3. split; [exact Hrun|].
  split.
  { apply (wf_add_particle (set_particles (fun _ => acc) w)
             (set_particles (fun _ => acc ++ [p]) w3) p po Hwf).
    - reflexivity.
    - exact E2.
    - exact E3.
    - exact Hp.
    - exact Epo.
    - exact Hobjs.
    - intros l (a & b & E). exists a, b. now apply Hlists.
    - rewrite Hxp. exact Hx.
    - rewrite Hfp. exact Hf.
    - rewrite Hxp, Hfp. apply not_eq_sym. exact Hfx.
    - rewrite Hxp. eexists _, _. exact Ex.
    - rewrite Hfp. eexists _, _. exact Ef.
    - exact Hcol. }
  rewrite Hxp, Hfp.
  repeat (split; [assumption|]). exact Ex.
Qed.

Lemma spawn_zone_within r :
  0 <= r -> r < 1 ->
  within Configuration.PARTICLE_SIZE (700 - Configuration.PARTICLE_SIZE)
    (10 + r * (700 - 10 - 10)).
Proof.
  intros H0 H1. unfold within, Configuration.PARTICLE_SIZE. split; lra.
Qed.

(** The list comprehension of [main], for any number of particles. *)
Lemma collect_particles_spec n :
  forall w acc,
    well_formed (set_particles (fun _ => acc) w) ->
    rng_ok w ->
    in_arena (set_particles (fun _ => acc) w) ->
    exists ps w',
      collect n new_particle w = Some (ps, w') /\
      well_formed (set_particles (fun _ => acc ++ ps) w') /\
      in_arena (set_particles (fun _ => acc ++ ps) w') /\
      length ps = n /\
      gravitons w' = gravitons w /\
      rng_random w' = rng_random w.
Proof.
  induction n as [|n IH]; intros w acc Hwf Hrng Har.
  - exists [], w. rewrite app_nil_r.
    split; [reflexivity|]. split; [exact Hwf|]. split; [exact Har|].
    split; [reflexivity|]. split; reflexivity.
  - destruct (new_particle_spec w acc Hwf)
      as (p & po & w1 & Hrun & Hwf1 & Hps & Hgs & Hgo & Hr & Hnew & Hobjs & Hlists
          & Epo & Esize & Ef & Ex).
    assert (Hrng1 : rng_ok w1) by (unfold rng_ok; now rewrite Hr).
    assert (Har1 : in_arena (set_particles (fun _ => acc ++ [p]) w1)).
    { intros q Hq. cbn [particles set_particles] in Hq.
      apply elem_of_app in Hq as [Hq|Hq].
      - destruct (Har q Hq) as (qo & x0 & x1 & Eq & Eqx & Rest).
        exists qo, x0, x1. split; [now apply Hobjs|]. split; [now apply Hlists|].
        exact Rest.
      - apply list_elem_of_singleton in Hq. subst q.
        eexists po, _, _. split; [exact Epo|]. split; [exact Ex|].
        split; [exact Esize|]. split; apply spawn_zone_within; apply Hrng. }
    destruct (IH w1 (acc ++ [p]) Hwf1 Hrng1 Har1)
      as (ps & w' & Hrun' & Hwf' & Har' & Hlen & Hgs' & Hr').
    exists (p :: ps), w'. cbn [collect].
    rewrite (bind_run _ _ _ _ _ Hrun), (bind_run _ _ _ _ _ Hrun').
    rewrite <- app_assoc in Hwf', Har'. cbn [app] in Hwf', Har'.
    split; [reflexivity|]. split; [exact Hwf'|]. split; [exact Har'|].
    split; [cbn [length]; now rewrite Hlen|]. split; congruence.
Qed.

Lemma empty_world_wf rnd rint : well_formed (empty_world rnd rint).
Proof.
  split.
  - intros p Hp. inversion Hp.
  - intros g Hg. inversion Hg.
  - constructor.
  - intros [p|g] s1 o2 s2 l A1; inversion A1.
Qed.

(** The statements of [main] before the loop leave a well-formed world with
    [PARTICLE_COUNT] particles inside the arena and no graviton. *)
Lemma setup_spec rnd rint :
  (forall n, 0 <= rnd n /\ rnd n < 1) ->
  exists w,
    setup (empty_world rnd rint) = Some (tt, w) /\
    well_formed w /\
    in_arena w /\
    rng_ok w /\
    length (particles w) = Configuration.PARTICLE_COUNT /\
    gravitons w = [].
Proof.
  intros Hrnd.
  destruct (collect_particles_spec Configuration.PARTICLE_COUNT (empty_world rnd rint) [])
    as (ps & w' & Hrun & Hwf & Har & Hlen & Hgs & Hr).
  - apply empty_world_wf.
  - exact Hrnd.
  - intros p Hp. inversion Hp.
  - cbn [app] in Hwf, Har.
    assert (E : set_gravitons (fun _ => []) (set_particles (fun _ => ps) w')
                = set_particles (fun _ => ps) w').
    { change (gravitons (empty_world rnd rint)) with (@nil positive) in Hgs.
      clear - Hgs. destruct w'. cbn in Hgs. subst. reflexivity. }
    exists (set_particles (fun _ => ps) w').
    split.
    + unfold setup. rewrite (bind_run _ _ _ _ _ Hrun). do 1 mstep.
      rewrite modify_run. now rewrite E.
    + split; [exact Hwf|]. split; [exact Har|].
      split; [unfold rng_ok; cbn [rng_random set_particles]; now rewrite Hr|].
      split; [exact Hlen|]. exact Hgs.
Qed.

(** * Whole frames *)

Lemma wf_screen_fill w : well_formed w -> well_formed (set_screen (fun _ => []) w).
Proof.
  intros Hwf. apply (wf_transfer w); try reflexivity; auto.
  - apply (wf_nodup w Hwf).
  - intros g go _ Hg. exists go. auto.
Qed.

(** A frame is the particle loop over all particles followed by the graviton
    loop over the gravitons that are active when the particle loop is done,
    the new ones included. *)
Lemma frame_spec w :
  well_formed w ->
  exists news wm w',
    frame w = Some (tt, w') /\
    (screen_fill >> particle_phase) w = Some (tt, wm) /\
    graviton_phase wm = Some (tt, w') /\
    well_formed wm /\
    well_formed w' /\
    particles wm = particles w /\
    particle_objs wm = particle_objs w /\
    rng_random wm = rng_random w /\
    (forall g go, graviton_objs w !! g = Some go -> graviton_objs wm !! g = Some go) /\
    gravitons wm = gravitons w ++ news /\
    length news = (length (particles w) * Configuration.GRAVITON_CREATION_COUNT)%nat /\
    (forall g, g ∈ news ->
       graviton_objs w !! g = None /\
       exists go, graviton_objs wm !! g = Some go /\
                  graviton_life go = Configuration.GRAVITON_LIFE) /\
    phased (gravitons wm) wm w' /\
    (in_arena w -> in_arena w').
Proof.
  intros Hwf.
  pose proof (wf_screen_fill w Hwf) as Hwf0.
  destruct (particle_loop_spec (particles w) (set_screen (fun _ => []) w) Hwf0
              (fun p Hp => Hp))
    as (news & wm & Hrun1 & Hwfm & Hps & Hpo & Hrng & Hgo & Hgs & Hlen & Hnew & Har).
  destruct (graviton_loop_spec (gravitons wm) wm Hwfm (wf_nodup wm Hwfm)
              (fun g Hg => Hg))
    as (w' & Hrun2 & Hwf' & Ph).
  assert (E1 : (screen_fill >> particle_phase) w = Some (tt, wm)).
  { unfold screen_fill, particle_phase. do 2 mstep. exact Hrun1. }
  assert (E2 : graviton_phase wm = Some (tt, w')).
  { unfold graviton_phase. mstep. exact Hrun2. }
  exists news, wm, w'.
  split.
  { unfold frame. unfold bind at 1.
    change (screen_fill w) with (Some (tt, set_screen (fun _ => []) w)).
    cbv beta iota. unfold bind at 1.
    assert (E1' : particle_phase (set_screen (fun _ => []) w) = Some (tt, wm)).
    { unfold particle_phase. mstep. exact Hrun1. }
    rewrite E1'. exact E2. }
  do 12 (split; [assumption|]).
  intros Ha. apply (phased_in_arena (gravitons wm) wm w' Hwfm (fun g Hg => Hg) Ph).
  apply Har. exact Ha.
Qed.

Lemma frame_total w :
  well_formed w -> exists w', frame w = Some (tt, w') /\ well_formed w'.
Proof.
  intros Hwf. destruct (frame_spec w Hwf) as (news & wm & w' & H & _ & _ & _ & Hwf' & _).
  eauto.
Qed.

Lemma run_total n :
  forall w, well_formed w -> exists w', run n w = Some (tt, w') /\ well_formed w'.
Proof.
  induction n as [|n IH]; intros w Hwf.
  - exists w. now split.
  - destruct (frame_total w Hwf) as (w1 & Hrun & Hwf1).
    destruct (IH w1 Hwf1) as (w' & Hrun' & Hwf').
    exists w'. cbn [run]. rewrite (bind_run _ _ _ _ _ Hrun). now split.
Qed.



(** How a frame changes the life of the gravitons it leaves active: an old
    one has aged by one frame and has life left, a new one has been aged
    once since its creation. *)
Lemma frame_life w w' g :
  well_formed w ->
  frame w = Some (tt, w') ->
  g ∈ gravitons w' ->
  (g ∈ gravitons w /\
   exists go, graviton_objs w !! g = Some go /\
              graviton_objs w' !! g = Some (aged go) /\
              (0 < graviton_life go - 1)%Z) \/
  (graviton_objs w !! g = None /\
   exists go, graviton_objs w' !! g = Some (aged go) /\
              graviton_life go = Configuration.GRAVITON_LIFE /\
              (0 < graviton_life go - 1)%Z).
Proof.
  intros Hwf Hrun Hin.
  destruct (frame_spec w Hwf)
    as (news & wm & w'' & Hrun' & _ & _ & Hwfm & Hwf' & Hps & Hpo & Hrng & Hgo & Hgs
        & Hlen & Hnew & Ph & _).
  assert (w'' = w') by congruence. subst w''.
  apply (ph_gravitons _ _ _ Ph) in Hin as [Hinm Hact].
  specialize (Hact Hinm).
  destruct (wf_graviton_at wm g Hwfm Hinm) as (go & x & y & fx & fy & Hat).
  destruct (ph_each _ _ _ Ph g go x y fx fy Hinm Hat) as (Hgo' & Hx' & _).
  rewrite (still_active_eq _ g (aged go) (x + fx) (y + fy)) in Hact
    by (cbn [aged graviton_position]; assumption).
  apply andb_true_iff in Hact as [Hexp _]. apply negb_true_iff in Hexp.
  apply expired_false in Hexp as [Hlife _]. cbn [aged graviton_life] in Hlife.
  rewrite Hgs in Hinm. apply elem_of_app in Hinm as [Hold|Hnw].
  - left. split; [exact Hold|].
    destruct (wf_gravitons w Hwf g Hold) as (go0 & Hg0 & _).
    pose proof (Hgo _ _ Hg0) as Hg0'. destruct Hat as (Hg & _).
    assert (go0 = go) by congruence. subst go0.
    exists go. auto.
  - right. destruct (Hnew g Hnw) as (Hnone & go0 & Hg0 & Hl0).
    destruct Hat as (Hg & _).
    assert (go0 = go) by congruence. subst go0.
    split; [exact Hnone|]. exists go. auto.
Qed.

(** Graviton objects persist. *)
Lemma frame_graviton_objs w w' g go :
  well_formed w ->
  frame w = Some (tt, w') ->
  graviton_objs w !! g = Some go ->
  is_Some (graviton_objs w' !! g).
Proof.
  intros Hwf Hrun Hg.
  destruct (frame_spec w Hwf)
    as (news & wm & w'' & Hrun' & _ & _ & Hwfm & Hwf' & Hps & Hpo & Hrng & Hgo & Hgs
        & Hlen & Hnew & Ph & _).
  assert (w'' = w') by congruence. subst w''.
  pose proof (Hgo _ _ Hg) as Hgm.
  destruct (decide (g ∈ gravitons wm)) as [Hin|Hout].
  - destruct (wf_graviton_at wm g Hwfm Hin) as (go1 & x & y & fx & fy & Hat).
    destruct (ph_each _ _ _ Ph g go1 x y fx fy Hin Hat) as (Hgo' & _). eauto.
  - rewrite (ph_other _ _ _ Ph) by exact Hout. eauto.
Qed.

Lemma run_wf n w wn :
  well_formed w -> run n w = Some (tt, wn) -> well_formed wn.
Proof.
  intros Hwf Hrun. destruct (run_total n w Hwf) as (w' & E & Hwf').
  congruence.
Qed.


Lemma run_graviton_objs n :
  forall w wn g,
    well_formed w ->
    run n w = Some (tt, wn) ->
    is_Some (graviton_objs w !! g) ->
    is_Some (graviton_objs wn !! g).
Proof.
  induction n as [|n IH]; intros w wn g Hwf Hrun Hg.
  - change (Some (tt, w) = Some (tt, wn)) in Hrun. injection Hrun as <-. assumption.
  - cbn [run] in Hrun. destruct (frame_total w Hwf) as (w1 & Hf & Hwf1).
    rewrite (bind_run _ _ _ _ _ Hf) in Hrun.
    destruct Hg as [go Hg].
    exact (IH w1 wn g Hwf1 Hrun (frame_graviton_objs w w1 g go Hwf Hf Hg)).
Qed.





(** Frames keep the particles inside the arena and the generator as it is. *)
Lemma run_in_arena n :
  forall w wn,
    well_formed w -> in_arena w ->
    run n w = Some (tt, wn) ->
    in_arena wn /\ rng_random wn = rng_random w.
Proof.
  induction n as [|n IH]; intros w wn Hwf Har Hrun.
  - change (Some (tt, w) = Some (tt, wn)) in Hrun. injection Hrun as <-. now split.
  - cbn [run] in Hrun.
    destruct (frame_spec w Hwf)
      as (news & wm & w1 & Hf & _ & _ & _ & Hwf1 & _ & _ & Hr & _ & _ & _ & _ & Ph & Har1).
    rewrite (bind_run _ _ _ _ _ Hf) in Hrun.
    destruct (IH w1 wn Hwf1 (Har1 Har) Hrun) as [Harn Hrn].
    split; [exact Harn|]. rewrite Hrn, (ph_rng _ _ _ Ph). exact Hr.
Qed.

(** * The life cycle of a graviton *)


(** The sample world with one particle is well formed. *)
Lemma one_particle_world_wf a b c d :
  well_formed (one_particle_world [a; b] [c; d]).
Proof.
  split.
  - intros p Hp. apply list_elem_of_singleton in Hp. subst p.
    exists (mkParticle 1 2 [200; 150; 100] 10).
    split; [reflexivity|]. split; [now exists a, b|]. split; [now exists c, d|].
    reflexivity.
  - intros g Hg. inversion Hg.
  - constructor.
  - intros [p1|g1] s1 [p2|g2] s2 l A1 A2 O1 O2; cbn in A1, A2;
      try (inversion A1; fail); try (inversion A2; fail).
    apply list_elem_of_singleton in A1, A2. subst p1 p2.
    split; [reflexivity|].
    destruct s1, s2; try reflexivity; vm_compute in O1, O2; congruence.
Qed.


(** * Gravitons in the frame of their creation *)

(** C10.  The gravitons spawned in the particle phase of a frame take part
    in the graviton phase of the same frame, because the list of gravitons is
    copied when all spawning is done: each of them is drawn, moved by its
    forces and aged from [GRAVITON_LIFE] to 99 before the frame ends, and it
    is still active after the frame exactly when, in its creation frame
    already, it passed the out-of-bounds test and hit no particle. *)
Theorem spawned_gravitons_run_in_their_frame w :
  well_formed w ->
  exists news wm w',
    frame w = Some (tt, w') /\
    (screen_fill >> particle_phase) w = Some (tt, wm) /\
    graviton_phase wm = Some (tt, w') /\
    gravitons wm = gravitons w ++ news /\
    length news = (length (particles w) * Configuration.GRAVITON_CREATION_COUNT)%nat /\
    forall g, g ∈ news ->
      graviton_objs w !! g = None /\
      exists go x y fx fy,
        graviton_at wm g go [x; y] [fx; fy] /\
        graviton_life go = Configuration.GRAVITON_LIFE /\
        graviton_objs w' !! g = Some (aged go) /\
        graviton_life (aged go) = 99%Z /\
        lists w' !! graviton_position go = Some [x + fx; y + fy] /\
        mkCircle (graviton_color go) (py_int x) (py_int y) (graviton_size go)
          ∈ screen w' /\
        (g ∈ gravitons w' <->
         expired 99 (x + fx) (y + fy) = false /\
         first_hit w' g (particles w') = None).
Proof.
  intros Hwf.
  destruct (frame_spec w Hwf)
    as (news & wm & w' & Hrun & Hrun1 & Hrun2 & Hwfm & Hwf' & Hps & Hpo & Hrng & Hgo & Hgs
        & Hlen & Hnew & Ph & _).
  exists news, wm, w'.
  do 5 (split; [assumption|]).
  intros g Hg. destruct (Hnew g Hg) as (Hnone & go0 & Hgo0 & Hlife).
  split; [exact Hnone|].
  assert (Hin : g ∈ gravitons wm) by (rewrite Hgs; apply elem_of_app; now right).
  destruct (wf_graviton_at wm g Hwfm Hin) as (go & x & y & fx & fy & Hat).
  assert (go0 = go) by (destruct Hat as (E & _); congruence). subst go0.
  destruct (ph_each _ _ _ Ph g go x y fx fy Hin Hat) as (Hgo' & Hx' & Hc).
  exists go, x, y, fx, fy.
  split; [exact Hat|]. split; [exact Hlife|]. split; [exact Hgo'|].
  split; [cbn [aged graviton_life]; now rewrite Hlife|].
  split; [exact Hx'|]. split; [exact Hc|].
  rewrite (ph_gravitons _ _ _ Ph).
  rewrite (still_active_eq w' g (aged go) (x + fx) (y + fy))
    by (cbn [aged graviton_position]; assumption).
  cbn [aged graviton_life]. rewrite Hlife.
  change (Configuration.GRAVITON_LIFE - 1)%Z with 99%Z.
  split.
  - intros [_ Hact]. specialize (Hact Hin).
    apply andb_true_iff in Hact as [H1 H2]. apply negb_true_iff in H1.
    split; [exact H1|]. now destruct (first_hit w' g (particles w')).
  - intros [H1 H2]. split; [exact Hin|]. intros _. now rewrite H1, H2.
Qed.

Lemma spawned_gravitons_run_in_their_frame_witness :
  well_formed (one_particle_world [350; 350] [0; 0]) /\
  exists news wm w',
    frame (one_particle_world [350; 350] [0; 0]) = Some (tt, w') /\
    (screen_fill >> particle_phase) (one_particle_world [350; 350] [0; 0])
      = Some (tt, wm) /\
    graviton_phase wm = Some (tt, w') /\
    gravitons wm = gravitons (one_particle_world [350; 350] [0; 0]) ++ news /\
    length news
    = Nat.mul (length (particles (one_particle_world [350; 350] [0; 0])))
              Configuration.GRAVITON_CREATION_COUNT /\
    forall g, g ∈ news ->
      graviton_objs (one_particle_world [350; 350] [0; 0]) !! g = None /\
      exists go x y fx fy,
        graviton_at wm g go [x; y] [fx; fy] /\
        graviton_life go = Configuration.GRAVITON_LIFE /\
        graviton_objs w' !! g = Some (aged go) /\
        graviton_life (aged go) = 99%Z /\
        lists w' !! graviton_position go = Some [x + fx; y + fy] /\
        mkCircle (graviton_color go) (py_int x) (py_int y) (graviton_size go)
          ∈ screen w' /\
        (g ∈ gravitons w' <->
         expired 99 (x + fx) (y + fy) = false /\
         first_hit w' g (particles w') = None).
Proof.
  split; [apply one_particle_world_wf|].
  exact (spawned_gravitons_run_in_their_frame _ (one_particle_world_wf 350 350 0 0)).
Defined.

(** * The first frame of a single particle *)

Lemma at_rest_force size x :
  within size (700 - size) x -> updated_force size 700 x 0 = 0.
Proof.
  intros [Hlo Hhi]. unfold updated_force. change (clamp 0) with 0.
  assert (E : outside (x + 0) size 700 = false) by (apply outside_false; lra).
  now rewrite E.
Qed.

Lemma noise_bound r f :
  0 <= r -> r < 1 ->
  Qabs (f + (r - (1 # 2)) * Configuration.GRAVITON_FORCE_ADDITION_RANGE - f)
  <= Configuration.GRAVITON_FORCE_ADDITION_RANGE / 2.
Proof.
  intros H0 H1. unfold Configuration.GRAVITON_FORCE_ADDITION_RANGE.
  assert (E : 10 / 2 == 5) by reflexivity. rewrite E.
  apply Qabs_Qle_condition. split; lra.
Qed.

(** C7, as the code has it.  For a single particle at rest inside the 700
    by 700 arena and no graviton yet, the particle phase of a frame spawns
    exactly [GRAVITON_CREATION_COUNT] gravitons; each is created with
    life [GRAVITON_LIFE], with a position that is a new list holding the
    particle's position after its update, and with force components within
    [GRAVITON_FORCE_ADDITION_RANGE / 2] of the particle's forces after its
    update.  The graviton phase of the same frame then ages each of them to
    99, and all of them are still active when the frame ends. *)
Theorem first_frame_of_one_particle w p po x0 x1 :
  well_formed w ->
  particles w = [p] ->
  gravitons w = [] ->
  particle_at w p po [x0; x1] [0; 0] ->
  particle_size po = Configuration.PARTICLE_SIZE ->
  within Configuration.PARTICLE_SIZE (700 - Configuration.PARTICLE_SIZE) x0 ->
  within Configuration.PARTICLE_SIZE (700 - Configuration.PARTICLE_SIZE) x1 ->
  (forall n, 0 <= rng_random w n /\ rng_random w n < 1) ->
  exists wm w' y0 y1 g0 g1,
    (screen_fill >> particle_phase) w = Some (tt, wm) /\
    frame w = Some (tt, w') /\
    particle_at wm p po [y0; y1] [g0; g1] /\
    length (gravitons wm) = Configuration.GRAVITON_CREATION_COUNT /\
    (forall g, g ∈ gravitons wm ->
       exists go fx fy,
         graviton_at wm g go [y0; y1] [fx; fy] /\
         graviton_creator go = p /\
         graviton_life go = Configuration.GRAVITON_LIFE /\
         graviton_position go <> particle_position po /\
         Qabs (fx - g0) <= Configuration.GRAVITON_FORCE_ADDITION_RANGE / 2 /\
         Qabs (fy - g1) <= Configuration.GRAVITON_FORCE_ADDITION_RANGE / 2 /\
         graviton_objs w' !! g = Some (aged go) /\
         graviton_life (aged go) = 99%Z) /\
    (forall g, g ∈ gravitons w' <-> g ∈ gravitons wm) /\
    length (gravitons w') = Configuration.GRAVITON_CREATION_COUNT.
Proof.
  intros Hwf Hps Hgs Hat Hsize B0 B1 Hrng.
  pose proof (wf_screen_fill w Hwf) as Hwf0.
  set (w0 := set_screen (fun _ => []) w) in *.
  assert (Hin0 : p ∈ particles w0) by (change (p ∈ particles w); rewrite Hps; left).
  assert (Hat0 : particle_at w0 p po [x0; x1] [0; 0]) by exact Hat.
  destruct (particle_step_spec w0 p po x0 x1 0 0 Hwf0 Hin0 Hat0)
    as (news & wm & Hstep & Hwfm & Hpre & Hgsm & Hlen & _ & Hsp).
  change (gravitons w0) with (gravitons w) in Hgsm. rewrite Hgs in Hgsm. cbn [app] in Hgsm.
  pose proof (particle_at_moved _ _ _ _ _ _ _ Hat0) as Hatm.
  apply (preserves_particle_at _ _ _ _ _ _ Hpre) in Hatm.
  rewrite Hsize in Hatm, Hsp.
  rewrite (at_rest_force _ x0 B0), (at_rest_force _ x1 B1) in Hatm, Hsp.
  unfold updated_position in Hatm, Hsp.
  rewrite (at_rest_force _ x0 B0), (at_rest_force _ x1 B1) in Hatm, Hsp.
  assert (E1 : (screen_fill >> particle_phase) w = Some (tt, wm)).
  { unfold screen_fill, particle_phase. do 2 mstep.
    cbn [particles set_screen]. rewrite Hps. cbn [foreach].
    now rewrite (bind_run _ _ _ _ _ Hstep). }
  destruct (frame_spec w Hwf)
    as (news' & wm' & w' & Hrun & E1' & _ & _ & Hwf' & Hpsm & Hpom & _ & _ & _ & _ & _ & Ph
        & _).
  assert (wm' = wm) by congruence. subst wm'.
  assert (Hev : forall g, g ∈ gravitons wm ->
            exists go fx fy,
              graviton_at wm g go [x0 + 0; x1 + 0] [fx; fy] /\
              graviton_creator go = p /\
              graviton_life go = Configuration.GRAVITON_LIFE /\
              graviton_position go <> particle_position po /\
              Qabs (fx - 0) <= Configuration.GRAVITON_FORCE_ADDITION_RANGE / 2 /\
              Qabs (fy - 0) <= Configuration.GRAVITON_FORCE_ADDITION_RANGE / 2 /\
              graviton_objs w' !! g = Some (aged go) /\
              graviton_life (aged go) = 99%Z /\
              still_active w' g = true).
  { intros g Hg. pose proof Hg as Hg'. rewrite Hgsm in Hg'.
    rewrite Forall_forall in Hsp.
    destruct (Hsp g Hg')
      as (_ & go & fx & fy & k & Hgat & Hcr & _ & Hlife & Hxn & _ & Efx & Efy).
    change (rng_random (moved w0 po x0 x1 0 0)) with (rng_random w) in Efx, Efy.
    destruct (ph_each _ _ _ Ph g go _ _ _ _ Hg Hgat) as (Hgo' & Hx' & _).
    assert (Bx : Qabs (fx - 0) <= Configuration.GRAVITON_FORCE_ADDITION_RANGE / 2).
    { rewrite Efx. apply noise_bound; apply Hrng. }
    assert (By : Qabs (fy - 0) <= Configuration.GRAVITON_FORCE_ADDITION_RANGE / 2).
    { rewrite Efy. apply noise_bound; apply Hrng. }
    exists go, fx, fy.
    split; [exact Hgat|]. split; [exact Hcr|]. split; [exact Hlife|].
    split.
    { intros E. rewrite E in Hxn.
      pose proof (particle_at_moved _ _ _ _ _ _ _ Hat0) as (_ & Hx & _).
      congruence. }
    split; [exact Bx|]. split; [exact By|]. split; [exact Hgo'|].
    split; [cbn [aged graviton_life]; now rewrite Hlife|].
    rewrite (still_active_eq w' g (aged go) (x0 + 0 + fx) (x1 + 0 + fy))
      by (cbn [aged graviton_position]; assumption).
    cbn [aged graviton_life]. rewrite Hlife.
    assert (Hexp : expired (Configuration.GRAVITON_LIFE - 1) (x0 + 0 + fx) (x1 + 0 + fy)
                   = false).
    { apply expired_false. unfold Configuration.GRAVITON_FORCE_ADDITION_RANGE in Bx, By.
      assert (E : 10 / 2 == 5) by reflexivity. rewrite E in Bx, By.
      apply Qabs_Qle_condition in Bx, By.
      unfold within, Configuration.PARTICLE_SIZE in B0, B1.
      split; [reflexivity|]. repeat split; lra. }
    rewrite Hexp.
    rewrite (ph_particles _ _ _ Ph), Hpsm, Hps.
    unfold first_hit. cbn [List.find].
    rewrite <- Hcr. change (graviton_creator go) with (graviton_creator (aged go)).
    now rewrite (collides_creator w' g (aged go) Hgo'). }
  assert (Hsame : forall g, g ∈ gravitons w' <-> g ∈ gravitons wm).
  { intros g. rewrite (ph_gravitons _ _ _ Ph). split; [tauto|].
    intros Hg. split; [exact Hg|]. intros _.
    destruct (Hev g Hg) as (go & fx & fy & H). apply H. }
  exists wm, w', (x0 + 0), (x1 + 0), 0, 0.
  split; [exact E1|]. split; [exact Hrun|]. split; [exact Hatm|].
  split; [rewrite Hgsm; exact Hlen|].
  split.
  { intros g Hg. destruct (Hev g Hg) as (go & fx & fy & H).
    exists go, fx, fy. tauto. }
  split; [exact Hsame|].
  rewrite <- Hlen, <- Hgsm. apply Permutation_length.
  apply NoDup_Permutation; [apply (wf_nodup w' Hwf')|apply (wf_nodup wm Hwfm)|exact Hsame].
Qed.

Lemma first_frame_of_one_particle_witness :
  well_formed (one_particle_world [350; 350] [0; 0]) /\
  particles (one_particle_world [350; 350] [0; 0]) = [1%positive] /\
  gravitons (one_particle_world [350; 350] [0; 0]) = [] /\
  particle_at (one_particle_world [350; 350] [0; 0]) 1%positive
    (mkParticle 1 2 [200; 150; 100] 10) [350; 350] [0; 0] /\
  within Configuration.PARTICLE_SIZE (700 - Configuration.PARTICLE_SIZE) 350 /\
  (forall n, 0 <= rng_random (one_particle_world [350; 350] [0; 0]) n /\
             rng_random (one_particle_world [350; 350] [0; 0]) n < 1) /\
  exists wm w' y0 y1 g0 g1,
    (screen_fill >> particle_phase) (one_particle_world [350; 350] [0; 0])
      = Some (tt, wm) /\
    frame (one_particle_world [350; 350] [0; 0]) = Some (tt, w') /\
    particle_at wm 1%positive (mkParticle 1 2 [200; 150; 100] 10) [y0; y1] [g0; g1] /\
    length (gravitons wm) = Configuration.GRAVITON_CREATION_COUNT /\
    (forall g, g ∈ gravitons wm ->
       exists go fx fy,
         graviton_at wm g go [y0; y1] [fx; fy] /\
         graviton_creator go = 1%positive /\
         graviton_life go = Configuration.GRAVITON_LIFE /\
         graviton_position go <> 1%positive /\
         Qabs (fx - g0) <= Configuration.GRAVITON_FORCE_ADDITION_RANGE / 2 /\
         Qabs (fy - g1) <= Configuration.GRAVITON_FORCE_ADDITION_RANGE / 2 /\
         graviton_objs w' !! g = Some (aged go) /\
         graviton_life (aged go) = 99%Z) /\
    (forall g, g ∈ gravitons w' <-> g ∈ gravitons wm) /\
    length (gravitons w') = Configuration.GRAVITON_CREATION_COUNT.
Proof.
  pose proof (one_particle_world_wf 350 350 0 0) as Hwf.
  assert (Hat : particle_at (one_particle_world [350; 350] [0; 0]) 1%positive
                  (mkParticle 1 2 [200; 150; 100] 10) [350; 350] [0; 0]).
  { repeat split; try reflexivity. simpl. lia. }
  assert (B : within Configuration.PARTICLE_SIZE (700 - Configuration.PARTICLE_SIZE) 350)
    by (split; vm_compute; discriminate).
  assert (Hrng : forall n, 0 <= rng_random (one_particle_world [350; 350] [0; 0]) n /\
                           rng_random (one_particle_world [350; 350] [0; 0]) n < 1).
  { intros n. split; [vm_compute; discriminate | reflexivity]. }
  split; [exact Hwf|]. split; [reflexivity|]. split; [reflexivity|].
  split; [exact Hat|]. split; [exact B|]. split; [exact Hrng|].
  exact (first_frame_of_one_particle _ 1%positive _ 350 350
           Hwf eq_refl eq_refl Hat eq_refl B B Hrng).
Defined.

(** At the end of that first frame the gravitons no longer have the life
    they were created with: in the sample world, all thirty are active and
    each has 99 frames left, not 100. *)
Lemma life_after_first_frame_is_99 :
  exists w',
    frame (one_particle_world [350; 350] [0; 0]) = Some (tt, w') /\
    length (gravitons w') = 30%nat /\
    Forall (fun g => exists go,
              graviton_objs w' !! g = Some go /\
              graviton_life go = 99%Z /\
              graviton_life go <> Configuration.GRAVITON_LIFE)
           (gravitons w').
Proof.
  destruct (frame (one_particle_world [350; 350] [0; 0])) as [[[] w']|] eqn:E;
    [|vm_compute in E; discriminate].
  exists w'. split; [reflexivity|].
  assert (Hb : forallb (fun g => match graviton_objs w' !! g with
                                 | Some go => (graviton_life go =? 99)%Z
                                 | None => false
                                 end) (gravitons w') = true
               /\ length (gravitons w') = 30%nat).
  { vm_compute in E. injection E as <-. split; vm_compute; reflexivity. }
  destruct Hb as [Hb Hlen]. split; [exact Hlen|].
  apply Forall_forall. intros g Hg.
  rewrite forallb_forall in Hb. specialize (Hb g).
  rewrite <- list_elem_of_In in Hb. specialize (Hb Hg).
  destruct (graviton_objs w' !! g) as [go|]; [|discriminate].
  apply Z.eqb_eq in Hb. exists go. split; [reflexivity|]. split; [exact Hb|].
  rewrite Hb. discriminate.
Qed.

(** * The program as a whole *)

(** X1.  Started with any generator that behaves as [random.random] does,
    [main] runs any number of frames without raising, and after every frame
    the world is well formed, there are [PARTICLE_COUNT] particles, and
    every particle has the configured size and lies inside the arena, at
    least its radius away from each wall. *)
Theorem main_spec n rnd rint :
  (forall k, 0 <= rnd k /\ rnd k < 1) ->
  exists w,
    main n (empty_world rnd rint) = Some (tt, w) /\
    well_formed w /\
    in_arena w /\
    length (particles w) = Configuration.PARTICLE_COUNT.
Proof.
  intros Hrnd.
  destruct (setup_spec rnd rint Hrnd) as (w0 & Hsetup & Hwf0 & Har0 & _ & Hlen & _).
  destruct (run_total n w0 Hwf0) as (w & Hrun & Hwf).
  destruct (run_in_arena n w0 w Hwf0 Har0 Hrun) as [Har _].
  exists w. unfold main. rewrite (bind_run _ _ _ _ _ Hsetup).
  split; [exact Hrun|]. split; [exact Hwf|]. split; [exact Har|].
  rewrite <- Hlen. clear - Hrun Hwf0.
  revert w0 w Hwf0 Hrun. induction n as [|n IH]; intros w0 w Hwf0 Hrun.
  - change (Some (tt, w0) = Some (tt, w)) in Hrun. now injection Hrun as <-.
  - cbn [run] in Hrun.
    destruct (frame_spec w0 Hwf0)
      as (news & wm & w1 & Hf & _ & _ & _ & Hwf1 & Hps & _ & _ & _ & _ & _ & _ & Ph & _).
    rewrite (bind_run _ _ _ _ _ Hf) in Hrun.
    rewrite (IH w1 w Hwf1 Hrun), (ph_particles _ _ _ Ph), Hps. reflexivity.
Qed.

(** * Impulses are not clamped *)

(** One frame from [impulse_world]: particle 1 is updated with its force at
    the limit, then the graviton of particle 2 reaches it and hands it an
    impulse of 0.05 to the right; the frame ends with an x-force of 2.05. *)
Lemma impulse_exceeds_force_limit :
  exists w' f0 f1,
    frame impulse_world = Some (tt, w') /\
    lists w' !! 2%positive = Some [f0; f1] /\
    f0 == 2 + (1 # 20) /\
    ~ Qabs f0 <= Configuration.FORCE_LIMIT.
Proof.
  destruct (frame impulse_world) as [[[] w']|] eqn:E; [|vm_compute in E; discriminate].
  assert (Hf : lists w' !! 2%positive = Some [205 # 100; 0 # 100]).
  { vm_compute in E. injection E as <-. reflexivity. }
  exists w', (205 # 100), (0 # 100).
  split; [reflexivity|]. split; [exact Hf|].
  split; [reflexivity|]. vm_compute. intros H. now apply H.
Qed.

(** * Further properties of the code *)

(** ** [Particle.__init__] *)

Lemma randint_range a b r : (a <= b)%Z -> (a <= a + r mod (b - a + 1) <= b)%Z.
Proof.
  intros H. pose proof (Z.mod_pos_bound r (b - a + 1)) as Hm. lia.
Qed.

(** X2.  [Particle.__init__] keeps the caller's [forces] list itself, not a
    copy, builds a new position list inside the spawn zone
    [[x_min, y_min, x_max, y_max]], draws three colour components between
    [PARTICLE_COLOR_MIN] and [PARTICLE_COLOR_MIN + PARTICLE_COLOR_RANGE],
    stores the size it is given, and changes no existing list. *)
Theorem Particle_init_spec w forces fv z0 z1 z2 z3 size :
  lists w !! forces = Some fv ->
  z0 <= z2 -> z1 <= z3 ->
  rng_ok w ->
  exists self p x0 x1 c0 c1 c2 w',
    Particle.init forces [z0; z1; z2; z3] size w = Some (self, w') /\
    particle_objs w !! self = None /\
    particle_objs w' !! self = Some p /\
    particle_forces p = forces /\
    lists w !! particle_position p = None /\
    lists w' !! particle_position p = Some [x0; x1] /\
    within z0 z2 x0 /\ within z1 z3 x1 /\
    particle_size p = size /\
    particle_color p = [inject_Z c0; inject_Z c1; inject_Z c2] /\
    (100 <= c0 <= 255)%Z /\ (100 <= c1 <= 255)%Z /\ (100 <= c2 <= 255)%Z /\
    (forall l v, lists w !! l = Some v -> lists w' !! l = Some v) /\
    (forall q qo, particle_objs w !! q = Some qo -> particle_objs w' !! q = Some qo).
Proof.
  intros Hf H02 H13 Hrng.
  pose proof (fresh_lists_None w) as Hx.
  assert (Hp : particle_objs w !! fresh (dom (particle_objs w)) = None)
    by apply not_elem_of_dom, is_fresh.
  destruct (Hrng (rng_pos w)) as [Ha0 Ha1].
  destruct (Hrng (S (rng_pos w))) as [Hb0 Hb1].
  eexists _, _, _, _, _, _, _, _.
  split.
  { unfold Particle.init. do 6 mstep.
    mrun ltac:(apply list_alloc_run).
    do 3 (mrun ltac:(apply random_randint_run)).
    apply particle_alloc_run. }
  wsimpl. cbn [particle_forces particle_position particle_size particle_color].
  split; [exact Hp|]. split; [apply lookup_insert_eq|]. split; [reflexivity|].
  split; [exact Hx|]. split; [apply lookup_insert_eq|].
  split; [unfold within; split; nra|]. split; [unfold within; split; nra|].
  split; [reflexivity|]. split; [reflexivity|].
  unfold Configuration.PARTICLE_COLOR_MIN, Configuration.PARTICLE_COLOR_RANGE.
  split; [pose proof (randint_range 0 155 (rng_randint w (S (S (rng_pos w))))); lia|].
  split; [pose proof (randint_range 0 155 (rng_randint w (S (S (S (rng_pos w)))))); lia|].
  split; [pose proof (randint_range 0 155 (rng_randint w (S (S (S (S (rng_pos w))))))); lia|].
  split.
  - intros l v E. rewrite lookup_insert_ne by congruence. exact E.
  - intros q qo E. rewrite lookup_insert_ne by congruence. exact E.
Qed.

Lemma Particle_init_spec_witness :
  lists (one_particle_world [350; 350] [0; 0]) !! 2%positive = Some [0; 0] /\
  10 <= 690 /\
  rng_ok (one_particle_world [350; 350] [0; 0]) /\
  exists self p x0 x1 c0 c1 c2 w',
    Particle.init 2%positive [10; 10; 690; 690] 10
      (one_particle_world [350; 350] [0; 0]) = Some (self, w') /\
    particle_objs (one_particle_world [350; 350] [0; 0]) !! self = None /\
    particle_objs w' !! self = Some p /\
    particle_forces p = 2%positive /\
    lists (one_particle_world [350; 350] [0; 0]) !! particle_position p = None /\
    lists w' !! particle_position p = Some [x0; x1] /\
    within 10 690 x0 /\ within 10 690 x1 /\
    particle_size p = 10 /\
    particle_color p = [inject_Z c0; inject_Z c1; inject_Z c2] /\
    (100 <= c0 <= 255)%Z /\ (100 <= c1 <= 255)%Z /\ (100 <= c2 <= 255)%Z /\
    (forall l v, lists (one_particle_world [350; 350] [0; 0]) !! l = Some v ->
                 lists w' !! l = Some v) /\
    (forall q qo, particle_objs (one_particle_world [350; 350] [0; 0]) !! q = Some qo ->
                  particle_objs w' !! q = Some qo).
Proof.
  assert (H1 : 10 <= 690) by (vm_compute; discriminate).
  assert (H2 : rng_ok (one_particle_world [350; 350] [0; 0])).
  { intros n. split; [vm_compute; discriminate | reflexivity]. }
  split; [reflexivity|]. split; [exact H1|]. split; [exact H2|].
  exact (Particle_init_spec (one_particle_world [350; 350] [0; 0]) 2%positive [0; 0]
           10 10 690 690 10 eq_refl H1 H1 H2).
Defined.

(** X3.  A spawn zone with fewer than four entries makes
    [Particle.__init__] raise: no particle is built. *)
Theorem Particle_init_short_zone w forces spawn_zone size :
  (length spawn_zone < 4)%nat ->
  Particle.init forces spawn_zone size w = None.
Proof.
  intros H. unfold Particle.init.
  destruct spawn_zone as [|z0 [|z1 [|z2 [|z3 zs]]]]; cbn in H; try lia; reflexivity.
Qed.

Lemma Particle_init_short_zone_witness :
  (length [10; 10; 690] < 4)%nat /\
  Particle.init 2%positive [10; 10; 690] 10 (one_particle_world [350; 350] [0; 0]) = None.
Proof.
  assert (H : (length [10; 10; 690] < 4)%nat) by (simpl; lia).
  split; [exact H|].
  exact (Particle_init_short_zone (one_particle_world [350; 350] [0; 0]) 2%positive
           [10; 10; 690] 10 H).
Defined.

(** ** The statements of [main] before the loop *)

Lemma collect_at_rest n :
  forall w acc,
    well_formed (set_particles (fun _ => acc) w) ->
    rng_ok w ->
    NoDup acc ->
    (forall p, p ∈ acc -> spawned_at_rest w p) ->
    exists ps w',
      collect n new_particle w = Some (ps, w') /\
      length ps = n /\
      NoDup (acc ++ ps) /\
      (forall p, p ∈ acc ++ ps -> spawned_at_rest w' p).
Proof.
  induction n as [|n IH]; intros w acc Hwf Hrng Hnd Hrest.
  - exists [], w. rewrite app_nil_r. split; [reflexivity|]. split; [reflexivity|].
    split; assumption.
  - destruct (new_particle_spec w acc Hwf)
      as (p & po & w1 & Hrun & Hwf1 & Hps & Hgs & Hgo & Hr & Hnew & Hobjs & Hlists
          & Epo & Esize & Ef & Ex).
    assert (Hrng1 : rng_ok w1) by (unfold rng_ok; now rewrite Hr).
    assert (Hfresh : p ∉ acc).
    { intros Hin. destruct (Hrest p Hin) as (qo & ? & ? & Eq & _). congruence. }
    assert (Hnd1 : NoDup (acc ++ [p])).
    { apply NoDup_app. split; [exact Hnd|]. split.
      - intros q Hq Hq'. apply list_elem_of_singleton in Hq'. now subst q.
      - apply NoDup_singleton. }
    assert (Hrest1 : forall q, q ∈ acc ++ [p] -> spawned_at_rest w1 q).
    { intros q Hq. apply elem_of_app in Hq as [Hq|Hq].
      - destruct (Hrest q Hq) as (qo & x0 & x1 & Eq & Eqx & Eqf & Rest).
        exists qo, x0, x1. split; [now apply Hobjs|]. split; [now apply Hlists|].
        split; [now apply Hlists|]. exact Rest.
      - apply list_elem_of_singleton in Hq. subst q.
        destruct (Hrng (rng_pos w)) as [Ha0 Ha1].
        destruct (Hrng (S (rng_pos w))) as [Hb0 Hb1].
        eexists po, _, _. split; [exact Epo|]. split; [exact Ex|].
        split; [exact Ef|]. split; [exact Esize|]. split; split; lra. }
    destruct (IH w1 (acc ++ [p]) Hwf1 Hrng1 Hnd1 Hrest1)
      as (ps & w' & Hrun' & Hlen & Hnd' & Hrest').
    exists (p :: ps), w'. cbn [collect].
    rewrite (bind_run _ _ _ _ _ Hrun), (bind_run _ _ _ _ _ Hrun').
    rewrite <- app_assoc in Hnd', Hrest'. cbn [app] in Hnd', Hrest'.
    split; [reflexivity|]. split; [cbn [length]; now rewrite Hlen|].
    split; assumption.
Qed.

(** X4.  Whatever the random generator returns in [0, 1), the statements of
    [main] before the loop build [PARTICLE_COUNT] pairwise different
    particles and no graviton; every particle is at rest (forces [0, 0]),
    has the configured size and lies in the spawn zone, [PARTICLE_SPAWN_OFFSET]
    away from every border of the screen, and no two attributes of these
    particles refer to the same list. *)
Theorem setup_particles_at_rest rnd rint :
  (forall n, 0 <= rnd n /\ rnd n < 1) ->
  exists w,
    setup (empty_world rnd rint) = Some (tt, w) /\
    well_formed w /\
    length (particles w) = Configuration.PARTICLE_COUNT /\
    NoDup (particles w) /\
    gravitons w = [] /\
    (forall p, p ∈ particles w -> spawned_at_rest w p).
Proof.
  intros Hrnd.
  destruct (collect_at_rest Configuration.PARTICLE_COUNT (empty_world rnd rint) [])
    as (ps & w' & Hrun & Hlen & Hnd & Hrest).
  - apply empty_world_wf.
  - exact Hrnd.
  - constructor.
  - intros p Hp. inversion Hp.
  - cbn [app] in Hnd, Hrest.
    assert (Hsetup : setup (empty_world rnd rint)
                     = Some (tt, set_gravitons (fun _ => [])
                                   (set_particles (fun _ => ps) w'))).
    { unfold setup. rewrite (bind_run _ _ _ _ _ Hrun). do 1 mstep.
      now rewrite modify_run. }
    destruct (setup_spec rnd rint Hrnd) as (w0 & Hrun0 & Hwf0 & _).
    rewrite Hsetup in Hrun0. injection Hrun0 as <-.
    eexists. split; [exact Hsetup|].
    split; [exact Hwf0|].
    split; [exact Hlen|]. split; [exact Hnd|]. split; [reflexivity|]. exact Hrest.
Qed.

Lemma setup_particles_at_rest_witness :
  exists w,
    setup (empty_world (fun _ => 1 # 2) (fun _ => 0%Z)) = Some (tt, w) /\
    well_formed w /\
    length (particles w) = Configuration.PARTICLE_COUNT /\
    NoDup (particles w) /\
    gravitons w = [] /\
    (forall p, p ∈ particles w -> spawned_at_rest w p).
Proof.
  apply (setup_particles_at_rest (fun _ => 1 # 2) (fun _ => 0%Z)).
  intros n. split; [vm_compute; discriminate | reflexivity].
Defined.

(** ** The methods of [Graviton] *)

(** X5.  [Graviton.apply_force] does not write into the list [self.forces]
    refers to: it builds a new list holding the sums and rebinds the
    attribute to it.  The old list keeps its values, the position and every
    other attribute stay as they are, and so does every list that existed
    before the call. *)
Theorem Graviton_apply_force_rebinds w self g fx fy a0 a1 :
  graviton_objs w !! self = Some g ->
  lists w !! graviton_forces g = Some [fx; fy] ->
  exists g' w',
    Graviton.apply_force self [a0; a1] w = Some (tt, w') /\
    graviton_objs w' !! self = Some g' /\
    lists w !! graviton_forces g' = None /\
    lists w' !! graviton_forces g' = Some [fx + a0; fy + a1] /\
    lists w' !! graviton_forces g = Some [fx; fy] /\
    graviton_position g' = graviton_position g /\
    graviton_creator g' = graviton_creator g /\
    graviton_color g' = graviton_color g /\
    graviton_size g' = graviton_size g /\
    graviton_life g' = graviton_life g /\
    (forall l v, lists w !! l = Some v -> lists w' !! l = Some v) /\
    (forall h, h <> self -> graviton_objs w' !! h = graviton_objs w !! h) /\
    particle_objs w' = particle_objs w /\
    particles w' = particles w /\
    gravitons w' = gravitons w.
Proof.
  intros Hg Hf.
  pose proof (fresh_lists_None w) as Hx.
  eexists _, _. split.
  { unfold Graviton.apply_force. do 5 mstep.
    mrun ltac:(apply list_alloc_run).
    eapply graviton_write_run. wsimpl. exact Hg. }
  wsimpl. split; [apply lookup_insert_eq|].
  cbn [graviton_forces graviton_position graviton_creator graviton_color
       graviton_size graviton_life].
  split; [exact Hx|]. split; [apply lookup_insert_eq|].
  split; [rewrite lookup_insert_ne by congruence; exact Hf|].
  do 5 (split; [reflexivity|]).
  split; [intros l v E; rewrite lookup_insert_ne by congruence; exact E|].
  split; [intros h Hh; now rewrite lookup_insert_ne by congruence|].
  split; [reflexivity|]. split; reflexivity.
Qed.

Lemma Graviton_apply_force_rebinds_witness :
  graviton_objs impulse_world !! 1%positive = Some (mkGraviton 2 5 6 [50; 75; 100] 1 50) /\
  lists impulse_world !! 6%positive = Some [-5; 0] /\
  exists g' w',
    Graviton.apply_force 1%positive [1; -1] impulse_world = Some (tt, w') /\
    graviton_objs w' !! 1%positive = Some g' /\
    lists w' !! graviton_forces g' = Some [-5 + 1; 0 + -1] /\
    lists w' !! 6%positive = Some [-5; 0].
Proof.
  split; [reflexivity|]. split; [reflexivity|].
  destruct (Graviton_apply_force_rebinds impulse_world 1%positive
              (mkGraviton 2 5 6 [50; 75; 100] 1 50) (-5) 0 1 (-1) eq_refl eq_refl)
    as (g' & w' & Hrun & Hg & _ & Hf & Hold & _).
  exists g', w'. split; [exact Hrun|]. split; [exact Hg|]. split; [exact Hf|]. exact Hold.
Defined.



(** ** Drawing *)

(** [int(x)] is the integer next to [x] on the side of zero. *)
Lemma py_int_towards_zero x :
  (0 <= x -> 0 <= inject_Z (py_int x) /\
             inject_Z (py_int x) <= x /\ x < inject_Z (py_int x) + 1) /\
  (x <= 0 -> inject_Z (py_int x) <= 0 /\
             x <= inject_Z (py_int x) /\ inject_Z (py_int x) - 1 < x).
Proof.
  destruct x as [n d]. unfold py_int, Qle, Qlt, Qminus, Qplus, Qopp, inject_Z.
  cbn [Qnum Qden]. rewrite !Z.mul_1_r, ?Pos.mul_1_l, ?Pos.mul_1_r.
  pose proof (Z.quot_rem' n (Z.pos d)) as E.
  split; intros H.
  - assert (Hn : (0 <= n)%Z) by lia.
    pose proof (Z.rem_bound_pos_pos n (Z.pos d) ltac:(lia) Hn).
    pose proof (Z.quot_pos n (Z.pos d) Hn ltac:(lia)).
    set (q := Z.quot n (Z.pos d)) in *. set (r := Z.rem n (Z.pos d)) in *.
    clearbody q r. split; [lia|]. split; lia.
  - assert (Hn : (n <= 0)%Z) by lia.
    pose proof (Z.rem_bound_pos_neg n (Z.pos d) ltac:(lia) Hn).
    assert (Hq : (Z.quot n (Z.pos d) <= 0)%Z).
    { rewrite <- (Z.opp_involutive n), Z.quot_opp_l by lia.
      pose proof (Z.quot_pos (- n) (Z.pos d) ltac:(lia) ltac:(lia)). lia. }
    set (q := Z.quot n (Z.pos d)) in *. set (r := Z.rem n (Z.pos d)) in *.
    clearbody q r. split; [lia|]. split; lia.
Qed.

Lemma py_int_near x :
  Qabs (x - inject_Z (py_int x)) < 1 /\ Qabs (inject_Z (py_int x)) <= Qabs x.
Proof.
  pose proof (py_int_towards_zero x) as [A B].
  destruct (Qlt_le_dec x 0) as [L|L].
  - destruct B as (? & ? & ?); [lra|]. split.
    + apply Qabs_Qlt_condition. split; lra.
    + rewrite (Qabs_neg x) by lra. apply Qabs_Qle_condition. split; lra.
  - destruct A as (? & ? & ?); [lra|]. split.
    + apply Qabs_Qlt_condition. split; lra.
    + rewrite (Qabs_pos x) by lra. apply Qabs_Qle_condition. split; lra.
Qed.

(** X7.  [Particle.draw] reads the particle and writes nothing but the
    picture: it adds exactly one circle, of the particle's colour and size,
    whose centre is the position with both coordinates truncated towards
    zero, so less than one pixel away from the position. *)
Theorem Particle_draw_spec w self p x0 x1 f0 f1 :
  particle_at w self p [x0; x1] [f0; f1] ->
  exists c,
    Particle.draw self w = Some (tt, set_screen (fun s => s ++ [c]) w) /\
    circle_color c = particle_color p /\
    circle_radius c = particle_size p /\
    Qabs (x0 - inject_Z (circle_x c)) < 1 /\
    Qabs (x1 - inject_Z (circle_y c)) < 1 /\
    Qabs (inject_Z (circle_x c)) <= Qabs x0 /\
    Qabs (inject_Z (circle_y c)) <= Qabs x1.
Proof.
  intros H. eexists. split; [exact (Particle_draw_run _ _ _ _ _ _ _ H)|].
  cbn [circle_color circle_radius circle_x circle_y].
  split; [reflexivity|]. split; [reflexivity|].
  pose proof (py_int_near x0) as [A0 B0].
  pose proof (py_int_near x1) as [A1 B1].
  split; [exact A0|]. split; [exact A1|]. split; [exact B0|]. exact B1.
Qed.

Lemma Particle_draw_spec_witness :
  particle_at (one_particle_world [5; 350] [3; -7]) 1%positive
    (mkParticle 1 2 [200; 150; 100] 10) [5; 350] [3; -7] /\
  exists c,
    Particle.draw 1%positive (one_particle_world [5; 350] [3; -7])
    = Some (tt, set_screen (fun s => s ++ [c]) (one_particle_world [5; 350] [3; -7])) /\
    circle_color c = [200; 150; 100] /\
    circle_radius c = 10 /\
    Qabs (5 - inject_Z (circle_x c)) < 1 /\
    Qabs (350 - inject_Z (circle_y c)) < 1 /\
    Qabs (inject_Z (circle_x c)) <= Qabs 5 /\
    Qabs (inject_Z (circle_y c)) <= Qabs 350.
Proof.
  assert (H : particle_at (one_particle_world [5; 350] [3; -7]) 1%positive
                (mkParticle 1 2 [200; 150; 100] 10) [5; 350] [3; -7]).
  { split; [reflexivity|]. split; [reflexivity|]. split; [reflexivity|]. discriminate. }
  split; [exact H|].
  exact (Particle_draw_spec _ _ _ _ _ _ _ H).
Defined.

(** X8.  [Graviton.draw] likewise adds exactly one circle, of the
    graviton's colour and size, centred at the position truncated towards
    zero, and changes nothing else; a graviton left of or above the screen
    is therefore drawn up to one pixel closer to it. *)
Theorem Graviton_draw_spec w self g x y fx fy :
  graviton_at w self g [x; y] [fx; fy] ->
  exists c,
    Graviton.draw self w = Some (tt, set_screen (fun s => s ++ [c]) w) /\
    circle_color c = graviton_color g /\
    circle_radius c = graviton_size g /\
    Qabs (x - inject_Z (circle_x c)) < 1 /\
    Qabs (y - inject_Z (circle_y c)) < 1 /\
    Qabs (inject_Z (circle_x c)) <= Qabs x /\
    Qabs (inject_Z (circle_y c)) <= Qabs y.
Proof.
  intros H. eexists. split; [exact (Graviton_draw_run _ _ _ _ _ _ _ H)|].
  cbn [circle_color circle_radius circle_x circle_y].
  split; [reflexivity|]. split; [reflexivity|].
  pose proof (py_int_near x) as [A0 B0].
  pose proof (py_int_near y) as [A1 B1].
  split; [exact A0|]. split; [exact A1|]. split; [exact B0|]. exact B1.
Qed.

Lemma Graviton_draw_spec_witness :
  graviton_at impulse_world 1%positive (mkGraviton 2 5 6 [50; 75; 100] 1 50)
    [110; 100] [-5; 0] /\
  exists c,
    Graviton.draw 1%positive impulse_world
    = Some (tt, set_screen (fun s => s ++ [c]) impulse_world) /\
    circle_color c = [50; 75; 100] /\
    circle_radius c = 1 /\
    Qabs (110 - inject_Z (circle_x c)) < 1 /\
    Qabs (100 - inject_Z (circle_y c)) < 1 /\
    Qabs (inject_Z (circle_x c)) <= Qabs 110 /\
    Qabs (inject_Z (circle_y c)) <= Qabs 100.
Proof.
  assert (H : graviton_at impulse_world 1%positive (mkGraviton 2 5 6 [50; 75; 100] 1 50)
                [110; 100] [-5; 0]).
  { split; [reflexivity|]. split; [reflexivity|]. split; [reflexivity|]. discriminate. }
  split; [exact H|].
  exact (Graviton_draw_spec _ _ _ _ _ _ _ H).
Defined.

(** ** The methods of [Particle] *)



(** ** The gravitons during a frame *)

(** The first loop of a frame does not touch the gravitons that were there
    before it. *)
Lemma particle_loop_keeps ps :
  forall w w',
    well_formed w ->
    (forall p, p ∈ ps -> p ∈ particles w) ->
    foreach ps particle_step w = Some (tt, w') ->
    forall g go pos frc,
      g ∈ gravitons w ->
      graviton_at w g go pos frc ->
      g ∈ gravitons w' /\ graviton_at w' g go pos frc.
Proof.
  induction ps as [|p ps IH]; intros w w' Hwf Hps Hrun g go pos frc Hg Hat.
  - cbn [foreach] in Hrun. injection Hrun as <-. now split.
  - assert (Hin : p ∈ particles w) by (apply Hps; left).
    destruct (wf_particle_at w p Hwf Hin)
      as (po & x0 & x1 & f0 & f1 & c0 & c1 & c2 & Hpat & _).
    destruct (particle_step_spec w p po x0 x1 f0 f1 Hwf Hin Hpat)
      as (news1 & w1 & Hrun1 & Hwf1 & Hpre1 & Hgs1 & _).
    cbn [foreach] in Hrun. rewrite (bind_run _ _ _ _ _ Hrun1) in Hrun.
    assert (Hps1 : forall q, q ∈ ps -> q ∈ particles w1).
    { intros q Hq. rewrite (pre_particles _ _ Hpre1). apply Hps. now right. }
    assert (Hg1 : g ∈ gravitons w1) by (rewrite Hgs1; apply elem_of_app; now left).
    assert (Hat1 : graviton_at w1 g go pos frc).
    { apply (preserves_graviton_at _ _ _ _ _ _ Hpre1).
      destruct Hat as (Eg & Ex & Ef & Ene).
      destruct Hpat as (Ep & _).
      destruct (wf_graviton_particle w g go p po Hwf Hg Hin Eg Ep) as (N1 & N2 & N3 & N4).
      unfold moved. split; [exact Eg|].
      split; [wsimpl; rewrite !lookup_insert_ne by congruence; exact Ex|].
      split; [wsimpl; rewrite !lookup_insert_ne by congruence; exact Ef|]. exact Ene. }
    exact (IH w1 w' Hwf1 Hps1 Hrun g go pos frc Hg1 Hat1).
Qed.

(** The second loop of a frame moves each graviton of its snapshot by its
    forces, ages it, and leaves its forces alone. *)
Lemma phase_flight wm w' g go x y fx fy :
  well_formed wm ->
  phased (gravitons wm) wm w' ->
  g ∈ gravitons wm ->
  graviton_at wm g go [x; y] [fx; fy] ->
  graviton_at w' g (aged go) [x + fx; y + fy] [fx; fy].
Proof.
  intros Hwf Ph Hg Hat.
  destruct (ph_each _ _ _ Ph g go x y fx fy Hg Hat) as (Eg' & Ex' & _).
  destruct Hat as (Eg & Ex & Ef & Ene).
  split; [exact Eg'|]. split; [exact Ex'|]. split; [|exact Ene].
  cbn [aged graviton_forces].
  rewrite (ph_lists _ _ _ Ph (graviton_forces go)); [exact Ef| |].
  - intros h ho Hh Eh. destruct (decide (h = g)) as [->|Hne].
    + assert (ho = go) by congruence. subst ho. congruence.
    + destruct (wf_graviton_graviton wm g go h ho Hwf Hg Hh (not_eq_sym Hne) Eg Eh)
        as (_ & _ & N & _). exact N.
  - intros p po Hp Ep.
    destruct (wf_graviton_particle wm g go p po Hwf Hg Hp Eg Ep) as (_ & _ & _ & N).
    exact N.
Qed.

Lemma frame_phases w w' :
  well_formed w ->
  frame w = Some (tt, w') ->
  exists news wm,
    foreach (particles w) particle_step (set_screen (fun _ => []) w) = Some (tt, wm) /\
    well_formed wm /\
    particles wm = particles w /\
    particle_objs wm = particle_objs w /\
    rng_random wm = rng_random w /\
    gravitons wm = gravitons w ++ news /\
    length news = (length (particles w) * Configuration.GRAVITON_CREATION_COUNT)%nat /\
    (forall g, g ∈ news -> graviton_objs w !! g = None) /\
    well_formed w' /\
    phased (gravitons wm) wm w'.
Proof.
  intros Hwf Hrun.
  destruct (frame_spec w Hwf)
    as (news & wm & w1 & Hrun1 & Hfirst & _ & Hwfm & Hwf1 & Hps & Hpo & Hr & _ & Hgs
        & Hlen & Hnew & Ph & _).
  rewrite Hrun in Hrun1. injection Hrun1 as <-.
  exists news, wm.
  split; [exact Hfirst|].
  do 6 (split; [assumption|]).
  split; [intros g Hg; apply (Hnew g Hg)|].
  split; assumption.
Qed.

(** A graviton that was active before a frame has, after it, moved by its
    forces and aged by one. *)
Lemma frame_flight w w' g go x y fx fy :
  well_formed w ->
  frame w = Some (tt, w') ->
  g ∈ gravitons w ->
  graviton_at w g go [x; y] [fx; fy] ->
  graviton_at w' g (aged go) [x + fx; y + fy] [fx; fy].
Proof.
  intros Hwf Hrun Hg Hat.
  destruct (frame_phases w w' Hwf Hrun)
    as (news & wm & Hfirst & Hwfm & _ & _ & _ & _ & _ & _ & _ & Ph).
  destruct (particle_loop_keeps (particles w) (set_screen (fun _ => []) w) wm
              (wf_screen_fill w Hwf) (fun p Hp => Hp) Hfirst g go [x; y] [fx; fy] Hg Hat)
    as (Hgm & Hatm).
  exact (phase_flight wm w' g go x y fx fy Hwfm Ph Hgm Hatm).
Qed.


(** X11.  One round of the second loop writes at most two lists: the
    position of its graviton and, when the graviton touches a particle, the
    forces of the first particle it touches, which is never its creator; in
    that case the graviton leaves [gravitons].  The round never moves a
    particle, never changes a [Particle] object or another graviton, never
    writes the graviton's own forces and never adds or removes another
    graviton. *)
Theorem graviton_step_footprint w g go x y fx fy :
  well_formed w ->
  g ∈ gravitons w ->
  graviton_at w g go [x; y] [fx; fy] ->
  exists w1,
    graviton_step g w = Some (tt, w1) /\
    particles w1 = particles w /\
    particle_objs w1 = particle_objs w /\
    (forall h, h <> g -> graviton_objs w1 !! h = graviton_objs w !! h) /\
    (forall h, h ∈ gravitons w1 -> h ∈ gravitons w) /\
    (forall h, h ∈ gravitons w -> h <> g -> h ∈ gravitons w1) /\
    lists w1 !! graviton_forces go = Some [fx; fy] /\
    (forall l, lists w1 !! l <> lists w !! l ->
       l = graviton_position go \/
       exists p po,
         first_hit (advanced w g go x y fx fy) g (particles w) = Some p /\
         p <> graviton_creator go /\
         particle_objs w !! p = Some po /\
         l = particle_forces po /\
         g ∉ gravitons w1).
Proof.
  intros Hwf Hin H.
  destruct (graviton_step_spec w g go x y fx fy Hwf Hin H) as (w1 & Hrun & Hwf1 & St).
  exists w1. split; [exact Hrun|].
  pose proof H as (Hg & Hx & Hf & Hne).
  split; [exact (st_particles _ _ _ _ _ _ _ _ St)|].
  split; [exact (st_particle_objs _ _ _ _ _ _ _ _ St)|].
  split.
  { intros h Hh. rewrite (st_graviton_objs _ _ _ _ _ _ _ _ St).
    now rewrite lookup_insert_ne by congruence. }
  split.
  { intros h Hh. destruct (st_gravitons _ _ _ _ _ _ _ _ St) as [[E _]|[E _]].
    - now rewrite <- E.
    - exact (py_remove_sub _ _ _ _ E Hh). }
  split.
  { intros h Hh Hhg. destruct (st_gravitons _ _ _ _ _ _ _ _ St) as [[E _]|[E _]].
    - now rewrite E.
    - exact (py_remove_keeps _ _ _ _ E Hh Hhg). }
  split.
  { rewrite (st_lists _ _ _ _ _ _ _ _ St); [exact Hf|congruence|].
    intros p po Hp Ep.
    destruct (wf_graviton_particle w g go p po Hwf Hin Hp Hg Ep) as (_ & _ & _ & N).
    exact N. }
  intros l Hl.
  destruct (decide (l = graviton_position go)) as [|Hlx]; [now left|right].
  rewrite (graviton_step_run _ _ _ _ _ _ _ H (wf_position_readable w Hwf)) in Hrun.
  destruct (py_remove_elem _ _ Hin) as [gs Hgs].
  set (adv := advanced w g go x y fx fy) in *.
  assert (Hadv_lists : lists adv !! l = lists w !! l).
  { subst adv. unfold advanced. wsimpl. now rewrite lookup_insert_ne by congruence. }
  destruct (expired (graviton_life go - 1) (x + fx) (y + fy)).
  - rewrite (gravitons_remove_run adv g gs Hgs) in Hrun. injection Hrun as <-.
    destruct Hl. exact Hadv_lists.
  - destruct (first_hit adv g (particles w)) as [p|] eqn:Ehit.
    + pose proof Ehit as Ehit'.
      apply List.find_some in Ehit' as [Hp Hcol]. apply list_elem_of_In in Hp.
      destruct (wf_particle_at w p Hwf Hp)
        as (po & px & py & pf0 & pf1 & c0 & c1 & c2 & Hpat & _).
      pose proof Hpat as (Epo & Epx & Epf & Epne).
      destruct (wf_graviton_particle w g go p po Hwf Hin Hp Hg Epo)
        as (Hs1 & Hs2 & Hs3 & Hs4).
      assert (Hpat1 : particle_at adv p po [px; py] [pf0; pf1]).
      { repeat split; try assumption.
        - subst adv. unfold advanced. wsimpl.
          rewrite lookup_insert_ne by congruence. exact Epx.
        - subst adv. unfold advanced. wsimpl.
          rewrite lookup_insert_ne by congruence. exact Epf. }
      unfold hit, impulse, resolution, Configuration.SCREEN_RESOLUTION in Hrun.
      rewrite (bind_run _ _ _ _ _
                 (Particle_apply_force_run _ _ _ _ _ _ _ _ _ 700 700 Hpat1)) in Hrun.
      match type of Hrun with
      | context [set_lists (insert (particle_forces po) ?V) adv] =>
          set (w2 := set_lists (insert (particle_forces po) V) adv) in *
      end.
      rewrite (gravitons_remove_run w2 g gs Hgs) in Hrun. injection Hrun as <-.
      exists p, po. split; [reflexivity|].
      split.
      { intros ->.
        pose proof (collides_creator adv g (aged go)) as Hc.
        cbn [aged graviton_creator] in Hc. rewrite Hc in Hcol; [discriminate|].
        subst adv. unfold advanced. wsimpl. apply lookup_insert_eq. }
      split; [exact Epo|].
      split.
      { destruct (decide (l = particle_forces po)) as [|Hlf]; [assumption|].
        destruct Hl. subst w2. wsimpl.
        rewrite lookup_insert_ne by congruence. exact Hadv_lists. }
      cbn [gravitons set_gravitons].
      exact (proj2 (py_remove_NoDup _ _ _ Hgs (wf_nodup w Hwf))).
    + injection Hrun as <-. destruct Hl. exact Hadv_lists.
Qed.

(** Well-formedness of a sample world, by running through its objects. *)
Ltac sample_wf :=
  split;
  [ let Hp := fresh "Hp" in
    intros ? Hp;
    repeat (apply elem_of_cons in Hp as [->|Hp]); try (inversion Hp; fail);
    (eexists; split; [reflexivity|];
     split; [eexists _, _; reflexivity|];
     split; [eexists _, _; reflexivity|reflexivity])
  | let Hg := fresh "Hg" in
    intros ? Hg;
    repeat (apply elem_of_cons in Hg as [->|Hg]); try (inversion Hg; fail);
    (eexists; split; [reflexivity|];
     split; eexists _, _; reflexivity)
  | apply NoDup_singleton
  | let A1 := fresh "A" in
    let A2 := fresh "A" in
    let O1 := fresh "O" in
    let O2 := fresh "O" in
    intros [?|?] s1 [?|?] s2 ? A1 A2 O1 O2; cbn in A1, A2;
    repeat (apply elem_of_cons in A1 as [->|A1]); try (inversion A1; fail);
    repeat (apply elem_of_cons in A2 as [->|A2]); try (inversion A2; fail);
    destruct s1, s2; vm_compute in O1, O2;
    first [ congruence | split; reflexivity ] ].

Lemma flight_world_wf : well_formed flight_world.
Proof. sample_wf. Qed.

Lemma impulse_world_wf : well_formed impulse_world.
Proof. sample_wf. Qed.


Lemma graviton_step_footprint_witness :
  well_formed impulse_world /\
  1%positive ∈ gravitons impulse_world /\
  graviton_at impulse_world 1%positive (mkGraviton 2 5 6 [50; 75; 100] 1 50)
    [110; 100] [-5; 0] /\
  exists w1,
    graviton_step 1%positive impulse_world = Some (tt, w1) /\
    particles w1 = particles impulse_world /\
    particle_objs w1 = particle_objs impulse_world /\
    lists w1 !! 6%positive = Some [-5; 0].
Proof.
  assert (Hat : graviton_at impulse_world 1%positive (mkGraviton 2 5 6 [50; 75; 100] 1 50)
                  [110; 100] [-5; 0]).
  { split; [reflexivity|]. split; [reflexivity|]. split; [reflexivity|]. discriminate. }
  assert (Hin : 1%positive ∈ gravitons impulse_world) by apply list_elem_of_here.
  split; [exact impulse_world_wf|]. split; [exact Hin|]. split; [exact Hat|].
  destruct (graviton_step_footprint impulse_world 1%positive
              (mkGraviton 2 5 6 [50; 75; 100] 1 50) 110 100 (-5) 0
              impulse_world_wf Hin Hat)
    as (w1 & Hrun & Hps & Hpo & _ & _ & _ & Hf & _).
  exists w1. split; [exact Hrun|]. split; [exact Hps|]. split; [exact Hpo|]. exact Hf.
Defined.

(** ** The gravitons between frames *)

Lemma spawn_force_bound f r :
  Qabs f <= Configuration.FORCE_LIMIT ->
  0 <= r -> r < 1 ->
  Qabs (f + (r - (1 # 2)) * Configuration.GRAVITON_FORCE_ADDITION_RANGE) <= 7.
Proof.
  unfold Configuration.FORCE_LIMIT, Configuration.GRAVITON_FORCE_ADDITION_RANGE.
  intros Hf H0 H1. apply Qabs_Qle_condition in Hf as [Hf1 Hf2].
  apply Qabs_Qle_condition. split; lra.
Qed.

(** The gravitons the first loop of a frame adds. *)
Lemma particle_loop_newborn ps :
  forall w w',
    well_formed w -> in_arena w -> rng_ok w ->
    (forall p, p ∈ ps -> p ∈ particles w) ->
    foreach ps particle_step w = Some (tt, w') ->
    forall g, g ∈ gravitons w' -> g ∉ gravitons w -> newborn w' g.
Proof.
  induction ps as [|p ps IH]; intros w w' Hwf Har Hrng Hps Hrun g Hg Hold.
  - cbn [foreach] in Hrun. injection Hrun as <-. contradiction.
  - assert (Hin : p ∈ particles w) by (apply Hps; left).
    destruct (wf_particle_at w p Hwf Hin)
      as (po & x0 & x1 & f0 & f1 & c0 & c1 & c2 & Hpat & _).
    destruct (particle_step_spec w p po x0 x1 f0 f1 Hwf Hin Hpat)
      as (news1 & w1 & Hrun1 & Hwf1 & Hpre1 & Hgs1 & _ & _ & Hsp1).
    pose proof (particle_step_in_arena w p po x0 x1 f0 f1 w1 Hwf Hin Hpat Hpre1 Har) as Har1.
    assert (Hrng1 : rng_ok w1).
    { unfold rng_ok. rewrite (pre_rng _ _ Hpre1). exact Hrng. }
    cbn [foreach] in Hrun. rewrite (bind_run _ _ _ _ _ Hrun1) in Hrun.
    assert (Hps1 : forall q, q ∈ ps -> q ∈ particles w1).
    { intros q Hq. rewrite (pre_particles _ _ Hpre1). apply Hps. now right. }
    destruct (decide (g ∈ gravitons w1)) as [Hg1|Hg1];
      [|exact (IH w1 w' Hwf1 Har1 Hrng1 Hps1 Hrun g Hg Hg1)].
    rewrite Hgs1 in Hg1. apply elem_of_app in Hg1 as [Hg1|Hg1]; [contradiction|].
    rewrite Forall_forall in Hsp1.
    destruct (Hsp1 g Hg1)
      as (_ & go & fx & fy & k & Hgat & Hcr & Hsz & Hlife & _ & _ & Efx & Efy).
    assert (Hg1' : g ∈ gravitons w1) by (rewrite Hgs1; apply elem_of_app; now right).
    destruct (particle_loop_keeps ps w1 w' Hwf1 Hps1 Hrun g go _ _ Hg1' Hgat) as (_ & Hgat').
    destruct (particle_loop_spec ps w1 Hwf1 Hps1) as (news2 & w2 & Hrun2 & _ & Hps2 & _).
    rewrite Hrun in Hrun2. injection Hrun2 as <-.
    destruct (Har p Hin) as (po' & y0 & y1 & Ep' & Ey & Esize & B0 & B1).
    pose proof Hpat as (Ep & Ex & _).
    assert (po' = po) by congruence. subst po'.
    assert (y0 = x0 /\ y1 = x1) as [-> ->] by (rewrite Ex in Ey; now injection Ey).
    change (rng_random (moved w po x0 x1 f0 f1)) with (rng_random w) in Efx, Efy.
    eexists go, _, _, fx, fy. split; [exact Hgat'|]. split; [exact Hsz|].
    split.
    { rewrite Hcr, Hps2, (pre_particles _ _ Hpre1). exact Hin. }
    split; [exact Hlife|].
    rewrite Esize.
    split.
    { apply updated_position_within; [|exact B0].
      unfold Configuration.FORCE_LIMIT, Configuration.PARTICLE_SIZE; lra. }
    split.
    { apply updated_position_within; [|exact B1].
      unfold Configuration.FORCE_LIMIT, Configuration.PARTICLE_SIZE; lra. }
    split.
    + rewrite Efx. apply spawn_force_bound; [apply updated_force_abs|apply Hrng..].
    + rewrite Efy. apply spawn_force_bound; [apply updated_force_abs|apply Hrng..].
Qed.

(** What a frame leaves of a graviton that the second loop has met and
    kept. *)
Lemma kept_in_flight w g go x y fx fy :
  graviton_at w g (aged go) [x; y] [fx; fy] ->
  graviton_size go = Configuration.GRAVITON_SIZE ->
  graviton_creator go ∈ particles w ->
  (graviton_life go <= Configuration.GRAVITON_LIFE)%Z ->
  Qabs fx <= 7 -> Qabs fy <= 7 ->
  still_active w g = true ->
  in_flight w g.
Proof.
  intros Hat Hsz Hcr Hlife Hfx Hfy Hact.
  pose proof Hat as (Eg & Ex & _).
  rewrite (still_active_eq w g (aged go) x y Eg Ex) in Hact.
  apply andb_true_iff in Hact as [Hexp Hhit].
  apply negb_true_iff, expired_false in Hexp as (L & X0 & X1 & Y0 & Y1).
  cbn [aged graviton_life] in L.
  exists (aged go), x, y, fx, fy. split; [exact Hat|].
  cbn [aged graviton_size graviton_creator graviton_life].
  split; [exact Hsz|]. split; [exact Hcr|].
  split; [unfold Configuration.GRAVITON_LIFE in *; lia|].
  split; [now split|]. split; [now split|].
  split; [exact Hfx|]. split; [exact Hfy|].
  destruct (first_hit w g (particles w)); [discriminate|reflexivity].
Qed.

Lemma frame_in_flight w w' :
  well_formed w -> in_arena w -> rng_ok w ->
  (forall g, g ∈ gravitons w -> in_flight w g) ->
  frame w = Some (tt, w') ->
  forall g, g ∈ gravitons w' -> in_flight w' g.
Proof.
  intros Hwf Har Hrng Hinv Hrun g Hg.
  destruct (frame_phases w w' Hwf Hrun)
    as (news & wm & Hfirst & Hwfm & Hpsm & _ & _ & Hgsm & _ & _ & Hwf' & Ph).
  apply (ph_gravitons _ _ _ Ph) in Hg as [Hgm Hact].
  specialize (Hact Hgm).
  assert (Hps' : particles w' = particles w).
  { rewrite (ph_particles _ _ _ Ph). exact Hpsm. }
  destruct (decide (g ∈ gravitons w)) as [Hold|Hnew].
  - destruct (Hinv g Hold)
      as (go & x & y & fx & fy & Hat & Hsz & Hcr & Hlife & _ & _ & Hfx & Hfy & _).
    pose proof (frame_flight w w' g go x y fx fy Hwf Hrun Hold Hat) as Hat'.
    apply (kept_in_flight w' g go _ _ fx fy Hat' Hsz); try assumption.
    + now rewrite Hps'.
    + lia.
  - destruct (particle_loop_newborn (particles w) (set_screen (fun _ => []) w) wm
                (wf_screen_fill w Hwf) Har Hrng (fun p Hp => Hp) Hfirst g Hgm Hnew)
      as (go & x & y & fx & fy & Hat & Hsz & Hcr & Hlife & _ & _ & Hfx & Hfy).
    pose proof (phase_flight wm w' g go x y fx fy Hwfm Ph Hgm Hat) as Hat'.
    apply (kept_in_flight w' g go _ _ fx fy Hat' Hsz); try assumption.
    + now rewrite (ph_particles _ _ _ Ph).
    + lia.
Qed.

Lemma run_in_flight n :
  forall w wn,
    well_formed w -> in_arena w -> rng_ok w ->
    (forall g, g ∈ gravitons w -> in_flight w g) ->
    run n w = Some (tt, wn) ->
    forall g, g ∈ gravitons wn -> in_flight wn g.
Proof.
  induction n as [|n IH]; intros w wn Hwf Har Hrng Hinv Hrun.
  - change (Some (tt, w) = Some (tt, wn)) in Hrun. injection Hrun as <-. exact Hinv.
  - cbn [run] in Hrun.
    destruct (frame_total w Hwf) as (w1 & Hframe & Hwf1).
    rewrite (bind_run _ _ _ _ _ Hframe) in Hrun.
    assert (Hone : run 1 w = Some (tt, w1)).
    { cbn [run]. now rewrite (bind_run _ _ _ _ _ Hframe). }
    destruct (run_in_arena 1 w w1 Hwf Har Hone) as [Har1 Hr1].
    assert (Hrng1 : rng_ok w1) by (unfold rng_ok; rewrite Hr1; exact Hrng).
    exact (IH w1 wn Hwf1 Har1 Hrng1 (frame_in_flight w w1 Hwf Har Hrng Hinv Hframe) Hrun).
Qed.

(** X12.  Whatever the random generator returns in [0, 1) and however many
    frames [main] runs, every graviton that is in [gravitons] at the end of
    a frame is on the screen, has between 1 and [GRAVITON_LIFE - 1] frames
    of life left, has forces of at most
    [FORCE_LIMIT + GRAVITON_FORCE_ADDITION_RANGE / 2 = 7] in absolute value
    on each axis, the size [GRAVITON_SIZE], a creator that is one of the
    particles, and overlaps no particle other than its creator. *)
Theorem main_gravitons_in_flight n rnd rint :
  (forall k, 0 <= rnd k /\ rnd k < 1) ->
  exists w,
    main n (empty_world rnd rint) = Some (tt, w) /\
    forall g, g ∈ gravitons w -> in_flight w g.
Proof.
  intros Hrnd.
  destruct (setup_spec rnd rint Hrnd) as (w0 & Hsetup & Hwf0 & Har0 & Hrng0 & _ & Hgs0).
  destruct (run_total n w0 Hwf0) as (w & Hrun & Hwf).
  exists w. unfold main. rewrite (bind_run _ _ _ _ _ Hsetup).
  split; [exact Hrun|].
  apply (run_in_flight n w0 w Hwf0 Har0 Hrng0); [|exact Hrun].
  intros g Hg. rewrite Hgs0 in Hg. inversion Hg.
Qed.

Lemma main_gravitons_in_flight_witness :
  (forall k, 0 <= sample_random k /\ sample_random k < 1) /\
  exists w,
    main 1 (empty_world sample_random (fun _ => 0%Z)) = Some (tt, w) /\
    length (gravitons w) = 90%nat /\
    (forall g, g ∈ gravitons w -> in_flight w g) /\
    exists g, g ∈ gravitons w /\ in_flight w g.
Proof.
  assert (Hrnd : forall k, 0 <= sample_random k /\ sample_random k < 1).
  { intros k. unfold sample_random, Qle, Qlt. cbn [Qnum Qden].
    pose proof (Nat.mod_upper_bound k 8). lia. }
  split; [exact Hrnd|].
  destruct (main_gravitons_in_flight 1 sample_random (fun _ => 0%Z) Hrnd)
    as (w & Hrun & Hinv).
  assert (Hlen : length (gravitons w) = 90%nat).
  { assert (E : option_map (fun r => length (gravitons (snd r)))
                  (main 1 (empty_world sample_random (fun _ => 0%Z))) = Some 90%nat)
      by (vm_compute; reflexivity).
    rewrite Hrun in E. cbn [option_map snd] in E. now injection E. }
  exists w. split; [exact Hrun|]. split; [exact Hlen|]. split; [exact Hinv|].
  destruct (gravitons w) as [|g gs] eqn:Egs; [discriminate Hlen|].
  exists g. split; [left|]. apply Hinv. left.
Defined.

(** ** How many gravitons there are *)

(** A list without duplicates whose elements fall into classes of at most
    [c] elements, one class for each key of [ks]. *)
Lemma length_by_key (key : positive -> option Z) (c : nat) (ks : list Z) :
  forall l,
    NoDup l ->
    (forall x, x ∈ l -> exists k, k ∈ ks /\ key x = Some k) ->
    (forall k, (length (filter (fun x => key x = Some k) l) <= c)%nat) ->
    (length l <= c * length ks)%nat.
Proof.
  induction ks as [|k ks IH]; intros l Hnd Hkey Hc.
  - destruct l as [|x l]; [cbn; lia|].
    destruct (Hkey x ltac:(left)) as (k & Hk & _). inversion Hk.
  - pose proof (Permutation_length (filter_app_complement (fun x => key x = Some k) l)) as E.
    rewrite length_app in E.
    assert (H2 : (length (filter (fun x => ~ key x = Some k) l) <= c * length ks)%nat).
    { apply IH.
      - now apply NoDup_filter.
      - intros x Hx. apply list_elem_of_filter in Hx as [Hne Hx].
        destruct (Hkey x Hx) as (j & Hj & Ej).
        apply elem_of_cons in Hj as [->|Hj]; [contradiction|]. now exists j.
      - intros j. etransitivity; [|apply (Hc j)].
        apply submseteq_length, NoDup_submseteq.
        + now do 2 apply NoDup_filter.
        + intros x Hx. apply list_elem_of_filter in Hx as [Ej Hx].
          apply list_elem_of_filter in Hx as [_ Hx].
          apply list_elem_of_filter. now split. }
    specialize (Hc k). cbn [length]. lia.
Qed.

(** A frame adds [GRAVITON_CREATION_COUNT] gravitons for each particle, as
    one new cohort, and moves every other cohort one step down. *)
Lemma frame_cohorts w w' (c : nat) :
  well_formed w ->
  frame w = Some (tt, w') ->
  (length (particles w) * Configuration.GRAVITON_CREATION_COUNT)%nat = c ->
  (forall g go, g ∈ gravitons w -> graviton_objs w !! g = Some go ->
                (graviton_life go < Configuration.GRAVITON_LIFE)%Z) ->
  (forall k, (length (cohort w k) <= c)%nat) ->
  well_formed w' /\
  (length (particles w') * Configuration.GRAVITON_CREATION_COUNT)%nat = c /\
  (length (gravitons w') <= length (gravitons w) + c)%nat /\
  (forall g, g ∈ gravitons w' ->
     exists k, (0 < k < Configuration.GRAVITON_LIFE)%Z /\ life_of w' g = Some k) /\
  (forall g go, g ∈ gravitons w' -> graviton_objs w' !! g = Some go ->
                (graviton_life go < Configuration.GRAVITON_LIFE)%Z) /\
  (forall k, (length (cohort w' k) <= c)%nat).
Proof.
  intros Hwf Hrun Hc Hlife Hco.
  destruct (frame_phases w w' Hwf Hrun)
    as (news & wm & _ & Hwfm & Hpsm & _ & _ & Hgsm & Hlen & Hnew & Hwf' & Ph).
  assert (Hcases : forall g, g ∈ gravitons w' ->
            (g ∈ gravitons w /\
             exists go, graviton_objs w !! g = Some go /\
                        life_of w' g = Some (graviton_life go - 1)%Z /\
                        (0 < graviton_life go - 1)%Z /\
                        (graviton_life go < Configuration.GRAVITON_LIFE)%Z) \/
            (g ∈ news /\ life_of w' g = Some (Configuration.GRAVITON_LIFE - 1)%Z)).
  { intros g Hg.
    destruct (frame_life w w' g Hwf Hrun Hg)
      as [(Hold & go & Eg & Eg' & Hpos)|(Hnone & go & Eg' & Elife & Hpos)].
    - left. split; [exact Hold|]. exists go. split; [exact Eg|].
      split; [unfold life_of; now rewrite Eg'|]. split; [exact Hpos|].
      exact (Hlife g go Hold Eg).
    - right. split.
      + apply (ph_gravitons _ _ _ Ph) in Hg as [Hgm _].
        rewrite Hgsm in Hgm. apply elem_of_app in Hgm as [Hgm|Hgm]; [|exact Hgm].
        destruct (wf_gravitons w Hwf g Hgm) as (go0 & E0 & _). congruence.
      + unfold life_of. rewrite Eg'. cbn [aged graviton_life fmap option_fmap option_map].
        now rewrite Elife. }
  split; [exact Hwf'|].
  split; [rewrite (ph_particles _ _ _ Ph), Hpsm; exact Hc|].
  split.
  { transitivity (length (gravitons wm)).
    - apply submseteq_length, NoDup_submseteq; [exact (wf_nodup w' Hwf')|].
      intros g Hg. now apply (ph_gravitons _ _ _ Ph) in Hg as [Hgm _].
    - rewrite Hgsm, length_app, Hlen, Hc. lia. }
  split.
  { intros g Hg. destruct (Hcases g Hg) as [(_ & go & _ & E & Hpos & Hup)|(_ & E)].
    - exists (graviton_life go - 1)%Z. split; [lia|exact E].
    - exists (Configuration.GRAVITON_LIFE - 1)%Z.
      split; [unfold Configuration.GRAVITON_LIFE; lia|exact E]. }
  split.
  { intros g go Hg Eg. destruct (Hcases g Hg) as [(_ & go0 & _ & E & Hpos & Hup)|(_ & E)];
      unfold life_of in E; rewrite Eg in E; cbn in E; injection E as E.
    - lia.
    - rewrite E. lia. }
  intros k.
  destruct (decide (k = Configuration.GRAVITON_LIFE - 1)%Z) as [->|Hk].
  - rewrite <- Hc, <- Hlen.
    apply submseteq_length, NoDup_submseteq.
    + apply NoDup_filter. exact (wf_nodup w' Hwf').
    + intros g Hg. apply list_elem_of_filter in Hg as [Eg Hg].
      destruct (Hcases g Hg) as [(_ & go & _ & E & _ & Hup)|(Hn & _)]; [|exact Hn].
      rewrite E in Eg. injection Eg as Eg. lia.
  - etransitivity; [|apply (Hco (k + 1)%Z)].
    apply submseteq_length, NoDup_submseteq.
    + apply NoDup_filter. exact (wf_nodup w' Hwf').
    + intros g Hg. apply list_elem_of_filter in Hg as [Eg Hg].
      destruct (Hcases g Hg) as [(Hold & go & Ego & E & _)|(_ & E)].
      * apply list_elem_of_filter. split; [|exact Hold].
        rewrite E in Eg. injection Eg as Eg.
        unfold life_of. rewrite Ego. cbn. f_equal. lia.
      * rewrite E in Eg. injection Eg as Eg. congruence.
Qed.

Lemma run_cohorts n (c : nat) :
  forall w wn,
    well_formed w ->
    run n w = Some (tt, wn) ->
    (length (particles w) * Configuration.GRAVITON_CREATION_COUNT)%nat = c ->
    (forall g, g ∈ gravitons w ->
       exists k, (0 < k < Configuration.GRAVITON_LIFE)%Z /\ life_of w g = Some k) ->
    (forall k, (length (cohort w k) <= c)%nat) ->
    (length (gravitons wn) <= length (gravitons w) + n * c)%nat /\
    (forall g, g ∈ gravitons wn ->
       exists k, (0 < k < Configuration.GRAVITON_LIFE)%Z /\ life_of wn g = Some k) /\
    (forall k, (length (cohort wn k) <= c)%nat).
Proof.
  induction n as [|n IH]; intros w wn Hwf Hrun Hc Hlife Hco.
  - change (Some (tt, w) = Some (tt, wn)) in Hrun. injection Hrun as <-.
    split; [lia|]. now split.
  - cbn [run] in Hrun.
    destruct (frame_total w Hwf) as (w1 & Hframe & _).
    rewrite (bind_run _ _ _ _ _ Hframe) in Hrun.
    assert (Hlife' : forall g go, g ∈ gravitons w -> graviton_objs w !! g = Some go ->
                                  (graviton_life go < Configuration.GRAVITON_LIFE)%Z).
    { intros g go Hg Eg. destruct (Hlife g Hg) as (k & Hk & E).
      unfold life_of in E. rewrite Eg in E. injection E as E. lia. }
    destruct (frame_cohorts w w1 c Hwf Hframe Hc Hlife' Hco)
      as (Hwf1 & Hc1 & Hgrow & Hlife1 & _ & Hco1).
    destruct (IH w1 wn Hwf1 Hrun Hc1 Hlife1 Hco1) as (Hlen & Hlifen & Hcon).
    split; [lia|]. now split.
Qed.

(** X13.  The number of active gravitons is bounded.  Whatever the random
    generator returns in [0, 1), after [n] frames of [main] the list
    [gravitons] holds at most [n] times
    [PARTICLE_COUNT * GRAVITON_CREATION_COUNT] objects, and never more than
    [GRAVITON_LIFE - 1] times that number, which is 99 * 90 = 8910: the
    list does not grow without bound. *)
Theorem graviton_population_is_bounded n rnd rint :
  (forall k, 0 <= rnd k /\ rnd k < 1) ->
  exists w,
    main n (empty_world rnd rint) = Some (tt, w) /\
    (length (gravitons w)
     <= n * (Configuration.PARTICLE_COUNT * Configuration.GRAVITON_CREATION_COUNT))%nat /\
    (length (gravitons w)
     <= Z.to_nat (Configuration.GRAVITON_LIFE - 1)
        * (Configuration.PARTICLE_COUNT * Configuration.GRAVITON_CREATION_COUNT))%nat.
Proof.
  intros Hrnd.
  destruct (setup_spec rnd rint Hrnd) as (w0 & Hsetup & Hwf0 & _ & _ & Hlen0 & Hgs0).
  destruct (run_total n w0 Hwf0) as (w & Hrun & Hwf).
  exists w. unfold main. rewrite (bind_run _ _ _ _ _ Hsetup).
  split; [exact Hrun|].
  destruct (run_cohorts n
              (Configuration.PARTICLE_COUNT * Configuration.GRAVITON_CREATION_COUNT)
              w0 w Hwf0 Hrun)
    as (Hgrow & Hlife & Hco).
  { now rewrite Hlen0. }
  { intros g Hg. rewrite Hgs0 in Hg. inversion Hg. }
  { intros k. unfold cohort. rewrite Hgs0. cbn. lia. }
  rewrite Hgs0 in Hgrow. cbn [length] in Hgrow.
  split; [lia|].
  assert (Hcap : (length (gravitons w)
                  <= Configuration.PARTICLE_COUNT * Configuration.GRAVITON_CREATION_COUNT
                     * length (Z.of_nat <$> seq 1 99))%nat).
  { apply (length_by_key (life_of w)); [exact (wf_nodup w Hwf)| |exact Hco].
    intros g Hg. destruct (Hlife g Hg) as (k & Hk & E). exists k. split; [|exact E].
    apply list_elem_of_fmap. exists (Z.to_nat k). split; [lia|].
    apply elem_of_seq. unfold Configuration.GRAVITON_LIFE in Hk. lia. }
  rewrite length_fmap, length_seq in Hcap.
  change (Z.to_nat (Configuration.GRAVITON_LIFE - 1)) with 99%nat.
  unfold Configuration.PARTICLE_COUNT, Configuration.GRAVITON_CREATION_COUNT in *.
  lia.
Qed.

Lemma graviton_population_is_bounded_witness :
  (forall k, 0 <= sample_random k /\ sample_random k < 1) /\
  exists w,
    main 1 (empty_world sample_random (fun _ => 0%Z)) = Some (tt, w) /\
    length (gravitons w) = 90%nat /\
    (length (gravitons w)
     <= 1 * (Configuration.PARTICLE_COUNT * Configuration.GRAVITON_CREATION_COUNT))%nat /\
    (length (gravitons w)
     <= Z.to_nat (Configuration.GRAVITON_LIFE - 1)
        * (Configuration.PARTICLE_COUNT * Configuration.GRAVITON_CREATION_COUNT))%nat.
Proof.
  assert (Hrnd : forall k, 0 <= sample_random k /\ sample_random k < 1).
  { intros k. unfold sample_random, Qle, Qlt. cbn [Qnum Qden].
    pose proof (Nat.mod_upper_bound k 8). lia. }
  split; [exact Hrnd|].
  destruct (graviton_population_is_bounded 1 sample_random (fun _ => 0%Z) Hrnd)
    as (w & Hrun & Hgrow & Hcap).
  assert (Hlen : length (gravitons w) = 90%nat).
  { assert (E : option_map (fun r => length (gravitons (snd r)))
                  (main 1 (empty_world sample_random (fun _ => 0%Z))) = Some 90%nat)
      by (vm_compute; reflexivity).
    rewrite Hrun in E. cbn [option_map snd] in E. now injection E. }
  exists w. split; [exact Hrun|]. split; [exact Hlen|]. split; [exact Hgrow|exact Hcap].
Defined.

(** ** The picture of a frame *)

Lemma particle_loop_screen ps :
  forall w w',
    well_formed w ->
    (forall p, p ∈ ps -> p ∈ particles w) ->
    foreach ps particle_step w = Some (tt, w') ->
    length (screen w') = (length (screen w) + length ps)%nat.
Proof.
  induction ps as [|p ps IH]; intros w w' Hwf Hps Hrun.
  - cbn [foreach] in Hrun. injection Hrun as <-. cbn [length]. lia.
  - assert (Hin : p ∈ particles w) by (apply Hps; left).
    destruct (wf_particle_at w p Hwf Hin)
      as (po & x0 & x1 & f0 & f1 & c0 & c1 & c2 & Hpat & _).
    destruct (particle_step_spec w p po x0 x1 f0 f1 Hwf Hin Hpat)
      as (news1 & w1 & Hrun1 & Hwf1 & Hpre1 & _ & _ & Hsc1 & _).
    cbn [foreach] in Hrun. rewrite (bind_run _ _ _ _ _ Hrun1) in Hrun.
    assert (Hps1 : forall q, q ∈ ps -> q ∈ particles w1).
    { intros q Hq. rewrite (pre_particles _ _ Hpre1). apply Hps. now right. }
    rewrite (IH w1 w' Hwf1 Hps1 Hrun), Hsc1, length_app. cbn [length]. lia.
Qed.

Lemma graviton_loop_screen rest :
  forall w w',
    well_formed w ->
    NoDup rest ->
    (forall g, g ∈ rest -> g ∈ gravitons w) ->
    foreach rest graviton_step w = Some (tt, w') ->
    length (screen w') = (length (screen w) + length rest)%nat.
Proof.
  induction rest as [|g rest IH]; intros w w' Hwf Hnd Hrest Hrun.
  - cbn [foreach] in Hrun. injection Hrun as <-. cbn [length]. lia.
  - apply NoDup_cons in Hnd as [Hg_rest Hnd].
    assert (Hin : g ∈ gravitons w) by (apply Hrest; left).
    destruct (wf_graviton_at w g Hwf Hin) as (go & x & y & fx & fy & Hat).
    destruct (graviton_step_spec w g go x y fx fy Hwf Hin Hat) as (w1 & Hrun1 & Hwf1 & St).
    cbn [foreach] in Hrun. rewrite (bind_run _ _ _ _ _ Hrun1) in Hrun.
    assert (Hrest1 : forall h, h ∈ rest -> h ∈ gravitons w1).
    { intros h Hh. assert (Hne : h <> g) by (intros ->; contradiction).
      assert (Hh' : h ∈ gravitons w) by (apply Hrest; now right).
      destruct (st_gravitons _ _ _ _ _ _ _ _ St) as [[E _]|[E _]].
      - now rewrite E.
      - exact (py_remove_keeps _ _ _ _ E Hh' Hne). }
    rewrite (IH w1 w' Hwf1 Hnd Hrest1 Hrun), (st_screen _ _ _ _ _ _ _ _ St), length_app.
    cbn [length]. lia.
Qed.

(** X14.  Each frame starts its picture anew and draws every object once:
    whatever was on the screen before, after the frame it holds one circle
    for each particle and one for each graviton the second loop went
    through, that is, the gravitons active before the frame and the
    [GRAVITON_CREATION_COUNT] new ones of each particle.  A graviton that
    was active before the frame is drawn where it was before it moved, also
    when the frame removes it. *)
Theorem frame_draws_every_object_once w w' :
  well_formed w ->
  frame w = Some (tt, w') ->
  length (screen w')
  = (length (particles w)
     + (length (gravitons w)
        + length (particles w) * Configuration.GRAVITON_CREATION_COUNT))%nat /\
  (forall g go x y fx fy,
     g ∈ gravitons w ->
     graviton_at w g go [x; y] [fx; fy] ->
     mkCircle (graviton_color go) (py_int x) (py_int y) (graviton_size go) ∈ screen w').
Proof.
  intros Hwf Hrun.
  destruct (frame_spec w Hwf)
    as (news & wm & w1 & Hrun1 & Hfirst0 & Hsecond0 & Hwfm & _ & _ & _ & _ & _ & Hgsm
        & Hlen & _ & Ph & _).
  rewrite Hrun in Hrun1. injection Hrun1 as <-.
  assert (Hfirst : foreach (particles w) particle_step (set_screen (fun _ => []) w)
                   = Some (tt, wm)) by exact Hfirst0.
  assert (Hsecond : foreach (gravitons wm) graviton_step wm = Some (tt, w'))
    by exact Hsecond0.
  split.
  - rewrite (graviton_loop_screen (gravitons wm) wm w' Hwfm (wf_nodup wm Hwfm)
               (fun g Hg => Hg) Hsecond).
    rewrite (particle_loop_screen (particles w) (set_screen (fun _ => []) w) wm
               (wf_screen_fill w Hwf) (fun p Hp => Hp) Hfirst).
    rewrite Hgsm, length_app, Hlen. cbn [screen set_screen length]. lia.
  - intros g go x y fx fy Hg Hat.
    destruct (particle_loop_keeps (particles w) (set_screen (fun _ => []) w) wm
                (wf_screen_fill w Hwf) (fun p Hp => Hp) Hfirst g go [x; y] [fx; fy] Hg Hat)
      as (Hgm & Hatm).
    exact (proj2 (proj2 (ph_each _ _ _ Ph g go x y fx fy Hgm Hatm))).
Qed.

Lemma frame_draws_every_object_once_witness :
  well_formed flight_world /\
  exists w',
    frame flight_world = Some (tt, w') /\
    length (screen w')
    = (length (particles flight_world)
       + (length (gravitons flight_world)
          + length (particles flight_world) * Configuration.GRAVITON_CREATION_COUNT))%nat /\
    mkCircle [100; 75; 50] (py_int 100) (py_int 100) 1 ∈ screen w'.
Proof.
  split; [exact flight_world_wf|].
  destruct (frame flight_world) as [[[] w']|] eqn:E; [|vm_compute in E; discriminate].
  exists w'. split; [reflexivity|].
  destruct (frame_draws_every_object_once flight_world w' flight_world_wf E) as [Hlen Hin].
  split; [exact Hlen|].
  apply (Hin 1%positive (mkGraviton 1 3 4 [100; 75; 50] 1 50) 100 100 3 4).
  - apply list_elem_of_here.
  - split; [reflexivity|]. split; [reflexivity|]. split; [reflexivity|]. discriminate.
Defined.

(** ** What the loop never does *)

(** X15.  The loop of [main] works on the particles it was given: after any
    number of frames the list [particles] and every [Particle] object are
    what they were, so no particle is added, removed or replaced, and no
    particle has its position or forces attribute rebound or its colour or
    size changed; all that changes of a particle are the numbers inside its
    two lists.  No [Graviton] object is ever deleted either. *)
Theorem run_keeps_the_particle_objects n :
  forall w wn,
    well_formed w ->
    run n w = Some (tt, wn) ->
    particles wn = particles w /\
    particle_objs wn = particle_objs w /\
    (forall g, is_Some (graviton_objs w !! g) -> is_Some (graviton_objs wn !! g)) /\
    (forall p po, p ∈ particles w -> particle_objs w !! p = Some po ->
       exists x0 x1 f0 f1, particle_at wn p po [x0; x1] [f0; f1]).
Proof.
  intros w wn Hwf Hrun.
  assert (H : particles wn = particles w /\ particle_objs wn = particle_objs w).
  { revert w wn Hwf Hrun. induction n as [|n IH]; intros w wn Hwf Hrun.
    - change (Some (tt, w) = Some (tt, wn)) in Hrun. now injection Hrun as <-.
    - cbn [run] in Hrun.
      destruct (frame_total w Hwf) as (w1 & Hframe & Hwf1).
      rewrite (bind_run _ _ _ _ _ Hframe) in Hrun.
      destruct (IH w1 wn Hwf1 Hrun) as (E1 & E2).
      destruct (frame_phases w w1 Hwf Hframe)
        as (news & wm & Hfirst & _ & Hps & Hpo & _ & _ & _ & _ & _ & Ph).
      rewrite E1, E2.
      rewrite (ph_particles _ _ _ Ph), (ph_particle_objs _ _ _ Ph).
      split; [exact Hps|exact Hpo]. }
  destruct H as (E1 & E2).
  split; [exact E1|]. split; [exact E2|].
  split; [intros g Hg; exact (run_graviton_objs n w wn g Hwf Hrun Hg)|].
  intros p po Hp Ep.
  pose proof (run_wf n w wn Hwf Hrun) as Hwfn.
  rewrite <- E1 in Hp.
  destruct (wf_particle_at wn p Hwfn Hp)
    as (po' & x0 & x1 & f0 & f1 & c0 & c1 & c2 & Hat & _).
  assert (po' = po).
  { destruct Hat as (Ep' & _). rewrite E2 in Ep'. congruence. }
  subst po'. now exists x0, x1, f0, f1.
Qed.

Lemma run_keeps_the_particle_objects_witness :
  well_formed flight_world /\
  exists wn,
    run 2 flight_world = Some (tt, wn) /\
    particles wn = particles flight_world /\
    particle_objs wn = particle_objs flight_world.
Proof.
  split; [exact flight_world_wf|].
  destruct (run 2 flight_world) as [[[] wn]|] eqn:E; [|vm_compute in E; discriminate].
  exists wn. split; [reflexivity|].
  destruct (run_keeps_the_particle_objects 2 flight_world wn flight_world_wf E)
    as (E1 & E2 & _).
  split; [exact E1|exact E2].
Defined.

(** ** The program as a whole, on a sample generator *)

Lemma main_spec_witness :
  exists w,
    main 2 (empty_world (fun _ => 1 # 2) (fun _ => 0%Z)) = Some (tt, w) /\
    well_formed w /\
    in_arena w /\
    length (particles w) = Configuration.PARTICLE_COUNT.
Proof.
  apply (main_spec 2 (fun _ => 1 # 2) (fun _ => 0%Z)).
  intros k. split; [vm_compute; discriminate | reflexivity].
Defined.
